(** * Confidential perpetual DEX: a shallow embedding of the two ledger contracts

    The repository ships two Solidity contracts with the same interface:

    - [ConfidentialPerpDEX], the confidential ledger: every monetary quantity
      is an [euint64] handled through the fhevm [TFHE] library;
    - [ConfidentialPerpDEXMock], the plaintext stand-in used on networks
      without FHE: quantities are [uint256] with Solidity 0.8 checked
      arithmetic and ordinary [require] guards.

    Both are embedded as state-and-revert monadic programs over an explicit
    ledger state.  A transaction either finishes with a new state or reverts
    with the [require] message; the state in which the revert happened is kept
    so that "no write precedes the failing guard" is a statement one can
    prove, and [transact] rolls the ledger back as the EVM does. *)

From Stdlib Require Import ZArith Lia.
From stdpp Require Import base gmap list strings.

Open Scope string_scope.
Open Scope list_scope.
Open Scope Z_scope.

(** ** EVM basics shared by both contracts *)

Module Solidity.

Definition address := Z.
Definition bytes32 := Z.
(** [bytes memory]: a sequence of octets, each in [0, 256). *)
Definition bytes := list Z.

(** The part of the transaction context the contracts read. *)
Record Env := { msg_sender : address; block_timestamp : Z }.

(** The events of the two contracts (same names and arguments as declared). *)
Inductive Event :=
| PositionOpened (trader : address) (positionId : bytes32) (isLong : bool)
| PositionClosed (trader : address) (positionId : bytes32)
| StopLossTriggered (trader : address) (positionId : bytes32)
| TakeProfitTriggered (trader : address) (positionId : bytes32)
| StopLossTakeProfitUpdated (trader : address) (positionId : bytes32)
| OrderPlaced (trader : address) (orderId : Z) (isLong : bool)
| OrderMatched (orderId1 orderId2 : Z)
| LiquidationTriggered (trader : address) (positionId : bytes32)
| PriceUpdated (timestamp : Z)
| BalanceDeposited (user : address) (amount : Z).

(** Result of running a contract function from a state. *)
Inductive outcome (St A : Type) : Type :=
| Done (a : A) (s : St)
| Reverted (reason : string) (s : St).
Arguments Done {St A} a s.
Arguments Reverted {St A} reason s.

Definition M (St A : Type) : Type := St -> outcome St A.

Definition ret {St A} (a : A) : M St A := fun s => Done a s.

Definition bind {St A B} (m : M St A) (k : A -> M St B) : M St B :=
  fun s => match m s with
           | Done a s' => k a s'
           | Reverted r s' => Reverted r s'
           end.

Definition get {St} : M St St := fun s => Done s s.
Definition modify {St} (f : St -> St) : M St unit := fun s => Done tt (f s).
Definition revert {St A} (reason : string) : M St A := fun s => Reverted reason s.

(** [require(cond, reason)] *)
Definition require {St} (cond : bool) (reason : string) : M St unit :=
  if cond then ret tt else revert reason.

(** A transaction: on revert every write is rolled back. *)
Definition transact {St A} (m : M St A) (s : St) : St :=
  match m s with
  | Done _ s' => s'
  | Reverted _ _ => s
  end.

Definition succeeds {St A} (o : outcome St A) : bool :=
  match o with Done _ _ => true | Reverted _ _ => false end.

(** Messages of the compiler-inserted panics. *)
Definition PanicOverflow : string := "Panic(0x11)".
Definition PanicDivisionByZero : string := "Panic(0x12)".
Definition PanicArrayIndex : string := "Panic(0x32)".

End Solidity.

Export Solidity.

Declare Scope sol_scope.
Delimit Scope sol_scope with sol.
Notation "'let*' x ':=' m 'in' k" := (bind m (fun x => k))
  (at level 10, x name, m at level 100, k at level 200) : sol_scope.
Notation "m1 ;; m2" := (bind m1 (fun _ => m2))
  (at level 100, m2 at level 200, right associativity) : sol_scope.
Open Scope sol_scope.

(** ** The error taxonomy of the specification *)

(** Modelled from the spec: the contracts carry only [require] messages,
    the specification names error classes.  [InvalidStateError] is "operating
    on a closed/nonexistent position or order", which is what the message
    "Position not open" reports; [UnauthorizedError] is the failure of an
    identity check, and the only identity check in the sources is the
    [onlyAdmin] modifier with its message "Only admin". *)
Inductive ErrorClass := InvalidStateError | UnauthorizedError | OtherError.

Definition classify (reason : string) : ErrorClass :=
  if String.eqb reason "Position not open" then InvalidStateError
  else if String.eqb reason "Only admin" then UnauthorizedError
  else OtherError.

(** ** The fhevm TFHE library, by plaintext *)

(** Modelled from the spec: the library is an external dependency
    ([import "fhevm/lib/TFHE.sol"]) and not part of the sources.  A
    confidential value supports "addition, subtraction, multiplication,
    division-by-plaintext, and comparison-producing-confidential-boolean",
    none of which raises on the values involved.  An [euint64] is
    represented by the 64-bit value it encrypts and an [ebool] by the boolean
    it encrypts; arithmetic is unchecked and wraps modulo 2^64; a handle that
    was never written reads as zero.  Division takes a plaintext divisor; a
    zero divisor is the one input that makes the call fail. *)
Module TFHE.

Definition euint64 := Z.
Definition ebool := bool.

Definition modulus : Z := 2 ^ 64.
Definition wrap (z : Z) : euint64 := z mod modulus.

Definition add (a b : euint64) : euint64 := wrap (a + b).
Definition sub (a b : euint64) : euint64 := wrap (a - b).
Definition mul (a b : euint64) : euint64 := wrap (a * b).

Definition div {St} (a : euint64) (b : Z) : M St euint64 :=
  if b =? 0 then revert PanicDivisionByZero else ret (a / b).

Definition lt (a b : euint64) : ebool := a <? b.
Definition gt (a b : euint64) : ebool := b <? a.
Definition le (a b : euint64) : ebool := a <=? b.
Definition ge (a b : euint64) : ebool := b <=? a.

(** [TFHE.asEuint64(uint256)]: trivial encryption of a constant. *)
Definition asEuint64 (v : Z) : euint64 := wrap v.

End TFHE.

(** ** ConfidentialPerpDEX *)

Module ConfidentialPerpDEX.

Module EncryptedPosition.
Record t := mk {
  size : TFHE.euint64;
  entryPrice : TFHE.euint64;
  collateral : TFHE.euint64;
  leverage : Z;
  isLong : bool;
  timestamp : Z;
  isOpen : bool;
  stopLoss : TFHE.euint64;
  takeProfit : TFHE.euint64 }.

(** What an unwritten storage slot reads as. *)
Definition zero : t := mk 0 0 0 0 false 0 false 0 0.

Definition with_isOpen (b : bool) (p : t) : t :=
  mk (size p) (entryPrice p) (collateral p) (leverage p) (isLong p)
     (timestamp p) b (stopLoss p) (takeProfit p).

Definition with_brackets (sl tp : TFHE.euint64) (p : t) : t :=
  mk (size p) (entryPrice p) (collateral p) (leverage p) (isLong p)
     (timestamp p) (isOpen p) sl tp.
End EncryptedPosition.

Module EncryptedOrder.
Record t := mk {
  price : TFHE.euint64;
  size : TFHE.euint64;
  trader : address;
  isLong : bool;
  isFilled : bool;
  timestamp : Z }.

Definition with_isFilled (b : bool) (o : t) : t :=
  mk (price o) (size o) (trader o) (isLong o) b (timestamp o).
End EncryptedOrder.

(** Contract storage, plus the log of emitted events.  A balance that was
    never written is an uninitialized handle: absent from the map. *)
Record State := mkState {
  encryptedBalances : gmap address TFHE.euint64;
  positions : gmap (address * bytes32) EncryptedPosition.t;
  userPositionIds : gmap address (list bytes32);
  orderBook : list EncryptedOrder.t;
  encryptedOraclePrice : TFHE.euint64;
  liquidationThreshold : TFHE.euint64;
  fundingRate : TFHE.euint64;
  admin : address;
  events : list Event }.

Definition set_encryptedBalances (f : gmap address TFHE.euint64 -> gmap address TFHE.euint64) (s : State) : State :=
  mkState (f (encryptedBalances s)) (positions s) (userPositionIds s) (orderBook s)
          (encryptedOraclePrice s) (liquidationThreshold s) (fundingRate s) (admin s) (events s).

Definition set_positions (f : gmap (address * bytes32) EncryptedPosition.t -> gmap (address * bytes32) EncryptedPosition.t) (s : State) : State :=
  mkState (encryptedBalances s) (f (positions s)) (userPositionIds s) (orderBook s)
          (encryptedOraclePrice s) (liquidationThreshold s) (fundingRate s) (admin s) (events s).

Definition set_userPositionIds (f : gmap address (list bytes32) -> gmap address (list bytes32)) (s : State) : State :=
  mkState (encryptedBalances s) (positions s) (f (userPositionIds s)) (orderBook s)
          (encryptedOraclePrice s) (liquidationThreshold s) (fundingRate s) (admin s) (events s).

Definition set_orderBook (f : list EncryptedOrder.t -> list EncryptedOrder.t) (s : State) : State :=
  mkState (encryptedBalances s) (positions s) (userPositionIds s) (f (orderBook s))
          (encryptedOraclePrice s) (liquidationThreshold s) (fundingRate s) (admin s) (events s).

Definition set_encryptedOraclePrice (p : TFHE.euint64) (s : State) : State :=
  mkState (encryptedBalances s) (positions s) (userPositionIds s) (orderBook s)
          p (liquidationThreshold s) (fundingRate s) (admin s) (events s).

Definition set_events (f : list Event -> list Event) (s : State) : State :=
  mkState (encryptedBalances s) (positions s) (userPositionIds s) (orderBook s)
          (encryptedOraclePrice s) (liquidationThreshold s) (fundingRate s) (admin s) (f (events s)).

(** Storage reads.  An operation on an uninitialized handle sees zero. *)
Definition balanceOf (s : State) (a : address) : TFHE.euint64 :=
  default 0 (encryptedBalances s !! a).

Definition positionOf (s : State) (trader : address) (positionId : bytes32) : EncryptedPosition.t :=
  default EncryptedPosition.zero (positions s !! (trader, positionId)).

Definition readBalance (a : address) : M State TFHE.euint64 :=
  fun s => Done (balanceOf s a) s.

Definition readPosition (trader : address) (positionId : bytes32) : M State EncryptedPosition.t :=
  fun s => Done (positionOf s trader positionId) s.

Definition writeBalance (a : address) (v : TFHE.euint64) : M State unit :=
  modify (set_encryptedBalances (fun m => <[a := v]> m)).

Definition writePosition (trader : address) (positionId : bytes32) (p : EncryptedPosition.t) : M State unit :=
  modify (set_positions (fun m => <[(trader, positionId) := p]> m)).

Definition emit (e : Event) : M State unit :=
  modify (set_events (fun l => l ++ [e])).

Section Contract.

(** [TFHE.asEuint64(bytes)]: the value carried by a ciphertext that the
    library accepts.  Decoding belongs to the encryption library and is
    left uninterpreted; a call whose ciphertext the library refuses is
    aborted there, and is covered by [Ciphertext.submit] further down. *)
Variable asEuint64 : bytes -> TFHE.euint64.

(** [keccak256(abi.encodePacked(msg.sender, block.timestamp, size))],
    left uninterpreted. *)
Variable keccak256 : address * Z * TFHE.euint64 -> bytes32.

Definition constructor (e : Env) : State :=
  mkState ∅ ∅ ∅ []
          (TFHE.asEuint64 (50000 * 100))
          (TFHE.asEuint64 500)
          (TFHE.asEuint64 10)
          (msg_sender e)
          [].

Definition onlyAdmin (e : Env) : M State unit :=
  let* s := get in
  require (bool_decide (msg_sender e = admin s)) "Only admin".

Definition deposit (e : Env) (encryptedAmount : bytes) : M State unit :=
  let amount := asEuint64 encryptedAmount in
  let* s := get in
  match encryptedBalances s !! msg_sender e with
  | Some currentBalance => writeBalance (msg_sender e) (TFHE.add currentBalance amount)
  | None => writeBalance (msg_sender e) amount
  end ;;
  emit (BalanceDeposited (msg_sender e) 0).

Definition getBalance (e : Env) : M State TFHE.euint64 :=
  readBalance (msg_sender e).

Definition openPosition (e : Env) (encSize : bytes) (leverage : Z) (isLong : bool)
           (encStopLoss encTakeProfit : bytes) : M State bytes32 :=
  let size := asEuint64 encSize in
  let stopLoss := asEuint64 encStopLoss in
  let takeProfit := asEuint64 encTakeProfit in
  let* s := get in
  let positionValue := TFHE.mul size (encryptedOraclePrice s) in
  let* requiredCollateral := TFHE.div positionValue leverage in
  let* userBalance := readBalance (msg_sender e) in
  writeBalance (msg_sender e) (TFHE.sub userBalance requiredCollateral) ;;
  let positionId := keccak256 (msg_sender e, block_timestamp e, size) in
  writePosition (msg_sender e) positionId
    (EncryptedPosition.mk size (encryptedOraclePrice s) requiredCollateral leverage
                          isLong (block_timestamp e) true stopLoss takeProfit) ;;
  modify (set_userPositionIds (fun m =>
            <[msg_sender e := default [] (m !! msg_sender e) ++ [positionId]]> m)) ;;
  emit (PositionOpened (msg_sender e) positionId isLong) ;;
  ret positionId.

Definition calculatePnL (trader : address) (positionId : bytes32) : M State TFHE.euint64 :=
  let* pos := readPosition trader positionId in
  require (EncryptedPosition.isOpen pos) "Position not open" ;;
  let* s := get in
  let priceDiff :=
    if EncryptedPosition.isLong pos
    then TFHE.sub (encryptedOraclePrice s) (EncryptedPosition.entryPrice pos)
    else TFHE.sub (EncryptedPosition.entryPrice pos) (encryptedOraclePrice s) in
  ret (TFHE.mul priceDiff (EncryptedPosition.size pos)).

Definition closePosition (e : Env) (positionId : bytes32) : M State unit :=
  let* pos := readPosition (msg_sender e) positionId in
  require (EncryptedPosition.isOpen pos) "Position not open" ;;
  let* pnl := calculatePnL (msg_sender e) positionId in
  let returnAmount := TFHE.add (EncryptedPosition.collateral pos) pnl in
  let* bal := readBalance (msg_sender e) in
  writeBalance (msg_sender e) (TFHE.add bal returnAmount) ;;
  let* pos := readPosition (msg_sender e) positionId in
  writePosition (msg_sender e) positionId (EncryptedPosition.with_isOpen false pos) ;;
  emit (PositionClosed (msg_sender e) positionId).

Definition updateStopLossTakeProfit (e : Env) (positionId : bytes32)
           (encStopLoss encTakeProfit : bytes) : M State unit :=
  let* pos := readPosition (msg_sender e) positionId in
  require (EncryptedPosition.isOpen pos) "Position not open" ;;
  writePosition (msg_sender e) positionId
    (EncryptedPosition.with_brackets (asEuint64 encStopLoss) (asEuint64 encTakeProfit) pos) ;;
  emit (StopLossTakeProfitUpdated (msg_sender e) positionId).

Definition checkStopLossTakeProfit (trader : address) (positionId : bytes32)
  : M State (TFHE.ebool * TFHE.ebool) :=
  let* pos := readPosition trader positionId in
  require (EncryptedPosition.isOpen pos) "Position not open" ;;
  let* s := get in
  let slTriggered :=
    if EncryptedPosition.isLong pos
    then TFHE.lt (encryptedOraclePrice s) (EncryptedPosition.stopLoss pos)
    else TFHE.gt (encryptedOraclePrice s) (EncryptedPosition.stopLoss pos) in
  let tpTriggered :=
    if EncryptedPosition.isLong pos
    then TFHE.gt (encryptedOraclePrice s) (EncryptedPosition.takeProfit pos)
    else TFHE.lt (encryptedOraclePrice s) (EncryptedPosition.takeProfit pos) in
  ret (slTriggered, tpTriggered).

Definition executeStopLossTakeProfit (e : Env) (trader : address) (positionId : bytes32)
  : M State unit :=
  let* pos := readPosition trader positionId in
  require (EncryptedPosition.isOpen pos) "Position not open" ;;
  let* triggers := checkStopLossTakeProfit trader positionId in
  let* pnl := calculatePnL trader positionId in
  let returnAmount := TFHE.add (EncryptedPosition.collateral pos) pnl in
  let* bal := readBalance trader in
  writeBalance trader (TFHE.add bal returnAmount) ;;
  let* pos := readPosition trader positionId in
  writePosition trader positionId (EncryptedPosition.with_isOpen false pos) ;;
  emit (PositionClosed trader positionId).

Definition checkLiquidation (trader : address) (positionId : bytes32) : M State TFHE.ebool :=
  let* pos := readPosition trader positionId in
  require (EncryptedPosition.isOpen pos) "Position not open" ;;
  let* s := get in
  let positionValue := TFHE.mul (EncryptedPosition.size pos) (encryptedOraclePrice s) in
  let* pnl := calculatePnL trader positionId in
  let netValue := TFHE.add (EncryptedPosition.collateral pos) pnl in
  let netValueScaled := TFHE.mul netValue (TFHE.asEuint64 10000) in
  let thresholdValue := TFHE.mul positionValue (liquidationThreshold s) in
  ret (TFHE.lt netValueScaled thresholdValue).

Definition liquidate (e : Env) (trader : address) (positionId : bytes32) : M State unit :=
  let* pos := readPosition trader positionId in
  require (EncryptedPosition.isOpen pos) "Position not open" ;;
  writePosition trader positionId (EncryptedPosition.with_isOpen false pos) ;;
  let* pos := readPosition trader positionId in
  let* liquidationReward := TFHE.div (EncryptedPosition.collateral pos) 10 in
  let* bal := readBalance (msg_sender e) in
  writeBalance (msg_sender e) (TFHE.add bal liquidationReward) ;;
  emit (LiquidationTriggered trader positionId).

(** The body of the [for] loop of [_matchOrders], for [i] and the
    [remaining] indices after it.  [newOrder] and [existingOrder] are
    storage references: every read goes to the current order book.
    [continue] moves to [i + 1]; [break] ends the loop. *)
Fixpoint matchLoop (remaining : nat) (i : nat) (newOrderId : nat) : M State unit :=
  match remaining with
  | O => ret tt
  | S remaining' =>
      let continue := matchLoop remaining' (S i) newOrderId in
      if bool_decide (i = newOrderId) then continue
      else
        let* s := get in
        match orderBook s !! i, orderBook s !! newOrderId with
        | Some existingOrder, Some newOrder =>
            if Bool.eqb (EncryptedOrder.isLong existingOrder) (EncryptedOrder.isLong newOrder)
            then continue
            else if EncryptedOrder.isFilled existingOrder || EncryptedOrder.isFilled newOrder
            then continue
            else
              let canMatch :=
                if EncryptedOrder.isLong newOrder
                then TFHE.ge (EncryptedOrder.price newOrder) (EncryptedOrder.price existingOrder)
                else TFHE.le (EncryptedOrder.price newOrder) (EncryptedOrder.price existingOrder) in
              modify (set_orderBook (fun ob =>
                        <[newOrderId := EncryptedOrder.with_isFilled true newOrder]> ob)) ;;
              modify (set_orderBook (fun ob =>
                        <[i := EncryptedOrder.with_isFilled true existingOrder]> ob)) ;;
              emit (OrderMatched (Z.of_nat newOrderId) (Z.of_nat i))
        | _, _ => revert PanicArrayIndex
        end
  end.

Definition _matchOrders (newOrderId : nat) : M State unit :=
  let* s := get in
  match orderBook s !! newOrderId with
  | None => revert PanicArrayIndex
  | Some _ => matchLoop (length (orderBook s)) 0 newOrderId
  end.

Definition placeOrder (e : Env) (encPrice encSize : bytes) (isLong : bool) : M State nat :=
  let price := asEuint64 encPrice in
  let size := asEuint64 encSize in
  modify (set_orderBook (fun ob =>
            ob ++ [EncryptedOrder.mk price size (msg_sender e) isLong false (block_timestamp e)])) ;;
  let* s := get in
  let orderId := (length (orderBook s) - 1)%nat in
  emit (OrderPlaced (msg_sender e) (Z.of_nat orderId) isLong) ;;
  _matchOrders orderId ;;
  ret orderId.

Definition updateOraclePrice (e : Env) (encNewPrice : bytes) : M State unit :=
  onlyAdmin e ;;
  modify (set_encryptedOraclePrice (asEuint64 encNewPrice)) ;;
  emit (PriceUpdated (block_timestamp e)).

Definition getOraclePrice : M State TFHE.euint64 :=
  let* s := get in ret (encryptedOraclePrice s).

Definition getUserPositions (user : address) : M State (list bytes32) :=
  let* s := get in ret (default [] (userPositionIds s !! user)).

Definition getOrderBookSize : M State nat :=
  let* s := get in ret (length (orderBook s)).

End Contract.

End ConfidentialPerpDEX.

(** ** Solidity 0.8 checked arithmetic on [uint256] *)

Module Uint256.

Definition modulus : Z := 2 ^ 256.

Definition add {St} (a b : Z) : M St Z :=
  if a + b <? modulus then ret (a + b) else revert PanicOverflow.

Definition sub {St} (a b : Z) : M St Z :=
  if b <=? a then ret (a - b) else revert PanicOverflow.

Definition mul {St} (a b : Z) : M St Z :=
  if a * b <? modulus then ret (a * b) else revert PanicOverflow.

Definition div {St} (a b : Z) : M St Z :=
  if b =? 0 then revert PanicDivisionByZero else ret (a / b).

End Uint256.

(** ** ConfidentialPerpDEXMock *)

Module ConfidentialPerpDEXMock.

Module Position.
Record t := mk {
  size : Z;
  entryPrice : Z;
  collateral : Z;
  leverage : Z;
  isLong : bool;
  timestamp : Z;
  isOpen : bool }.

Definition zero : t := mk 0 0 0 0 false 0 false.

Definition with_isOpen (b : bool) (p : t) : t :=
  mk (size p) (entryPrice p) (collateral p) (leverage p) (isLong p) (timestamp p) b.
End Position.

Module Order.
Record t := mk {
  price : Z;
  size : Z;
  trader : address;
  isLong : bool;
  isFilled : bool;
  timestamp : Z }.

Definition with_isFilled (b : bool) (o : t) : t :=
  mk (price o) (size o) (trader o) (isLong o) b (timestamp o).
End Order.

Record State := mkState {
  balances : gmap address Z;
  positions : gmap (address * bytes32) Position.t;
  userPositionIds : gmap address (list bytes32);
  orderBook : list Order.t;
  oraclePrice : Z;
  liquidationThreshold : Z;
  fundingRate : Z;
  admin : address;
  events : list Event }.

Definition set_balances (f : gmap address Z -> gmap address Z) (s : State) : State :=
  mkState (f (balances s)) (positions s) (userPositionIds s) (orderBook s)
          (oraclePrice s) (liquidationThreshold s) (fundingRate s) (admin s) (events s).

Definition set_positions (f : gmap (address * bytes32) Position.t -> gmap (address * bytes32) Position.t) (s : State) : State :=
  mkState (balances s) (f (positions s)) (userPositionIds s) (orderBook s)
          (oraclePrice s) (liquidationThreshold s) (fundingRate s) (admin s) (events s).

Definition set_userPositionIds (f : gmap address (list bytes32) -> gmap address (list bytes32)) (s : State) : State :=
  mkState (balances s) (positions s) (f (userPositionIds s)) (orderBook s)
          (oraclePrice s) (liquidationThreshold s) (fundingRate s) (admin s) (events s).

Definition set_orderBook (f : list Order.t -> list Order.t) (s : State) : State :=
  mkState (balances s) (positions s) (userPositionIds s) (f (orderBook s))
          (oraclePrice s) (liquidationThreshold s) (fundingRate s) (admin s) (events s).

Definition set_oraclePrice (p : Z) (s : State) : State :=
  mkState (balances s) (positions s) (userPositionIds s) (orderBook s)
          p (liquidationThreshold s) (fundingRate s) (admin s) (events s).

Definition set_events (f : list Event -> list Event) (s : State) : State :=
  mkState (balances s) (positions s) (userPositionIds s) (orderBook s)
          (oraclePrice s) (liquidationThreshold s) (fundingRate s) (admin s) (f (events s)).

Definition balanceOf (s : State) (a : address) : Z :=
  default 0 (balances s !! a).

Definition positionOf (s : State) (trader : address) (positionId : bytes32) : Position.t :=
  default Position.zero (positions s !! (trader, positionId)).

Definition readBalance (a : address) : M State Z :=
  fun s => Done (balanceOf s a) s.

Definition readPosition (trader : address) (positionId : bytes32) : M State Position.t :=
  fun s => Done (positionOf s trader positionId) s.

Definition writeBalance (a : address) (v : Z) : M State unit :=
  modify (set_balances (fun m => <[a := v]> m)).

Definition writePosition (trader : address) (positionId : bytes32) (p : Position.t) : M State unit :=
  modify (set_positions (fun m => <[(trader, positionId) := p]> m)).

Definition emit (e : Event) : M State unit :=
  modify (set_events (fun l => l ++ [e])).

(** Big-endian value of a byte string. *)
Fixpoint from_be (acc : Z) (data : bytes) : Z :=
  match data with
  | [] => acc
  | b :: rest => from_be (acc * 256 + b) rest
  end.

(** Big-endian bytes of [v], [n] of them. *)
Fixpoint to_be (n : nat) (v : Z) : bytes :=
  match n with
  | O => []
  | S n' => to_be n' (v / 256) ++ [v mod 256]
  end.

Definition _mockDecrypt (data : bytes) : Z :=
  if (length data =? 0)%nat then 0
  else if (length data <? 32)%nat
       then from_be 0 (replicate (32 - length data) 0 ++ data)
       else from_be 0 (take 32 data).

(** [abi.encodePacked(uint256)] *)
Definition mockEncrypt (value : Z) : bytes := to_be 32 value.

Section Contract.

(** [keccak256(abi.encodePacked(msg.sender, block.timestamp, size))],
    left uninterpreted. *)
Variable keccak256 : address * Z * Z -> bytes32.

Definition constructor (e : Env) : State :=
  mkState ∅ ∅ ∅ [] (50000 * 100) 500 10 (msg_sender e) [].

Definition onlyAdmin (e : Env) : M State unit :=
  let* s := get in
  require (bool_decide (msg_sender e = admin s)) "Only admin".

Definition deposit (e : Env) (encryptedAmount : bytes) : M State unit :=
  let amount := _mockDecrypt encryptedAmount in
  let* bal := readBalance (msg_sender e) in
  let* bal' := Uint256.add bal amount in
  writeBalance (msg_sender e) bal' ;;
  emit (BalanceDeposited (msg_sender e) 0).

Definition getBalance (e : Env) : M State Z :=
  readBalance (msg_sender e).

Definition openPosition (e : Env) (encSize : bytes) (leverage : Z) (isLong : bool)
  : M State bytes32 :=
  let size := _mockDecrypt encSize in
  let* s := get in
  let* positionValue := Uint256.mul size (oraclePrice s) in
  let* requiredCollateral := Uint256.div positionValue leverage in
  let* bal := readBalance (msg_sender e) in
  require (requiredCollateral <=? bal) "Insufficient balance" ;;
  let* bal' := Uint256.sub bal requiredCollateral in
  writeBalance (msg_sender e) bal' ;;
  let positionId := keccak256 (msg_sender e, block_timestamp e, size) in
  writePosition (msg_sender e) positionId
    (Position.mk size (oraclePrice s) requiredCollateral leverage isLong
                 (block_timestamp e) true) ;;
  modify (set_userPositionIds (fun m =>
            <[msg_sender e := default [] (m !! msg_sender e) ++ [positionId]]> m)) ;;
  emit (PositionOpened (msg_sender e) positionId isLong) ;;
  ret positionId.

Definition calculatePnL (trader : address) (positionId : bytes32) : M State Z :=
  let* pos := readPosition trader positionId in
  require (Position.isOpen pos) "Position not open" ;;
  let* s := get in
  let* priceDiff :=
    if Position.isLong pos then
      if Position.entryPrice pos <? oraclePrice s
      then Uint256.sub (oraclePrice s) (Position.entryPrice pos)
      else ret 0
    else
      if oraclePrice s <? Position.entryPrice pos
      then Uint256.sub (Position.entryPrice pos) (oraclePrice s)
      else ret 0 in
  Uint256.mul priceDiff (Position.size pos).

Definition closePosition (e : Env) (positionId : bytes32) : M State unit :=
  let* pos := readPosition (msg_sender e) positionId in
  require (Position.isOpen pos) "Position not open" ;;
  let* pnl := calculatePnL (msg_sender e) positionId in
  let* returnAmount := Uint256.add (Position.collateral pos) pnl in
  let* bal := readBalance (msg_sender e) in
  let* bal' := Uint256.add bal returnAmount in
  writeBalance (msg_sender e) bal' ;;
  let* pos := readPosition (msg_sender e) positionId in
  writePosition (msg_sender e) positionId (Position.with_isOpen false pos) ;;
  emit (PositionClosed (msg_sender e) positionId).

Definition checkLiquidation (trader : address) (positionId : bytes32) : M State bool :=
  let* pos := readPosition trader positionId in
  require (Position.isOpen pos) "Position not open" ;;
  let* s := get in
  let* positionValue := Uint256.mul (Position.size pos) (oraclePrice s) in
  let* pnl := calculatePnL trader positionId in
  let* netValue := Uint256.add (Position.collateral pos) pnl in
  let* netValueScaled := Uint256.mul netValue 10000 in
  let* thresholdValue := Uint256.mul positionValue (liquidationThreshold s) in
  ret (netValueScaled <? thresholdValue).

Definition liquidate (e : Env) (trader : address) (positionId : bytes32) : M State unit :=
  let* pos := readPosition trader positionId in
  require (Position.isOpen pos) "Position not open" ;;
  let* isLiquidatable := checkLiquidation trader positionId in
  require isLiquidatable "Position not liquidatable" ;;
  writePosition trader positionId (Position.with_isOpen false pos) ;;
  let* pos := readPosition trader positionId in
  let* liquidationReward := Uint256.div (Position.collateral pos) 10 in
  let* bal := readBalance (msg_sender e) in
  let* bal' := Uint256.add bal liquidationReward in
  writeBalance (msg_sender e) bal' ;;
  emit (LiquidationTriggered trader positionId).

(** The [for] loop of [_matchOrders]; here the fill is guarded by the
    plaintext price test. *)
Fixpoint matchLoop (remaining : nat) (i : nat) (newOrderId : nat) : M State unit :=
  match remaining with
  | O => ret tt
  | S remaining' =>
      let continue := matchLoop remaining' (S i) newOrderId in
      if bool_decide (i = newOrderId) then continue
      else
        let* s := get in
        match orderBook s !! i, orderBook s !! newOrderId with
        | Some existingOrder, Some newOrder =>
            if Bool.eqb (Order.isLong existingOrder) (Order.isLong newOrder)
            then continue
            else if Order.isFilled existingOrder || Order.isFilled newOrder
            then continue
            else
              let canMatch :=
                if Order.isLong newOrder
                then Order.price existingOrder <=? Order.price newOrder
                else Order.price newOrder <=? Order.price existingOrder in
              if canMatch then
                modify (set_orderBook (fun ob =>
                          <[newOrderId := Order.with_isFilled true newOrder]> ob)) ;;
                modify (set_orderBook (fun ob =>
                          <[i := Order.with_isFilled true existingOrder]> ob)) ;;
                emit (OrderMatched (Z.of_nat newOrderId) (Z.of_nat i))
              else continue
        | _, _ => revert PanicArrayIndex
        end
  end.

Definition _matchOrders (newOrderId : nat) : M State unit :=
  let* s := get in
  match orderBook s !! newOrderId with
  | None => revert PanicArrayIndex
  | Some _ => matchLoop (length (orderBook s)) 0 newOrderId
  end.

Definition placeOrder (e : Env) (encPrice encSize : bytes) (isLong : bool) : M State nat :=
  let price := _mockDecrypt encPrice in
  let size := _mockDecrypt encSize in
  modify (set_orderBook (fun ob =>
            ob ++ [Order.mk price size (msg_sender e) isLong false (block_timestamp e)])) ;;
  let* s := get in
  let orderId := (length (orderBook s) - 1)%nat in
  emit (OrderPlaced (msg_sender e) (Z.of_nat orderId) isLong) ;;
  _matchOrders orderId ;;
  ret orderId.

Definition updateOraclePrice (e : Env) (encNewPrice : bytes) : M State unit :=
  onlyAdmin e ;;
  modify (set_oraclePrice (_mockDecrypt encNewPrice)) ;;
  emit (PriceUpdated (block_timestamp e)).

Definition getOraclePrice : M State Z :=
  let* s := get in ret (oraclePrice s).

Definition getUserPositions (user : address) : M State (list bytes32) :=
  let* s := get in ret (default [] (userPositionIds s !! user)).

Definition getOrderBookSize : M State nat :=
  let* s := get in ret (length (orderBook s)).

End Contract.

End ConfidentialPerpDEXMock.

(** ** Statement vocabulary for the confidential ledger

    Post-states and reference functions in which the properties below are
    phrased.  They follow the wording of the specification and are compared
    with what the contract code computes. *)

Module LedgerSpec.
Import ConfidentialPerpDEX.

Definition finalState {St A} (o : outcome St A) : St :=
  match o with Done _ s => s | Reverted _ s => s end.

Definition failsWith {St A} (c : ErrorClass) (o : outcome St A) : Prop :=
  exists reason s, o = Reverted reason s /\ classify reason = c.

(** The position is in a terminal state. *)
Definition closedIn (s : State) (trader : address) (positionId : bytes32) : Prop :=
  EncryptedPosition.isOpen (positionOf s trader positionId) = false.

(** "for long positions, pnl = (oraclePrice - entryPrice) * size; for
    short, pnl = (entryPrice - oraclePrice) * size", as an integer. *)
Definition pnlFormula (oracle : Z) (pos : EncryptedPosition.t) : Z :=
  if EncryptedPosition.isLong pos
  then (oracle - EncryptedPosition.entryPrice pos) * EncryptedPosition.size pos
  else (EncryptedPosition.entryPrice pos - oracle) * EncryptedPosition.size pos.

(** "credits [amount] back to the owner; sets isOpen=false; emits [ev]". *)
Definition creditedAndClosed (trader : address) (positionId : bytes32)
           (amount : TFHE.euint64) (ev : Event) (s : State) : State :=
  set_events (fun l => l ++ [ev])
    (set_positions (fun m => <[(trader, positionId) :=
                                 EncryptedPosition.with_isOpen false (positionOf s trader positionId)]> m)
       (set_encryptedBalances (fun m => <[trader := TFHE.add (balanceOf s trader) amount]> m) s)).

(** "closes the position, and pays the caller a fixed fraction of
    collateral as a reward". *)
Definition liquidated (caller trader : address) (positionId : bytes32) (s : State) : State :=
  let pos := positionOf s trader positionId in
  set_events (fun l => l ++ [LiquidationTriggered trader positionId])
    (set_encryptedBalances
       (fun m => <[caller := TFHE.add (balanceOf s caller) (EncryptedPosition.collateral pos / 10)]> m)
       (set_positions (fun m => <[(trader, positionId) := EncryptedPosition.with_isOpen false pos]> m) s)).

(** "a liquidated position's owner receives the credit on the liquidation
    path": the liquidation goes through and pays [collateral + pnl] into
    the owner's balance. *)
Definition ownerCreditedOnLiquidation (e : Env) (owner : address) (positionId : bytes32)
           (s : State) : Prop :=
  exists (pnl : TFHE.euint64) (s' : State),
    calculatePnL owner positionId s = Done pnl s
    /\ liquidate e owner positionId s = Done tt s'
    /\ balanceOf s' owner
       = TFHE.add (balanceOf s owner)
           (TFHE.add (EncryptedPosition.collateral (positionOf s owner positionId)) pnl).

(** The ledger with other bracket prices on one position. *)
Definition withBrackets (trader : address) (positionId : bytes32)
           (stopLoss takeProfit : TFHE.euint64) (s : State) : State :=
  set_positions (fun m => <[(trader, positionId) :=
                              EncryptedPosition.with_brackets stopLoss takeProfit
                                (positionOf s trader positionId)]> m) s.

(** "the first unfilled order of the opposite side", scanning from index
    [i] on. *)
Definition isCounterpart (isLong : bool) (o : EncryptedOrder.t) : bool :=
  negb (Bool.eqb (EncryptedOrder.isLong o) isLong) && negb (EncryptedOrder.isFilled o).

Fixpoint firstCounterpart (isLong : bool) (ob : list EncryptedOrder.t) (i : nat) : option nat :=
  match ob with
  | [] => None
  | o :: rest => if isCounterpart isLong o then Some i else firstCounterpart isLong rest (S i)
  end.

(** The order book after inserting [newOrder] and matching it: both sides
    of the first-found pair are marked filled; prices are not consulted. *)
Definition matchedBook (ob : list EncryptedOrder.t) (newOrder : EncryptedOrder.t)
  : list EncryptedOrder.t :=
  match firstCounterpart (EncryptedOrder.isLong newOrder) ob 0 with
  | Some j => alter (EncryptedOrder.with_isFilled true) j ob
                ++ [EncryptedOrder.with_isFilled true newOrder]
  | None => ob ++ [newOrder]
  end.

Definition matchEvents (ob : list EncryptedOrder.t) (newOrder : EncryptedOrder.t) : list Event :=
  match firstCounterpart (EncryptedOrder.isLong newOrder) ob 0 with
  | Some j => [OrderMatched (Z.of_nat (length ob)) (Z.of_nat j)]
  | None => []
  end.

End LedgerSpec.

(** ** Transactions and traces of the confidential ledger *)

Module Ledger.
Import ConfidentialPerpDEX.

(** The mutating entry points, as a caller submits them. *)
Inductive Call :=
| Deposit (encryptedAmount : bytes)
| OpenPosition (encSize : bytes) (leverage : Z) (isLong : bool) (encStopLoss encTakeProfit : bytes)
| ClosePosition (positionId : bytes32)
| UpdateStopLossTakeProfit (positionId : bytes32) (encStopLoss encTakeProfit : bytes)
| ExecuteStopLossTakeProfit (trader : address) (positionId : bytes32)
| Liquidate (trader : address) (positionId : bytes32)
| PlaceOrder (encPrice encSize : bytes) (isLong : bool)
| UpdateOraclePrice (encNewPrice : bytes).

Section Traces.
Variable asEuint64 : bytes -> TFHE.euint64.
Variable keccak256 : address * Z * TFHE.euint64 -> bytes32.

Definition dispatch (e : Env) (c : Call) : M State unit :=
  match c with
  | Deposit a => deposit asEuint64 e a
  | OpenPosition sz lev long sl tp =>
      openPosition asEuint64 keccak256 e sz lev long sl tp ;; ret tt
  | ClosePosition positionId => closePosition e positionId
  | UpdateStopLossTakeProfit positionId sl tp =>
      updateStopLossTakeProfit asEuint64 e positionId sl tp
  | ExecuteStopLossTakeProfit trader positionId =>
      executeStopLossTakeProfit e trader positionId
  | Liquidate trader positionId => liquidate e trader positionId
  | PlaceOrder p sz long => placeOrder asEuint64 e p sz long ;; ret tt
  | UpdateOraclePrice p => updateOraclePrice asEuint64 e p
  end.

Definition step (tx : Env * Call) (s : State) : State :=
  transact (dispatch (fst tx) (snd tx)) s.

Definition execute (txs : list (Env * Call)) (s : State) : State :=
  fold_left (fun s tx => step tx s) txs s.

(** [tx] asks to end the position [(trader, positionId)]: a close by its
    owner, a bracket execution or a liquidation by anyone. *)
Definition endsPosition (trader : address) (positionId : bytes32) (tx : Env * Call) : bool :=
  match snd tx with
  | ClosePosition p => bool_decide (msg_sender (fst tx) = trader) && bool_decide (p = positionId)
  | ExecuteStopLossTakeProfit t p => bool_decide (t = trader) && bool_decide (p = positionId)
  | Liquidate t p => bool_decide (t = trader) && bool_decide (p = positionId)
  | _ => false
  end.

(** [tx] is an [openPosition] whose derived id is [positionId] again. *)
Definition reopensPosition (trader : address) (positionId : bytes32) (tx : Env * Call) : bool :=
  match snd tx with
  | OpenPosition sz _ _ _ _ =>
      bool_decide (msg_sender (fst tx) = trader)
      && bool_decide (keccak256 (msg_sender (fst tx), block_timestamp (fst tx), asEuint64 sz)
                      = positionId)
  | _ => false
  end.

(** How many transactions of a trace end the position successfully. *)
Fixpoint settlements (trader : address) (positionId : bytes32)
         (txs : list (Env * Call)) (s : State) : nat :=
  match txs with
  | [] => 0
  | tx :: rest =>
      ((if endsPosition trader positionId tx && succeeds (dispatch (fst tx) (snd tx) s)
        then 1 else 0)
       + settlements trader positionId rest (step tx s))%nat
  end.

End Traces.
End Ledger.

(** ** A concrete ledger run

    A fixed decoder and id function, three accounts, and the states reached
    by the scenarios of the specification.  All general statements below are
    proved for every decoder and id function; these instances only serve to
    evaluate them. *)

Module Demo.
Import ConfidentialPerpDEX.

Definition decode (data : bytes) : TFHE.euint64 :=
  TFHE.wrap (ConfidentialPerpDEXMock._mockDecrypt data).
Definition encode (v : Z) : bytes := ConfidentialPerpDEXMock.mockEncrypt v.

Definition idOf (x : address * Z * Z) : bytes32 :=
  let '(a, t, sz) := x in (a * 2 ^ 64 + t) * 2 ^ 64 + sz.

Definition deployer : address := 1.
Definition alice : address := 2.
Definition bob : address := 3.

Definition at_ (who : address) (time : Z) : Env :=
  {| msg_sender := who; block_timestamp := time |}.

(** Deployment, oracle price 100, Alice deposits 1000. *)
Definition funded : State :=
  transact (deposit decode (at_ alice 1002) (encode 1000))
    (transact (updateOraclePrice decode (at_ deployer 1001) (encode 100))
       (constructor (at_ deployer 1000))).

(** Scenario A: Alice opens a long position of size 10 at leverage 5. *)
Definition opened : State :=
  transact (openPosition decode idOf (at_ alice 1003) (encode 10) 5 true (encode 0) (encode 0))
    funded.

Definition alicePosition : bytes32 := idOf (alice, 1003, 10).

(** Scenario B: the oracle price moves to 120. *)
Definition repriced : State :=
  transact (updateOraclePrice decode (at_ deployer 1004) (encode 120)) opened.

(** The same run on the plaintext stand-in. *)
Definition mockFunded : ConfidentialPerpDEXMock.State :=
  transact (ConfidentialPerpDEXMock.deposit (at_ alice 1002) (encode 1000))
    (transact (ConfidentialPerpDEXMock.updateOraclePrice (at_ deployer 1001) (encode 100))
       (ConfidentialPerpDEXMock.constructor (at_ deployer 1000))).

Definition mockOpened : ConfidentialPerpDEXMock.State :=
  transact (ConfidentialPerpDEXMock.openPosition idOf (at_ alice 1003) (encode 10) 5 true)
    mockFunded.

Definition mockRepriced : ConfidentialPerpDEXMock.State :=
  transact (ConfidentialPerpDEXMock.updateOraclePrice (at_ deployer 1004) (encode 120)) mockOpened.

(** On the stand-in a position opened at leverage 25 is below the 5%
    threshold from the start: Bob can liquidate it. *)
Definition mockThin : ConfidentialPerpDEXMock.State :=
  transact (ConfidentialPerpDEXMock.openPosition idOf (at_ alice 1003) (encode 10) 25 false)
    mockFunded.

End Demo.

(** ** Further vocabulary: byte strings, the stand-in's matcher, book counts *)

Module MockSpec.
Import ConfidentialPerpDEXMock.

(** Every element of a byte string is an octet. *)
Definition octets (data : bytes) : Prop := Forall (fun b => 0 <= b < 256) data.

(** Quantities that fit the 64 bits of the confidential contract. *)
Definition fits64 (z : Z) : Prop := 0 <= z < 2 ^ 64.

(** The stand-in's price test between a new order and a resting one. *)
Definition canMatch (newOrder existingOrder : Order.t) : bool :=
  if Order.isLong newOrder
  then Order.price existingOrder <=? Order.price newOrder
  else Order.price newOrder <=? Order.price existingOrder.

(** A resting order the stand-in would fill against [newOrder]: opposite
    side, unfilled, and the prices cross. *)
Definition isMatch (newOrder o : Order.t) : bool :=
  negb (Bool.eqb (Order.isLong o) (Order.isLong newOrder))
  && negb (Order.isFilled o)
  && canMatch newOrder o.

Fixpoint firstMatch (newOrder : Order.t) (ob : list Order.t) (i : nat) : option nat :=
  match ob with
  | [] => None
  | o :: rest => if isMatch newOrder o then Some i else firstMatch newOrder rest (S i)
  end.

Definition matchedBook (ob : list Order.t) (newOrder : Order.t) : list Order.t :=
  match firstMatch newOrder ob 0 with
  | Some j => alter (Order.with_isFilled true) j ob ++ [Order.with_isFilled true newOrder]
  | None => ob ++ [newOrder]
  end.

Definition matchEvents (ob : list Order.t) (newOrder : Order.t) : list Event :=
  match firstMatch newOrder ob 0 with
  | Some j => [OrderMatched (Z.of_nat (length ob)) (Z.of_nat j)]
  | None => []
  end.

(** The stand-in's profit figure: a loss counts as zero. *)
Definition pnlFormula (oracle : Z) (pos : Position.t) : Z :=
  if Position.isLong pos
  then Z.max 0 (oracle - Position.entryPrice pos) * Position.size pos
  else Z.max 0 (Position.entryPrice pos - oracle) * Position.size pos.

(** The health test of [checkLiquidation], on integers. *)
Definition underwater (s : State) (pos : Position.t) : bool :=
  (Position.collateral pos + pnlFormula (oraclePrice s) pos) * 10000
  <? Position.size pos * oraclePrice s * liquidationThreshold s.

(** The stand-in's ledger after [caller] liquidated a position. *)
Definition liquidated (caller trader : address) (positionId : bytes32) (s : State) : State :=
  let pos := positionOf s trader positionId in
  set_events (fun l => l ++ [LiquidationTriggered trader positionId])
    (set_balances
       (fun m => <[caller := balanceOf
                               (set_positions
                                  (fun m => <[(trader, positionId) :=
                                                Position.with_isOpen false pos]> m) s) caller
                             + Position.collateral pos / 10]> m)
       (set_positions (fun m => <[(trader, positionId) := Position.with_isOpen false pos]> m) s)).

(** The stand-in's ledger after the sender opened a position. *)
Definition opened (e : Env) (positionId : bytes32) (size leverage : Z) (isLong : bool)
           (s : State) : State :=
  let requiredCollateral := size * oraclePrice s / leverage in
  set_events (fun l => l ++ [PositionOpened (msg_sender e) positionId isLong])
    (set_userPositionIds
       (fun m => <[msg_sender e := default [] (m !! msg_sender e) ++ [positionId]]> m)
       (set_positions
          (fun m => <[(msg_sender e, positionId) :=
                        Position.mk size (oraclePrice s) requiredCollateral leverage isLong
                          (block_timestamp e) true]> m)
          (set_balances
             (fun m => <[msg_sender e := balanceOf s (msg_sender e) - requiredCollateral]> m)
             s))).

(** The stand-in's ledger after the owner closed a position and was
    credited [amount]. *)
Definition creditedAndClosed (trader : address) (positionId : bytes32) (amount : Z)
           (s : State) : State :=
  set_events (fun l => l ++ [PositionClosed trader positionId])
    (set_positions (fun m => <[(trader, positionId) :=
                                 Position.with_isOpen false (positionOf s trader positionId)]> m)
       (set_balances (fun m => <[trader := balanceOf s trader + amount]> m) s)).

End MockSpec.

Module BookSpec.
Import ConfidentialPerpDEX.

(** How many orders of one side are marked filled. *)
Fixpoint filledOn (side : bool) (ob : list EncryptedOrder.t) : nat :=
  match ob with
  | [] => 0
  | o :: rest =>
      ((if Bool.eqb (EncryptedOrder.isLong o) side && EncryptedOrder.isFilled o then 1 else 0)
       + filledOn side rest)%nat
  end.

(** An order is the same order, possibly filled in the meantime. *)
Definition sameOrderLater (o o' : EncryptedOrder.t) : Prop :=
  EncryptedOrder.price o' = EncryptedOrder.price o
  /\ EncryptedOrder.size o' = EncryptedOrder.size o
  /\ EncryptedOrder.trader o' = EncryptedOrder.trader o
  /\ EncryptedOrder.isLong o' = EncryptedOrder.isLong o
  /\ EncryptedOrder.timestamp o' = EncryptedOrder.timestamp o
  /\ (EncryptedOrder.isFilled o = true -> EncryptedOrder.isFilled o' = true).

(** [ob'] continues [ob]: nothing removed or reordered, nothing reopened. *)
Definition continuesBook (ob ob' : list EncryptedOrder.t) : Prop :=
  (length ob <= length ob')%nat
  /\ forall i o, ob !! i = Some o -> exists o', ob' !! i = Some o' /\ sameOrderLater o o'.

Definition isPlaceOrder (tx : Env * Ledger.Call) : bool :=
  match snd tx with Ledger.PlaceOrder _ _ _ => true | _ => false end.

(** The fields of a position that are fixed when it is opened. *)
Definition sameTerms (p p' : EncryptedPosition.t) : Prop :=
  EncryptedPosition.size p' = EncryptedPosition.size p
  /\ EncryptedPosition.entryPrice p' = EncryptedPosition.entryPrice p
  /\ EncryptedPosition.collateral p' = EncryptedPosition.collateral p
  /\ EncryptedPosition.leverage p' = EncryptedPosition.leverage p
  /\ EncryptedPosition.isLong p' = EncryptedPosition.isLong p
  /\ EncryptedPosition.timestamp p' = EncryptedPosition.timestamp p.

(** [tx] is a bracket update by [trader] on [positionId]. *)
Definition updatesBrackets (trader : address) (positionId : bytes32) (tx : Env * Ledger.Call)
  : bool :=
  match snd tx with
  | Ledger.UpdateStopLossTakeProfit p _ _ =>
      bool_decide (msg_sender (fst tx) = trader) && bool_decide (p = positionId)
  | _ => false
  end.

(** [tx] can move the balance of [a]: it is sent by [a], or it is a bracket
    execution on one of [a]'s positions. *)
Definition concernsBalance (a : address) (tx : Env * Ledger.Call) : bool :=
  bool_decide (msg_sender (fst tx) = a)
  || match snd tx with
     | Ledger.ExecuteStopLossTakeProfit t _ => bool_decide (t = a)
     | _ => false
     end.

(** [tx] is an oracle update sent by [who]. *)
Definition setsPriceAs (who : address) (tx : Env * Ledger.Call) : bool :=
  match snd tx with
  | Ledger.UpdateOraclePrice _ => bool_decide (msg_sender (fst tx) = who)
  | _ => false
  end.

End BookSpec.

Module StepSpec.
Import ConfidentialPerpDEX LedgerSpec Ledger.

Section Stepped.
Variable asEuint64 : bytes -> TFHE.euint64.
Variable keccak256 : address * Z * TFHE.euint64 -> bytes32.

(** The state after one transaction, as an explicit term in each case. *)
Inductive Stepped (e : Env) (s : State) : Call -> State -> Prop :=
| stepped_deposit a :
    Stepped e s (Deposit a)
      (set_events (fun l => l ++ [BalanceDeposited (msg_sender e) 0])
         (set_encryptedBalances
            (fun m => <[msg_sender e :=
                          match encryptedBalances s !! msg_sender e with
                          | Some currentBalance => TFHE.add currentBalance (asEuint64 a)
                          | None => asEuint64 a
                          end]> m) s))
| stepped_open sz lev long sl tp :
    lev <> 0 ->
    Stepped e s (OpenPosition sz lev long sl tp)
      (set_events (fun l => l ++ [PositionOpened (msg_sender e)
                                    (keccak256 (msg_sender e, block_timestamp e, asEuint64 sz))
                                    long])
         (set_userPositionIds
            (fun m => <[msg_sender e :=
                          default [] (m !! msg_sender e)
                          ++ [keccak256 (msg_sender e, block_timestamp e, asEuint64 sz)]]> m)
            (set_positions
               (fun m => <[(msg_sender e,
                            keccak256 (msg_sender e, block_timestamp e, asEuint64 sz)) :=
                    EncryptedPosition.mk (asEuint64 sz) (encryptedOraclePrice s)
                      (TFHE.mul (asEuint64 sz) (encryptedOraclePrice s) / lev)
                      lev long (block_timestamp e) true (asEuint64 sl) (asEuint64 tp)]> m)
               (set_encryptedBalances
                  (fun m => <[msg_sender e :=
                       TFHE.sub (balanceOf s (msg_sender e))
                         (TFHE.mul (asEuint64 sz) (encryptedOraclePrice s) / lev)]> m) s))))
| stepped_close p :
    EncryptedPosition.isOpen (positionOf s (msg_sender e) p) = true ->
    Stepped e s (ClosePosition p)
      (creditedAndClosed (msg_sender e) p
         (TFHE.add (EncryptedPosition.collateral (positionOf s (msg_sender e) p))
            (TFHE.wrap (pnlFormula (encryptedOraclePrice s) (positionOf s (msg_sender e) p))))
         (PositionClosed (msg_sender e) p) s)
| stepped_update p sl tp :
    EncryptedPosition.isOpen (positionOf s (msg_sender e) p) = true ->
    Stepped e s (UpdateStopLossTakeProfit p sl tp)
      (set_events (fun l => l ++ [StopLossTakeProfitUpdated (msg_sender e) p])
         (set_positions (fun m => <[(msg_sender e, p) :=
              EncryptedPosition.with_brackets (asEuint64 sl) (asEuint64 tp)
                (positionOf s (msg_sender e) p)]> m) s))
| stepped_execute t p :
    EncryptedPosition.isOpen (positionOf s t p) = true ->
    Stepped e s (ExecuteStopLossTakeProfit t p)
      (creditedAndClosed t p
         (TFHE.add (EncryptedPosition.collateral (positionOf s t p))
            (TFHE.wrap (pnlFormula (encryptedOraclePrice s) (positionOf s t p))))
         (PositionClosed t p) s)
| stepped_liquidate t p :
    EncryptedPosition.isOpen (positionOf s t p) = true ->
    Stepped e s (Liquidate t p) (liquidated (msg_sender e) t p s)
| stepped_place pr sz long :
    Stepped e s (PlaceOrder pr sz long)
      (set_events
         (fun l => l ++ [OrderPlaced (msg_sender e) (Z.of_nat (length (orderBook s))) long]
                     ++ matchEvents (orderBook s)
                          (EncryptedOrder.mk (asEuint64 pr) (asEuint64 sz) (msg_sender e)
                             long false (block_timestamp e)))
         (set_orderBook
            (fun _ => matchedBook (orderBook s)
                        (EncryptedOrder.mk (asEuint64 pr) (asEuint64 sz) (msg_sender e)
                           long false (block_timestamp e))) s))
| stepped_price pr :
    msg_sender e = admin s ->
    Stepped e s (UpdateOraclePrice pr)
      (set_events (fun l => l ++ [PriceUpdated (block_timestamp e)])
         (set_encryptedOraclePrice (asEuint64 pr) s))
| stepped_reverted c : Stepped e s c s.

End Stepped.
End StepSpec.

(** ** The off-chain bots' bookkeeping *)

Module Bots.

(** The payload the SDK hands to an event callback. *)
Record EventData := { trader : string; positionId : string; isLong : bool }.

Module LiquidationBot.
Record Monitored := mk {
  trader : string;
  positionId : string;
  isLong : bool;
  timestamp : Z }.

(** [monitoredPositions] is a JavaScript [Set] of object literals: every
    [add] inserts a new object, and iteration follows insertion order. *)
Fixpoint removePosition (positionId : string) (monitoredPositions : list Monitored)
  : list Monitored :=
  match monitoredPositions with
  | [] => []
  | pos :: rest =>
      if String.eqb (LiquidationBot.positionId pos) positionId
      then rest
      else pos :: removePosition positionId rest
  end.

(** How many monitored entries carry [positionId]. *)
Fixpoint monitoring (positionId : string) (monitoredPositions : list Monitored) : nat :=
  match monitoredPositions with
  | [] => 0
  | pos :: rest =>
      ((if String.eqb (LiquidationBot.positionId pos) positionId then 1 else 0)
       + monitoring positionId rest)%nat
  end.

(** [now] is the value of [Date.now()] at the call. *)
Definition handleEvent (now : Z) (eventName : string) (data : EventData)
           (monitoredPositions : list Monitored) : list Monitored :=
  if String.eqb eventName "PositionOpened" then
    monitoredPositions
      ++ [mk (Bots.trader data) (Bots.positionId data) (Bots.isLong data) now]
  else if String.eqb eventName "PositionClosed" then
    removePosition (Bots.positionId data) monitoredPositions
  else if String.eqb eventName "LiquidationTriggered" then
    removePosition (Bots.positionId data) monitoredPositions
  else monitoredPositions.
End LiquidationBot.

Module TradingBot.
Record Tracked := mk { trader : string; isLong : bool; timestamp : Z }.

(** [this.positions] is a JavaScript [Map] keyed by position id. *)
Definition handleEvent (now : Z) (eventName : string) (data : EventData)
           (positions : gmap string Tracked) : gmap string Tracked :=
  if String.eqb eventName "PositionOpened" then
    <[Bots.positionId data := mk (Bots.trader data) (Bots.isLong data) now]> positions
  else if String.eqb eventName "PositionClosed" then
    delete (Bots.positionId data) positions
  else if String.eqb eventName "LiquidationTriggered" then
    delete (Bots.positionId data) positions
  else positions.

(** The bot's map after a sequence of events, each with its arrival time. *)
Definition replay (evs : list (Z * string * EventData)) (positions : gmap string Tracked)
  : gmap string Tracked :=
  fold_left (fun m ev => handleEvent (ev.1.1) (ev.1.2) (ev.2) m) evs positions.

(** What the last event about [positionId] in [evs] says: opened
    ([Some true]), closed or liquidated ([Some false]), or no such event. *)
Fixpoint lastWord (positionId : string) (evs : list (Z * string * EventData))
         (sofar : option bool) : option bool :=
  match evs with
  | [] => sofar
  | ev :: rest =>
      let name := ev.1.2 in
      let about := String.eqb (Bots.positionId ev.2) positionId in
      lastWord positionId rest
        (if about && String.eqb name "PositionOpened" then Some true
         else if about && (String.eqb name "PositionClosed"
                           || String.eqb name "LiquidationTriggered") then Some false
         else sofar)
  end.

(** The map agrees with a last word about [positionId]. *)
Definition agrees (word : option bool) (positions : gmap string Tracked)
           (positionId : string) : Prop :=
  match word with
  | Some true => is_Some (positions !! positionId)
  | Some false => positions !! positionId = None
  | None => True
  end.
End TradingBot.

End Bots.

(** ** Internal calls

    The liquidation path of both contracts once more, with every call from
    one contract function to another recorded at the call site, in the order
    in which the calls are made.  A function that calls no other function is
    taken over as it is. *)

Module CallLog.

Inductive Internal := CalculatePnL | CheckLiquidation.

Definition Logged (St : Type) : Type := (St * list Internal)%type.

Definition lift {St A} (m : M St A) : M (Logged St) A :=
  fun sl => match m (fst sl) with
            | Done a s' => Done a (s', snd sl)
            | Reverted reason s' => Reverted reason (s', snd sl)
            end.

Definition call {St A} (f : Internal) (m : M (Logged St) A) : M (Logged St) A :=
  modify (fun sl => (fst sl, snd sl ++ [f])) ;; m.

(** The outcome without the record of calls. *)
Definition erase {St A} (o : outcome (Logged St) A) : outcome St A :=
  match o with
  | Done a sl => Done a (fst sl)
  | Reverted reason sl => Reverted reason (fst sl)
  end.

Definition logOf {St A} (o : outcome (Logged St) A) : list Internal :=
  match o with
  | Done _ sl => snd sl
  | Reverted _ sl => snd sl
  end.

(** The calls made during a run from [s], whether it returns or reverts. *)
Definition internalCalls {St A} (m : M (Logged St) A) (s : St) : list Internal :=
  logOf (m (s, [])).

(** [m'] is [m] with its calls recorded. *)
Definition erases {St A} (m' : M (Logged St) A) (m : M St A) : Prop :=
  forall s l, erase (m' (s, l)) = m s.

(** [m'] records no call. *)
Definition silent {St A} (m' : M (Logged St) A) : Prop :=
  forall sl, logOf (m' sl) = snd sl.

(** [m'] only adds to the record. *)
Definition extends {St A} (m' : M (Logged St) A) : Prop :=
  forall sl, exists rest, logOf (m' sl) = snd sl ++ rest.

End CallLog.

Module ConfidentialPerpDEXLogged.
Import ConfidentialPerpDEX CallLog.

(** [calculatePnL] calls no other function of the contract. *)
Definition calculatePnL (trader : address) (positionId : bytes32)
  : M (Logged State) TFHE.euint64 :=
  lift (ConfidentialPerpDEX.calculatePnL trader positionId).

Definition checkLiquidation (trader : address) (positionId : bytes32)
  : M (Logged State) TFHE.ebool :=
  let* pos := lift (readPosition trader positionId) in
  lift (require (EncryptedPosition.isOpen pos) "Position not open") ;;
  let* s := lift get in
  let positionValue := TFHE.mul (EncryptedPosition.size pos) (encryptedOraclePrice s) in
  let* pnl := call CalculatePnL (calculatePnL trader positionId) in
  let netValue := TFHE.add (EncryptedPosition.collateral pos) pnl in
  let netValueScaled := TFHE.mul netValue (TFHE.asEuint64 10000) in
  let thresholdValue := TFHE.mul positionValue (liquidationThreshold s) in
  ret (TFHE.lt netValueScaled thresholdValue).

Definition liquidate (e : Env) (trader : address) (positionId : bytes32)
  : M (Logged State) unit :=
  let* pos := lift (readPosition trader positionId) in
  lift (require (EncryptedPosition.isOpen pos) "Position not open") ;;
  lift (writePosition trader positionId (EncryptedPosition.with_isOpen false pos)) ;;
  let* pos := lift (readPosition trader positionId) in
  let* liquidationReward := TFHE.div (EncryptedPosition.collateral pos) 10 in
  let* bal := lift (readBalance (msg_sender e)) in
  lift (writeBalance (msg_sender e) (TFHE.add bal liquidationReward)) ;;
  lift (emit (LiquidationTriggered trader positionId)).

End ConfidentialPerpDEXLogged.

Module ConfidentialPerpDEXMockLogged.
Import ConfidentialPerpDEXMock CallLog.

(** [calculatePnL] calls no other function of the contract. *)
Definition calculatePnL (trader : address) (positionId : bytes32) : M (Logged State) Z :=
  lift (ConfidentialPerpDEXMock.calculatePnL trader positionId).

Definition checkLiquidation (trader : address) (positionId : bytes32)
  : M (Logged State) bool :=
  let* pos := lift (readPosition trader positionId) in
  lift (require (Position.isOpen pos) "Position not open") ;;
  let* s := lift get in
  let* positionValue := Uint256.mul (Position.size pos) (oraclePrice s) in
  let* pnl := call CalculatePnL (calculatePnL trader positionId) in
  let* netValue := Uint256.add (Position.collateral pos) pnl in
  let* netValueScaled := Uint256.mul netValue 10000 in
  let* thresholdValue := Uint256.mul positionValue (liquidationThreshold s) in
  ret (netValueScaled <? thresholdValue).

Definition liquidate (e : Env) (trader : address) (positionId : bytes32)
  : M (Logged State) unit :=
  let* pos := lift (readPosition trader positionId) in
  lift (require (Position.isOpen pos) "Position not open") ;;
  let* isLiquidatable := call CheckLiquidation (checkLiquidation trader positionId) in
  lift (require isLiquidatable "Position not liquidatable") ;;
  lift (writePosition trader positionId (Position.with_isOpen false pos)) ;;
  let* pos := lift (readPosition trader positionId) in
  let* liquidationReward := Uint256.div (Position.collateral pos) 10 in
  let* bal := lift (readBalance (msg_sender e)) in
  let* bal' := Uint256.add bal liquidationReward in
  lift (writeBalance (msg_sender e) bal') ;;
  lift (emit (LiquidationTriggered trader positionId)).

End ConfidentialPerpDEXMockLogged.

(** ** Two further sentences of the specification, as it words them *)

Module ClaimSpec.
Import ConfidentialPerpDEX LedgerSpec Ledger CallLog.

(** "attemptLiquidate: computes checkLiquidatable, closes the position, and
    pays the caller a fixed fraction of collateral as a reward", on the
    confidential contract. *)
Definition liquidatesAsSpecified (e : Env) (trader : address) (positionId : bytes32)
           (s : State) : Prop :=
  CheckLiquidation ∈ internalCalls (ConfidentialPerpDEXLogged.liquidate e trader positionId) s
  /\ exists s',
       liquidate e trader positionId s = Done tt s'
       /\ EncryptedPosition.isOpen (positionOf s' trader positionId) = false
       /\ balanceOf s' (msg_sender e)
          = TFHE.add (balanceOf s (msg_sender e))
              (EncryptedPosition.collateral (positionOf s trader positionId) / 10).

(** The same sentence on the plaintext stand-in. *)
Definition mockLiquidatesAsSpecified (e : Env) (trader : address) (positionId : bytes32)
           (s : ConfidentialPerpDEXMock.State) : Prop :=
  CheckLiquidation
    ∈ internalCalls (ConfidentialPerpDEXMockLogged.liquidate e trader positionId) s
  /\ exists s',
       ConfidentialPerpDEXMock.liquidate e trader positionId s = Done tt s'
       /\ ConfidentialPerpDEXMock.Position.isOpen
            (ConfidentialPerpDEXMock.positionOf s' trader positionId) = false
       /\ ConfidentialPerpDEXMock.balanceOf s' (msg_sender e)
          = ConfidentialPerpDEXMock.balanceOf s (msg_sender e)
            + ConfidentialPerpDEXMock.Position.collateral
                (ConfidentialPerpDEXMock.positionOf s trader positionId) / 10.

Section Terminality.
Variable asEuint64 : bytes -> TFHE.euint64.
Variable keccak256 : address * Z * TFHE.euint64 -> bytes32.

(** "once isOpen=false, no further closePosition, attemptLiquidate, or
    attemptExecuteBrackets call on the same id succeeds": whatever
    transactions come in between. *)
Definition terminalFrom (s : State) (trader : address) (positionId : bytes32) : Prop :=
  forall (txs : list (Env * Call)) (tx : Env * Call),
    endsPosition trader positionId tx = true ->
    succeeds (dispatch asEuint64 keccak256 (fst tx) (snd tx)
                (execute asEuint64 keccak256 txs s)) = false.
End Terminality.

End ClaimSpec.

(** A position that is closed and opened again within one block. *)
Module DemoReopen.
Import ConfidentialPerpDEX Ledger.

Definition closed : State :=
  transact (closePosition (Demo.at_ Demo.alice 1003) Demo.alicePosition) Demo.opened.

Definition reopen : Env * Call :=
  (Demo.at_ Demo.alice 1003,
   OpenPosition (Demo.encode 10) 5 true (Demo.encode 0) (Demo.encode 0)).

End DemoReopen.

(** ** Ciphertext validation *)

(** Modelled from the spec: decoding a ciphertext is done by the external
    library.  "The core treats decoding as a capability call that can fail
    with MalformedCiphertext", and such an error "aborts the operation with
    no state mutation".  [verify data] is [None] when the library accepts
    [data] and the reason it gives when it refuses it; [asEuint64] is the
    value of an accepted input.  The checks stand where the source calls
    [TFHE.asEuint64(bytes)]: first in [deposit], [openPosition] and
    [placeOrder], after the [isOpen] requirement in
    [updateStopLossTakeProfit], after the [onlyAdmin] modifier in
    [updateOraclePrice]. *)
Module Ciphertext.
Import ConfidentialPerpDEX Ledger BookSpec.

Section Submit.
Variable verify : bytes -> option string.
Variable asEuint64 : bytes -> TFHE.euint64.
Variable keccak256 : address * Z * TFHE.euint64 -> bytes32.

Definition decode (data : bytes) : M State unit :=
  match verify data with
  | None => ret tt
  | Some reason => revert reason
  end.

Definition deposit (e : Env) (encryptedAmount : bytes) : M State unit :=
  decode encryptedAmount ;;
  ConfidentialPerpDEX.deposit asEuint64 e encryptedAmount.

Definition openPosition (e : Env) (encSize : bytes) (leverage : Z) (isLong : bool)
           (encStopLoss encTakeProfit : bytes) : M State bytes32 :=
  decode encSize ;; decode encStopLoss ;; decode encTakeProfit ;;
  ConfidentialPerpDEX.openPosition asEuint64 keccak256 e encSize leverage isLong
    encStopLoss encTakeProfit.

Definition updateStopLossTakeProfit (e : Env) (positionId : bytes32)
           (encStopLoss encTakeProfit : bytes) : M State unit :=
  let* pos := readPosition (msg_sender e) positionId in
  require (EncryptedPosition.isOpen pos) "Position not open" ;;
  decode encStopLoss ;; decode encTakeProfit ;;
  ConfidentialPerpDEX.updateStopLossTakeProfit asEuint64 e positionId
    encStopLoss encTakeProfit.

Definition placeOrder (e : Env) (encPrice encSize : bytes) (isLong : bool) : M State nat :=
  decode encPrice ;; decode encSize ;;
  ConfidentialPerpDEX.placeOrder asEuint64 e encPrice encSize isLong.

Definition updateOraclePrice (e : Env) (encNewPrice : bytes) : M State unit :=
  onlyAdmin e ;; decode encNewPrice ;;
  ConfidentialPerpDEX.updateOraclePrice asEuint64 e encNewPrice.

(** A transaction as the contract receives it. *)
Definition submit (e : Env) (c : Call) : M State unit :=
  match c with
  | Deposit a => deposit e a
  | OpenPosition sz lev long sl tp => openPosition e sz lev long sl tp ;; ret tt
  | UpdateStopLossTakeProfit positionId sl tp => updateStopLossTakeProfit e positionId sl tp
  | PlaceOrder p sz long => placeOrder e p sz long ;; ret tt
  | UpdateOraclePrice p => updateOraclePrice e p
  | ClosePosition _ | ExecuteStopLossTakeProfit _ _ | Liquidate _ _ =>
      dispatch asEuint64 keccak256 e c
  end.

Definition stepChecked (tx : Env * Call) (s : State) : State :=
  transact (submit (fst tx) (snd tx)) s.

Definition executeChecked (txs : list (Env * Call)) (s : State) : State :=
  fold_left (fun s tx => stepChecked tx s) txs s.

(** The ciphertexts a call carries. *)
Definition inputs (c : Call) : list bytes :=
  match c with
  | Deposit a => [a]
  | OpenPosition sz _ _ sl tp => [sz; sl; tp]
  | UpdateStopLossTakeProfit _ sl tp => [sl; tp]
  | PlaceOrder p sz _ => [p; sz]
  | UpdateOraclePrice p => [p]
  | ClosePosition _ | ExecuteStopLossTakeProfit _ _ | Liquidate _ _ => []
  end.

Definition accepted (c : Call) : bool :=
  forallb (fun data => match verify data with None => true | Some _ => false end)
          (inputs c).

(** [tx] is a [placeOrder] whose two ciphertexts the library accepts. *)
Definition placesOrder (tx : Env * Call) : bool :=
  isPlaceOrder tx && accepted (snd tx).

End Submit.

(** A validator for the concrete runs: 32-byte inputs are accepted. *)
Definition wordsOnly (data : bytes) : option string :=
  if (length data =? 32)%nat then None else Some "invalid ciphertext".

End Ciphertext.

(** * Properties *)

(** ** Arithmetic of the wrapped 64-bit values *)

Module TFHEFacts.

Lemma modulus_pos : 0 < TFHE.modulus.
Proof. reflexivity. Qed.

Lemma wrap_range z : 0 <= TFHE.wrap z < TFHE.modulus.
Proof. apply Z.mod_pos_bound, modulus_pos. Qed.

Lemma wrap_small z : 0 <= z < TFHE.modulus -> TFHE.wrap z = z.
Proof. apply Z.mod_small. Qed.

Lemma mul_sub_wrap a b c : TFHE.mul (TFHE.sub a b) c = TFHE.wrap ((a - b) * c).
Proof. unfold TFHE.mul, TFHE.sub, TFHE.wrap. now rewrite Z.mul_mod_idemp_l. Qed.

Lemma add_wrap_r a b : TFHE.add a (TFHE.wrap b) = TFHE.wrap (a + b).
Proof. unfold TFHE.add, TFHE.wrap. now rewrite Z.add_mod_idemp_r. Qed.

Lemma div_ok {St} a b (s : St) : b <> 0 -> TFHE.div a b s = Done (a / b) s.
Proof. intros Hb. unfold TFHE.div. now destruct (Z.eqb_spec b 0). Qed.

End TFHEFacts.

(** ** ConfidentialPerpDEX: what each entry point does *)

Module ConfidentialPerpDEXFacts.
Import ConfidentialPerpDEX LedgerSpec.

Ltac unfold_monad :=
  unfold bind, ret, get, modify, require, revert, readBalance, readPosition,
    writeBalance, writePosition, emit.
Ltac run := repeat (progress (unfold_monad; simpl)).

Section Facts.
Variable asEuint64 : bytes -> TFHE.euint64.
Variable keccak256 : address * Z * TFHE.euint64 -> bytes32.

Lemma positionOf_written s trader positionId p :
  positionOf (set_positions (fun m => <[(trader, positionId) := p]> m) s) trader positionId = p.
Proof. unfold positionOf. simpl. now rewrite lookup_insert_eq. Qed.

Lemma positionOf_written_other s trader positionId p trader' positionId' :
  (trader', positionId') <> (trader, positionId) ->
  positionOf (set_positions (fun m => <[(trader', positionId') := p]> m) s) trader positionId
  = positionOf s trader positionId.
Proof. intros Hne. unfold positionOf. simpl. now rewrite lookup_insert_ne. Qed.

Lemma balanceOf_written s a v :
  balanceOf (set_encryptedBalances (fun m => <[a := v]> m) s) a = v.
Proof. unfold balanceOf. simpl. now rewrite lookup_insert_eq. Qed.

Lemma balanceOf_written_other s a b v :
  a <> b -> balanceOf (set_encryptedBalances (fun m => <[a := v]> m) s) b = balanceOf s b.
Proof. intros Hne. unfold balanceOf. simpl. now rewrite lookup_insert_ne. Qed.

Lemma balanceOf_set_positions s f a : balanceOf (set_positions f s) a = balanceOf s a.
Proof. reflexivity. Qed.

Lemma calculatePnL_open s trader positionId :
  EncryptedPosition.isOpen (positionOf s trader positionId) = true ->
  calculatePnL trader positionId s =
    Done (TFHE.wrap (pnlFormula (encryptedOraclePrice s) (positionOf s trader positionId))) s.
Proof.
  intros Hopen. unfold calculatePnL, pnlFormula. run. rewrite Hopen.
  destruct (EncryptedPosition.isLong _); run; now rewrite TFHEFacts.mul_sub_wrap.
Qed.

Lemma calculatePnL_closed s trader positionId :
  EncryptedPosition.isOpen (positionOf s trader positionId) = false ->
  calculatePnL trader positionId s = Reverted "Position not open" s.
Proof. intros Hc. unfold calculatePnL. run. now rewrite Hc. Qed.

Lemma calculatePnL_view s trader positionId :
  finalState (calculatePnL trader positionId s) = s.
Proof.
  destruct (EncryptedPosition.isOpen (positionOf s trader positionId)) eqn:H.
  - now rewrite calculatePnL_open.
  - now rewrite calculatePnL_closed.
Qed.

Lemma closePosition_open e positionId s :
  let owner := msg_sender e in
  let pos := positionOf s owner positionId in
  EncryptedPosition.isOpen pos = true ->
  closePosition e positionId s =
    Done tt (creditedAndClosed owner positionId
               (TFHE.add (EncryptedPosition.collateral pos)
                         (TFHE.wrap (pnlFormula (encryptedOraclePrice s) pos)))
               (PositionClosed owner positionId) s).
Proof.
  intros owner pos Hopen. unfold closePosition.
  unfold bind at 1. unfold readPosition at 1. fold owner. fold pos.
  rewrite Hopen. unfold bind at 1. unfold require at 1, ret at 1.
  unfold bind at 1. rewrite (calculatePnL_open s owner positionId Hopen).
  reflexivity.
Qed.

Lemma closePosition_closed e positionId s :
  EncryptedPosition.isOpen (positionOf s (msg_sender e) positionId) = false ->
  closePosition e positionId s = Reverted "Position not open" s.
Proof. intros Hc. unfold closePosition. run. now rewrite Hc. Qed.

Lemma executeStopLossTakeProfit_open e trader positionId s :
  let pos := positionOf s trader positionId in
  EncryptedPosition.isOpen pos = true ->
  executeStopLossTakeProfit e trader positionId s =
    Done tt (creditedAndClosed trader positionId
               (TFHE.add (EncryptedPosition.collateral pos)
                         (TFHE.wrap (pnlFormula (encryptedOraclePrice s) pos)))
               (PositionClosed trader positionId) s).
Proof.
  intros pos Hopen. unfold executeStopLossTakeProfit.
  unfold bind at 1. unfold readPosition at 1. fold pos.
  rewrite Hopen. unfold bind at 1. unfold require at 1, ret at 1.
  unfold bind at 1. unfold checkStopLossTakeProfit.
  unfold bind at 1. unfold readPosition at 1. fold pos. rewrite Hopen.
  unfold bind at 1. unfold require at 1, ret at 1.
  unfold bind at 1. unfold get at 1. unfold ret at 1.
  unfold bind at 1. rewrite (calculatePnL_open s trader positionId Hopen).
  reflexivity.
Qed.

Lemma executeStopLossTakeProfit_closed e trader positionId s :
  EncryptedPosition.isOpen (positionOf s trader positionId) = false ->
  executeStopLossTakeProfit e trader positionId s = Reverted "Position not open" s.
Proof. intros Hc. unfold executeStopLossTakeProfit. run. now rewrite Hc. Qed.

Lemma liquidate_open e trader positionId s :
  EncryptedPosition.isOpen (positionOf s trader positionId) = true ->
  liquidate e trader positionId s = Done tt (liquidated (msg_sender e) trader positionId s).
Proof.
  intros Hopen. unfold liquidate, liquidated. run. rewrite Hopen. run.
  now rewrite positionOf_written, balanceOf_set_positions.
Qed.

Lemma liquidate_closed e trader positionId s :
  EncryptedPosition.isOpen (positionOf s trader positionId) = false ->
  liquidate e trader positionId s = Reverted "Position not open" s.
Proof. intros Hc. unfold liquidate. run. now rewrite Hc. Qed.

Lemma checkLiquidation_open s trader positionId :
  EncryptedPosition.isOpen (positionOf s trader positionId) = true ->
  exists b, checkLiquidation trader positionId s = Done b s.
Proof.
  intros Hopen. unfold checkLiquidation.
  unfold bind at 1. unfold readPosition at 1. rewrite Hopen.
  unfold bind at 1. unfold require at 1, ret at 1.
  unfold bind at 1. unfold get at 1.
  unfold bind at 1. rewrite (calculatePnL_open s trader positionId Hopen).
  eexists. reflexivity.
Qed.

Lemma checkStopLossTakeProfit_open s trader positionId :
  EncryptedPosition.isOpen (positionOf s trader positionId) = true ->
  exists sl tp, checkStopLossTakeProfit trader positionId s = Done (sl, tp) s.
Proof.
  intros Hopen. unfold checkStopLossTakeProfit. run. rewrite Hopen. run.
  eexists _, _. reflexivity.
Qed.

Lemma updateStopLossTakeProfit_open e positionId encStopLoss encTakeProfit s :
  let owner := msg_sender e in
  let pos := positionOf s owner positionId in
  EncryptedPosition.isOpen pos = true ->
  updateStopLossTakeProfit asEuint64 e positionId encStopLoss encTakeProfit s =
    Done tt (set_events (fun l => l ++ [StopLossTakeProfitUpdated owner positionId])
               (set_positions (fun m => <[(owner, positionId) :=
                    EncryptedPosition.with_brackets (asEuint64 encStopLoss)
                                                    (asEuint64 encTakeProfit) pos]> m) s)).
Proof. intros owner pos Hopen. unfold updateStopLossTakeProfit. run. fold owner. fold pos. now rewrite Hopen. Qed.

Lemma updateStopLossTakeProfit_closed e positionId encStopLoss encTakeProfit s :
  EncryptedPosition.isOpen (positionOf s (msg_sender e) positionId) = false ->
  updateStopLossTakeProfit asEuint64 e positionId encStopLoss encTakeProfit s =
    Reverted "Position not open" s.
Proof. intros Hc. unfold updateStopLossTakeProfit. run. now rewrite Hc. Qed.

Lemma openPosition_ok e encSize leverage isLong encStopLoss encTakeProfit s :
  leverage <> 0 ->
  let size := asEuint64 encSize in
  let requiredCollateral := TFHE.mul size (encryptedOraclePrice s) / leverage in
  let positionId := keccak256 (msg_sender e, block_timestamp e, size) in
  openPosition asEuint64 keccak256 e encSize leverage isLong encStopLoss encTakeProfit s =
    Done positionId
      (set_events (fun l => l ++ [PositionOpened (msg_sender e) positionId isLong])
         (set_userPositionIds
            (fun m => <[msg_sender e := default [] (m !! msg_sender e) ++ [positionId]]> m)
            (set_positions
               (fun m => <[(msg_sender e, positionId) :=
                    EncryptedPosition.mk size (encryptedOraclePrice s) requiredCollateral
                      leverage isLong (block_timestamp e) true
                      (asEuint64 encStopLoss) (asEuint64 encTakeProfit)]> m)
               (set_encryptedBalances
                  (fun m => <[msg_sender e :=
                       TFHE.sub (balanceOf s (msg_sender e)) requiredCollateral]> m) s)))).
Proof.
  intros Hl size rc pid. unfold openPosition. run.
  unfold TFHE.div. destruct (Z.eqb_spec leverage 0) as [->|_]; [easy|]. now run.
Qed.

End Facts.
End ConfidentialPerpDEXFacts.

(** ** ConfidentialPerpDEX: the matching pass *)

Module MatchingFacts.
Import ConfidentialPerpDEX LedgerSpec ConfidentialPerpDEXFacts.

Lemma alter_as_insert {A} (f : A -> A) (l : list A) j x :
  l !! j = Some x -> alter f j l = <[j := f x]> l.
Proof.
  revert j. induction l as [|y l IH]; intros [|j] H; simpl in *; try discriminate.
  - now inversion H.
  - f_equal. now apply IH.
Qed.

Lemma firstCounterpart_bounds isLong post i j :
  firstCounterpart isLong post i = Some j -> (i <= j < i + length post)%nat.
Proof.
  revert i. induction post as [|o post IH]; intros i H; simpl in *; [discriminate|].
  destruct (isCounterpart isLong o).
  - inversion H. lia.
  - apply IH in H. lia.
Qed.

Lemma firstCounterpart_found isLong post i j :
  firstCounterpart isLong post i = Some j ->
  exists o, post !! (j - i)%nat = Some o /\ isCounterpart isLong o = true /\
    forall k o', (k < j - i)%nat -> post !! k = Some o' -> isCounterpart isLong o' = false.
Proof.
  revert i. induction post as [|o post IH]; intros i H; simpl in *; [discriminate|].
  destruct (isCounterpart isLong o) eqn:Hc.
  - inversion H; subst. rewrite Nat.sub_diag. exists o. repeat split; auto. intros; lia.
  - pose proof (firstCounterpart_bounds _ _ _ _ H) as Hb.
    destruct (IH _ H) as (o' & Hl & Hc' & Hbefore).
    replace (j - i)%nat with (S (j - S i)) by lia.
    exists o'. repeat split; auto.
    intros [|k] o'' Hk Hlk; simpl in Hlk.
    + now inversion Hlk; subst.
    + apply (Hbefore k); auto. lia.
Qed.

Lemma firstCounterpart_none isLong post i :
  firstCounterpart isLong post i = None ->
  forall o, o ∈ post -> isCounterpart isLong o = false.
Proof.
  revert i. induction post as [|o post IH]; intros i H o' Hin; simpl in *.
  - now apply elem_of_nil in Hin.
  - destruct (isCounterpart isLong o) eqn:Hc; [discriminate|].
    apply elem_of_cons in Hin as [->|Hin]; eauto.
Qed.

(** The loop, started at index [length pre] over the book
    [pre ++ post ++ [newOrder]], where nothing in [pre] was matched. *)
Lemma matchLoop_scan post : forall pre newOrder s,
  orderBook s = pre ++ post ++ [newOrder] ->
  EncryptedOrder.isFilled newOrder = false ->
  matchLoop (length post + 1) (length pre) (length (pre ++ post)) s =
    Done tt
      match firstCounterpart (EncryptedOrder.isLong newOrder) post (length pre) with
      | Some j =>
          set_events (fun l => l ++ [OrderMatched (Z.of_nat (length (pre ++ post))) (Z.of_nat j)])
            (set_orderBook (fun _ => alter (EncryptedOrder.with_isFilled true) j (pre ++ post)
                                       ++ [EncryptedOrder.with_isFilled true newOrder]) s)
      | None => s
      end.
Proof.
  induction post as [|o post IH]; intros pre newOrder s Hob Hnf.
  - simpl. rewrite app_nil_r. rewrite bool_decide_eq_true_2 by reflexivity. reflexivity.
  - cbn [length Nat.add matchLoop firstCounterpart].
    rewrite bool_decide_eq_false_2 by (rewrite length_app; simpl; lia).
    unfold bind at 1, get at 1.
    assert (Hi : orderBook s !! length pre = Some o).
    { rewrite Hob. rewrite lookup_app_r by lia. now rewrite Nat.sub_diag. }
    assert (Hn : orderBook s !! length (pre ++ o :: post) = Some newOrder).
    { rewrite Hob, app_assoc. rewrite lookup_app_r by lia. now rewrite Nat.sub_diag. }
    rewrite Hi, Hn.
    assert (Hnext : matchLoop (length post + 1) (S (length pre)) (length (pre ++ o :: post)) s =
      Done tt match firstCounterpart (EncryptedOrder.isLong newOrder) post (S (length pre)) with
      | Some j =>
          set_events (fun l => l ++ [OrderMatched (Z.of_nat (length (pre ++ o :: post))) (Z.of_nat j)])
            (set_orderBook (fun _ => alter (EncryptedOrder.with_isFilled true) j (pre ++ o :: post)
                                       ++ [EncryptedOrder.with_isFilled true newOrder]) s)
      | None => s
      end).
    { pose proof (IH (pre ++ [o]) newOrder s) as IH'.
      replace (length (pre ++ [o])) with (S (length pre)) in IH'
        by (rewrite length_app; simpl; lia).
      rewrite <- !(app_assoc pre [o]) in IH'. simpl app in IH'.
      apply IH'; auto. }
    unfold isCounterpart.
    destruct (Bool.eqb (EncryptedOrder.isLong o) (EncryptedOrder.isLong newOrder)) eqn:Hside;
      simpl; [exact Hnext|].
    rewrite Hnf, orb_false_r.
    destruct (EncryptedOrder.isFilled o) eqn:Hfo; simpl; [exact Hnext|].
    run. unfold set_events, set_orderBook. simpl. f_equal. f_equal.
    rewrite Hob.
    rewrite (app_assoc pre (o :: post) [newOrder]).
    rewrite insert_app_r_alt by lia. rewrite Nat.sub_diag. simpl.
    rewrite insert_app_l by (rewrite length_app; simpl; lia).
    f_equal. symmetry. apply alter_as_insert.
    rewrite lookup_app_r by lia. now rewrite Nat.sub_diag.
Qed.

Section PlaceOrder.
Variable asEuint64 : bytes -> TFHE.euint64.

Lemma placeOrder_ok e encPrice encSize isLong s :
  let newOrder := EncryptedOrder.mk (asEuint64 encPrice) (asEuint64 encSize)
                    (msg_sender e) isLong false (block_timestamp e) in
  let ob := orderBook s in
  placeOrder asEuint64 e encPrice encSize isLong s =
    Done (length ob)
      (set_events (fun l => l ++ [OrderPlaced (msg_sender e) (Z.of_nat (length ob)) isLong]
                              ++ matchEvents ob newOrder)
         (set_orderBook (fun _ => matchedBook ob newOrder) s)).
Proof.
  intros newOrder ob. unfold placeOrder, _matchOrders. run.
  fold ob. fold newOrder.
  assert (Hlen : (length (ob ++ [newOrder]) - 1)%nat = length ob)
    by (rewrite length_app; simpl; lia).
  rewrite Hlen.
  rewrite lookup_app_r, Nat.sub_diag by lia.
  change ([newOrder] !! 0%nat) with (Some newOrder). cbv iota.
  rewrite length_app. change (length [newOrder]) with 1%nat.
  pose proof (matchLoop_scan ob [] newOrder
    (set_events (fun l => l ++ [OrderPlaced (msg_sender e) (Z.of_nat (length ob)) isLong])
       (set_orderBook (fun ob0 => ob0 ++ [newOrder]) s))) as Hscan.
  simpl in Hscan. fold ob in Hscan. rewrite Hscan by reflexivity.
  unfold matchedBook, matchEvents. simpl.
  destruct (firstCounterpart isLong ob 0); simpl.
  - unfold set_events, set_orderBook. simpl. now rewrite <- app_assoc.
  - reflexivity.
Qed.
End PlaceOrder.

End MatchingFacts.

(** ** ConfidentialPerpDEXMock: the plaintext stand-in *)

Module ConfidentialPerpDEXMockFacts.
Import ConfidentialPerpDEXMock.

Ltac mock_unfold_monad :=
  unfold bind, ret, get, modify, require, revert, readBalance, readPosition,
    writeBalance, writePosition, emit, Uint256.add, Uint256.sub, Uint256.mul, Uint256.div.
Ltac mock_run := repeat (progress (mock_unfold_monad; simpl)).

Section Facts.
Variable keccak256 : address * Z * Z -> bytes32.

Lemma mock_positionOf_written s trader positionId p :
  positionOf (set_positions (fun m => <[(trader, positionId) := p]> m) s) trader positionId = p.
Proof. unfold positionOf. simpl. now rewrite lookup_insert_eq. Qed.

Lemma mock_balanceOf_written s a v :
  balanceOf (set_balances (fun m => <[a := v]> m) s) a = v.
Proof. unfold balanceOf. simpl. now rewrite lookup_insert_eq. Qed.

Lemma mock_closePosition_closed e positionId s :
  Position.isOpen (positionOf s (msg_sender e) positionId) = false ->
  closePosition e positionId s = Reverted "Position not open" s.
Proof. intros Hc. unfold closePosition. mock_run. now rewrite Hc. Qed.

Lemma mock_calculatePnL_closed trader positionId s :
  Position.isOpen (positionOf s trader positionId) = false ->
  calculatePnL trader positionId s = Reverted "Position not open" s.
Proof. intros Hc. unfold calculatePnL. mock_run. now rewrite Hc. Qed.

(** In the stand-in a loss is reported as zero: "no negative PnL in mock". *)
Lemma mock_calculatePnL_no_gain trader positionId s :
  let pos := positionOf s trader positionId in
  Position.isOpen pos = true ->
  (if Position.isLong pos then oraclePrice s <= Position.entryPrice pos
   else Position.entryPrice pos <= oraclePrice s) ->
  calculatePnL trader positionId s = Done 0 s.
Proof.
  intros pos Hopen Hle. unfold calculatePnL. mock_run. fold pos. rewrite Hopen. mock_run.
  destruct (Position.isLong pos).
  - destruct (Z.ltb_spec (Position.entryPrice pos) (oraclePrice s)); [lia|]. now mock_run.
  - destruct (Z.ltb_spec (oraclePrice s) (Position.entryPrice pos)); [lia|]. now mock_run.
Qed.

(** The stand-in refuses to open a position the balance does not cover. *)
Lemma mock_openPosition_insufficient e encSize leverage isLong s :
  let size := _mockDecrypt encSize in
  size * oraclePrice s < Uint256.modulus ->
  leverage <> 0 ->
  balanceOf s (msg_sender e) < size * oraclePrice s / leverage ->
  openPosition keccak256 e encSize leverage isLong s = Reverted "Insufficient balance" s.
Proof.
  intros size Hov Hl Hbal. unfold openPosition. mock_run. fold size.
  destruct (Z.ltb_spec (size * oraclePrice s) Uint256.modulus); [|lia]. mock_run.
  destruct (Z.eqb_spec leverage 0); [easy|]. mock_run.
  destruct (Z.leb_spec (size * oraclePrice s / leverage) (balanceOf s (msg_sender e))); [lia|].
  reflexivity.
Qed.

(** The stand-in evaluates the health check and refuses a healthy position. *)
Lemma mock_liquidate_healthy e trader positionId s :
  Position.isOpen (positionOf s trader positionId) = true ->
  checkLiquidation trader positionId s = Done false s ->
  liquidate e trader positionId s = Reverted "Position not liquidatable" s.
Proof. intros Hopen Hchk. unfold liquidate. mock_run. rewrite Hopen. mock_run. now rewrite Hchk. Qed.

End Facts.
End ConfidentialPerpDEXMockFacts.

(** ** Traces: a closed position stays closed, and is ended at most once *)

Module LedgerFacts.
Import ConfidentialPerpDEX LedgerSpec Ledger ConfidentialPerpDEXFacts MatchingFacts.

Section Facts.
Variable asEuint64 : bytes -> TFHE.euint64.
Variable keccak256 : address * Z * TFHE.euint64 -> bytes32.

Abbreviation step := (step asEuint64 keccak256).
Abbreviation execute := (execute asEuint64 keccak256).
Abbreviation dispatch := (dispatch asEuint64 keccak256).
Abbreviation reopensPosition := (reopensPosition asEuint64 keccak256).
Abbreviation settlements := (settlements asEuint64 keccak256).

Lemma deposit_positions e a s :
  positions (finalState (deposit asEuint64 e a s)) = positions s.
Proof. unfold deposit. run. now destruct (encryptedBalances s !! msg_sender e). Qed.

Lemma deposit_done e a s : exists s', deposit asEuint64 e a s = Done tt s'.
Proof. unfold deposit. run. destruct (encryptedBalances s !! msg_sender e); eauto. Qed.

Lemma updateOraclePrice_positions e p s :
  positions (transact (updateOraclePrice asEuint64 e p) s) = positions s.
Proof.
  unfold transact, updateOraclePrice, onlyAdmin. run.
  now destruct (bool_decide (msg_sender e = admin s)).
Qed.

Lemma closed_after_write s trader positionId t p q :
  closedIn s trader positionId ->
  ((t, p) = (trader, positionId) -> EncryptedPosition.isOpen q = false) ->
  closedIn (set_positions (fun m => <[(t, p) := q]> m) s) trader positionId.
Proof.
  intros Hc Hq. unfold closedIn.
  destruct (decide ((t, p) = (trader, positionId))) as [Heq|Hne].
  - inversion Heq; subst. rewrite positionOf_written. auto.
  - now rewrite positionOf_written_other.
Qed.

Lemma step_keeps_closed tx s trader positionId :
  closedIn s trader positionId ->
  reopensPosition trader positionId tx = false ->
  closedIn (step tx s) trader positionId.
Proof.
  intros Hc Hre. destruct tx as [e c]. unfold Ledger.step, transact. simpl fst; simpl snd.
  destruct c as [a|sz lev long sl tp|p|p sl tp|t p|t p|pr sz long|pr]; simpl dispatch.
  - destruct (deposit_done e a s) as [s' Hs']. rewrite Hs'.
    pose proof (deposit_positions e a s) as Hp. rewrite Hs' in Hp. simpl in Hp.
    unfold closedIn, positionOf in *. now rewrite Hp.
  - unfold bind. destruct (Z.eq_dec lev 0) as [->|Hl].
    + unfold openPosition. run. exact Hc.
    + rewrite openPosition_ok by assumption. simpl.
      unfold closedIn. change (positionOf (set_events ?f (set_userPositionIds ?g ?x)))
        with (positionOf x).
      unfold Ledger.reopensPosition in Hre. simpl in Hre.
      rewrite positionOf_written_other; [exact Hc|].
      intros Heq. inversion Heq as [[Ht Hp]].
      rewrite !bool_decide_eq_true_2 in Hre by auto. discriminate.
  - destruct (EncryptedPosition.isOpen (positionOf s (msg_sender e) p)) eqn:Ho.
    + rewrite closePosition_open by assumption.
      apply (closed_after_write _ _ _ _ _ _ Hc). reflexivity.
    + now rewrite closePosition_closed.
  - destruct (EncryptedPosition.isOpen (positionOf s (msg_sender e) p)) eqn:Ho.
    + rewrite updateStopLossTakeProfit_open by assumption.
      apply (closed_after_write _ _ _ _ _ _ Hc).
      intros Heq. inversion Heq; subst. unfold closedIn in Hc. congruence.
    + now rewrite updateStopLossTakeProfit_closed.
  - destruct (EncryptedPosition.isOpen (positionOf s t p)) eqn:Ho.
    + rewrite executeStopLossTakeProfit_open by assumption.
      apply (closed_after_write _ _ _ _ _ _ Hc). reflexivity.
    + now rewrite executeStopLossTakeProfit_closed.
  - destruct (EncryptedPosition.isOpen (positionOf s t p)) eqn:Ho.
    + rewrite liquidate_open by assumption.
      apply (closed_after_write _ _ _ _ _ _ Hc). reflexivity.
    + now rewrite liquidate_closed.
  - unfold bind. rewrite placeOrder_ok. exact Hc.
  - pose proof (updateOraclePrice_positions e pr s) as Hp. unfold transact in Hp.
    destruct (updateOraclePrice asEuint64 e pr s); [|exact Hc].
    unfold closedIn, positionOf in *. now rewrite Hp.
Qed.

Lemma execute_keeps_closed txs : forall s trader positionId,
  closedIn s trader positionId ->
  Forall (fun tx => reopensPosition trader positionId tx = false) txs ->
  closedIn (execute txs s) trader positionId.
Proof.
  induction txs as [|tx txs IH]; intros s trader positionId Hc Hall; simpl; [exact Hc|].
  inversion Hall; subst. apply IH; auto. now apply step_keeps_closed.
Qed.

(** The derived id depends on the sender, the block timestamp and the
    size only: opening again with the same three reopens the id. *)
Lemma openPosition_same_id_reopens e sz lev long sl tp s :
  lev <> 0 ->
  EncryptedPosition.isOpen
    (positionOf (step (e, OpenPosition sz lev long sl tp) s) (msg_sender e)
       (keccak256 (msg_sender e, block_timestamp e, asEuint64 sz))) = true.
Proof.
  intros Hl. unfold Ledger.step, transact. simpl. unfold bind.
  rewrite openPosition_ok by assumption. simpl.
  change (positionOf (set_events ?f (set_userPositionIds ?g ?x))) with (positionOf x).
  now rewrite positionOf_written.
Qed.

(** Ending a closed position fails. *)
Lemma ending_closed_fails tx s trader positionId :
  closedIn s trader positionId ->
  endsPosition trader positionId tx = true ->
  dispatch (fst tx) (snd tx) s = Reverted "Position not open" s.
Proof.
  intros Hc He. destruct tx as [e c]. unfold endsPosition in He. simpl in He.
  destruct c; try discriminate; apply andb_prop in He as [H1 H2];
    apply bool_decide_eq_true_1 in H1, H2; subst; cbn [fst snd Ledger.dispatch].
  - now apply closePosition_closed.
  - now apply executeStopLossTakeProfit_closed.
  - now apply liquidate_closed.
Qed.

(** Ending an open position succeeds and leaves it closed. *)
Lemma ending_open_closes tx s trader positionId :
  endsPosition trader positionId tx = true ->
  EncryptedPosition.isOpen (positionOf s trader positionId) = true ->
  succeeds (dispatch (fst tx) (snd tx) s) = true /\ closedIn (step tx s) trader positionId.
Proof.
  intros He Ho. destruct tx as [e c]. unfold endsPosition in He. unfold Ledger.step, transact.
  simpl in He.
  destruct c; try discriminate; apply andb_prop in He as [H1 H2];
    apply bool_decide_eq_true_1 in H1, H2; subst; cbn [fst snd Ledger.dispatch].
  - rewrite closePosition_open by assumption. split; [reflexivity|].
    unfold closedIn, creditedAndClosed.
    change (positionOf (set_events ?f ?x)) with (positionOf x).
    now rewrite positionOf_written.
  - rewrite executeStopLossTakeProfit_open by assumption. split; [reflexivity|].
    unfold closedIn, creditedAndClosed.
    change (positionOf (set_events ?f ?x)) with (positionOf x).
    now rewrite positionOf_written.
  - rewrite liquidate_open by assumption. split; [reflexivity|].
    unfold closedIn, liquidated.
    change (positionOf (set_events ?f (set_encryptedBalances ?g ?x))) with (positionOf x).
    now rewrite positionOf_written.
Qed.

Lemma settlements_closed txs : forall s trader positionId,
  closedIn s trader positionId ->
  Forall (fun tx => reopensPosition trader positionId tx = false) txs ->
  settlements trader positionId txs s = 0%nat.
Proof.
  induction txs as [|tx txs IH]; intros s trader positionId Hc Hall; simpl; [reflexivity|].
  inversion Hall; subst.
  rewrite IH by (auto using step_keeps_closed).
  destruct (endsPosition trader positionId tx) eqn:He; [|reflexivity].
  now rewrite (ending_closed_fails _ _ _ _ Hc He).
Qed.

Lemma settlements_at_most_once txs : forall s trader positionId,
  Forall (fun tx => reopensPosition trader positionId tx = false) txs ->
  (settlements trader positionId txs s <= 1)%nat.
Proof.
  induction txs as [|tx txs IH]; intros s trader positionId Hall; simpl; [lia|].
  inversion Hall; subst.
  destruct (EncryptedPosition.isOpen (positionOf s trader positionId)) eqn:Ho.
  - destruct (endsPosition trader positionId tx) eqn:He.
    + destruct (ending_open_closes _ _ _ _ He Ho) as [Hs Hc].
      rewrite (settlements_closed _ _ _ _ Hc) by assumption.
      destruct (succeeds _); simpl; lia.
    + simpl. now apply IH.
  - rewrite settlements_closed by (auto using step_keeps_closed).
    destruct (endsPosition trader positionId tx && _); lia.
Qed.

End Facts.
End LedgerFacts.

(** ** ConfidentialPerpDEXMock: the scenarios of the specification *)

Module MockScenarioFacts.
Import ConfidentialPerpDEXMock ConfidentialPerpDEXMockFacts.

Section Facts.
Variable keccak256 : address * Z * Z -> bytes32.

(** Whenever a close goes through, the position is closed afterwards. *)
Lemma mock_closePosition_closes e positionId s :
  match closePosition e positionId s with
  | Done _ s' => Position.isOpen (positionOf s' (msg_sender e) positionId) = false
  | Reverted _ _ => True
  end.
Proof.
  unfold closePosition, calculatePnL. mock_run.
  destruct (Position.isOpen (positionOf s (msg_sender e) positionId)); mock_run; [|exact I].
  repeat match goal with
         | |- context [if ?b then _ else _] => destruct b; mock_run
         end; try exact I; unfold positionOf; simpl; now rewrite lookup_insert_eq.
Qed.

Lemma mock_scenarioA e encSize isLong s :
  _mockDecrypt encSize = 10 ->
  oraclePrice s = 100 ->
  balanceOf s (msg_sender e) = 1000 ->
  let positionId := keccak256 (msg_sender e, block_timestamp e, 10) in
  exists s', openPosition keccak256 e encSize 5 isLong s = Done positionId s'
             /\ balanceOf s' (msg_sender e) = 800
             /\ positionOf s' (msg_sender e) positionId
                = Position.mk 10 100 200 5 isLong (block_timestamp e) true.
Proof.
  intros Hsize Hprice Hbal positionId. unfold openPosition. mock_run.
  rewrite Hsize, Hprice. mock_run. rewrite Hbal. mock_run.
  eexists. split; [reflexivity|]. split.
  - unfold balanceOf. simpl. now rewrite lookup_insert_eq.
  - unfold positionOf. simpl. now rewrite lookup_insert_eq.
Qed.

Lemma mock_scenarioB e positionId s :
  let pos := positionOf s (msg_sender e) positionId in
  Position.isOpen pos = true -> Position.isLong pos = true ->
  Position.size pos = 10 -> Position.entryPrice pos = 100 -> Position.collateral pos = 200 ->
  oraclePrice s = 120 ->
  balanceOf s (msg_sender e) = 800 ->
  exists s', closePosition e positionId s = Done tt s'
             /\ calculatePnL (msg_sender e) positionId s = Done 200 s
             /\ balanceOf s' (msg_sender e) = 1200
             /\ Position.isOpen (positionOf s' (msg_sender e) positionId) = false
             /\ events s' = events s ++ [PositionClosed (msg_sender e) positionId].
Proof.
  intros pos Hopen Hlong Hsize Hentry Hcoll Hprice Hbal. subst pos.
  unfold closePosition, calculatePnL. mock_run.
  repeat (progress (rewrite ?Hopen, ?Hlong, ?Hsize, ?Hentry, ?Hcoll, ?Hprice, ?Hbal; mock_run)).
  eexists. split; [reflexivity|]. split; [reflexivity|]. split; [|split].
  - unfold balanceOf. simpl. now rewrite lookup_insert_eq.
  - unfold positionOf. simpl. now rewrite lookup_insert_eq.
  - reflexivity.
Qed.

Lemma mock_scenarioC e1 e2 encPrice1 encSize1 encPrice2 encSize2 s :
  orderBook s = [] ->
  _mockDecrypt encPrice1 = 50 ->
  _mockDecrypt encPrice2 = 40 ->
  exists s1 s2,
    placeOrder e1 encPrice1 encSize1 true s = Done 0%nat s1
    /\ placeOrder e2 encPrice2 encSize2 false s1 = Done 1%nat s2
    /\ Order.isFilled <$> orderBook s2 = [true; true]
    /\ getOrderBookSize s2 = Done 2%nat s2.
Proof.
  intros Hob Hp1 Hp2. destruct s as [bal pos ids ob price thr rate adm evs].
  simpl in Hob. subst ob. eexists _, _.
  split. { unfold placeOrder, _matchOrders. mock_run. rewrite Hp1. reflexivity. }
  split. { unfold placeOrder, _matchOrders. mock_run. rewrite Hp2. mock_run. reflexivity. }
  split; reflexivity.
Qed.

(** The stand-in fills only when the prices cross: a buy at 40 and a
    sell at 50 stay open. *)
Lemma mock_no_cross_no_fill e1 e2 encPrice1 encSize1 encPrice2 encSize2 s :
  orderBook s = [] ->
  _mockDecrypt encPrice1 = 40 ->
  _mockDecrypt encPrice2 = 50 ->
  exists s1 s2,
    placeOrder e1 encPrice1 encSize1 true s = Done 0%nat s1
    /\ placeOrder e2 encPrice2 encSize2 false s1 = Done 1%nat s2
    /\ Order.isFilled <$> orderBook s2 = [false; false].
Proof.
  intros Hob Hp1 Hp2. destruct s as [bal pos ids ob price thr rate adm evs].
  simpl in Hob. subst ob. eexists _, _.
  split. { unfold placeOrder, _matchOrders. mock_run. rewrite Hp1. reflexivity. }
  split. { unfold placeOrder, _matchOrders. mock_run. rewrite Hp2. mock_run. reflexivity. }
  reflexivity.
Qed.

End Facts.
End MockScenarioFacts.

(** ** Further facts used by the claims *)

Module ClaimFacts.
Import ConfidentialPerpDEX LedgerSpec ConfidentialPerpDEXFacts MatchingFacts.

Lemma isCounterpart_true isLong o :
  isCounterpart isLong o = true ->
  EncryptedOrder.isLong o = negb isLong /\ EncryptedOrder.isFilled o = false.
Proof.
  unfold isCounterpart. intros H. apply andb_prop in H as [H1 H2].
  destruct (EncryptedOrder.isLong o), isLong, (EncryptedOrder.isFilled o);
    simpl in *; auto; discriminate.
Qed.

Lemma isCounterpart_false isLong o :
  isCounterpart isLong o = false ->
  EncryptedOrder.isLong o = isLong \/ EncryptedOrder.isFilled o = true.
Proof.
  unfold isCounterpart.
  destruct (EncryptedOrder.isLong o), isLong, (EncryptedOrder.isFilled o);
    simpl; auto; discriminate.
Qed.

(** The fill flags of the matched book do not depend on the new price. *)
Lemma matchedBook_flags ob newOrder newOrder' :
  EncryptedOrder.isLong newOrder' = EncryptedOrder.isLong newOrder ->
  EncryptedOrder.isFilled newOrder' = EncryptedOrder.isFilled newOrder ->
  EncryptedOrder.isFilled <$> matchedBook ob newOrder'
  = EncryptedOrder.isFilled <$> matchedBook ob newOrder.
Proof.
  intros Hl Hf. unfold matchedBook. rewrite Hl.
  destruct (firstCounterpart _ ob 0); rewrite !fmap_app; simpl; now rewrite ?Hf.
Qed.

(** On the stand-in too, a liquidation pays nobody but the caller. *)
Lemma mock_liquidate_pays_caller_only e trader positionId sm a :
  a <> msg_sender e ->
  match ConfidentialPerpDEXMock.liquidate e trader positionId sm with
  | Done _ sm' => ConfidentialPerpDEXMock.balanceOf sm' a = ConfidentialPerpDEXMock.balanceOf sm a
  | Reverted _ _ => True
  end.
Proof.
  intros Ha.
  unfold ConfidentialPerpDEXMock.liquidate, ConfidentialPerpDEXMock.checkLiquidation,
    ConfidentialPerpDEXMock.calculatePnL.
  ConfidentialPerpDEXMockFacts.mock_run.
  repeat match goal with
         | |- context [if ?b then _ else _] => destruct b; ConfidentialPerpDEXMockFacts.mock_run
         end; try exact I;
    unfold ConfidentialPerpDEXMock.balanceOf; simpl; now rewrite lookup_insert_ne.
Qed.

End ClaimFacts.

(** ** Recorded calls: erasure and what is recorded *)

Module CallLogFacts.
Import CallLog.

Lemma erases_lift {St A} (m : M St A) : erases (lift m) m.
Proof. intros s l. unfold lift. simpl. now destruct (m s). Qed.

Lemma erases_ret {St A} (a : A) : erases (St := St) (ret a) (ret a).
Proof. intros s l. reflexivity. Qed.

Lemma erases_revert {St A} reason : erases (St := St) (A := A) (revert reason) (revert reason).
Proof. intros s l. reflexivity. Qed.

Lemma erases_bind {St A B} (m' : M (Logged St) A) (m : M St A)
      (k' : A -> M (Logged St) B) (k : A -> M St B) :
  erases m' m -> (forall a, erases (k' a) (k a)) -> erases (bind m' k') (bind m k).
Proof.
  intros Hm Hk s l. unfold bind. specialize (Hm s l).
  destruct (m' (s, l)) as [a [s1 l1]|r [s1 l1]]; simpl in Hm; rewrite <- Hm; [apply Hk | reflexivity].
Qed.

Lemma erases_call {St A} f (m' : M (Logged St) A) (m : M St A) :
  erases m' m -> erases (call f m') m.
Proof. intros Hm s l. unfold call, bind, modify. simpl. apply Hm. Qed.

Lemma erases_tfhe_div {St} a b : erases (St := St) (TFHE.div a b) (TFHE.div a b).
Proof. intros s l. unfold TFHE.div. now destruct (b =? 0). Qed.

Lemma erases_uint_add {St} a b : erases (St := St) (Uint256.add a b) (Uint256.add a b).
Proof. intros s l. unfold Uint256.add. now destruct (a + b <? Uint256.modulus). Qed.

Lemma erases_uint_mul {St} a b : erases (St := St) (Uint256.mul a b) (Uint256.mul a b).
Proof. intros s l. unfold Uint256.mul. now destruct (a * b <? Uint256.modulus). Qed.

Lemma erases_uint_div {St} a b : erases (St := St) (Uint256.div a b) (Uint256.div a b).
Proof. intros s l. unfold Uint256.div. now destruct (b =? 0). Qed.

Lemma silent_lift {St A} (m : M St A) : silent (lift m).
Proof. intros [s l]. unfold lift. simpl. now destruct (m s). Qed.

Lemma silent_ret {St A} (a : A) : silent (St := St) (ret a).
Proof. intros sl. reflexivity. Qed.

Lemma silent_bind {St A B} (m' : M (Logged St) A) (k' : A -> M (Logged St) B) :
  silent m' -> (forall a, silent (k' a)) -> silent (bind m' k').
Proof.
  intros Hm Hk sl. unfold bind. specialize (Hm sl).
  destruct (m' sl) as [a sl1|r sl1]; simpl in Hm; [|exact Hm].
  rewrite Hk. exact Hm.
Qed.

Lemma silent_tfhe_div {St} a b : silent (St := St) (TFHE.div a b).
Proof. intros sl. unfold TFHE.div. now destruct (b =? 0). Qed.

Lemma silent_extends {St A} (m' : M (Logged St) A) : silent m' -> extends m'.
Proof. intros Hm sl. exists []. now rewrite Hm, app_nil_r. Qed.

Lemma extends_bind {St A B} (m' : M (Logged St) A) (k' : A -> M (Logged St) B) :
  extends m' -> (forall a, extends (k' a)) -> extends (bind m' k').
Proof.
  intros Hm Hk sl. unfold bind. destruct (Hm sl) as (r1 & H1).
  destruct (m' sl) as [a sl1|r sl1]; simpl in H1; [|now exists r1].
  destruct (Hk a sl1) as (r2 & H2). exists (r1 ++ r2). now rewrite H2, H1, app_assoc.
Qed.

Lemma extends_call {St A} f (m' : M (Logged St) A) : extends m' -> extends (call f m').
Proof.
  intros Hm sl. unfold call, bind, modify. destruct (Hm (fst sl, snd sl ++ [f])) as (r & H).
  exists (f :: r). rewrite H. simpl. now rewrite <- app_assoc.
Qed.

Lemma extends_uint_add {St} a b : extends (St := St) (Uint256.add a b).
Proof. intros sl. exists []. unfold Uint256.add. rewrite app_nil_r. now destruct (a + b <? Uint256.modulus). Qed.

Lemma extends_uint_mul {St} a b : extends (St := St) (Uint256.mul a b).
Proof. intros sl. exists []. unfold Uint256.mul. rewrite app_nil_r. now destruct (a * b <? Uint256.modulus). Qed.

Lemma extends_uint_div {St} a b : extends (St := St) (Uint256.div a b).
Proof. intros sl. exists []. unfold Uint256.div. rewrite app_nil_r. now destruct (b =? 0). Qed.

Ltac erasure :=
  repeat first
    [ apply erases_lift | apply erases_ret | apply erases_tfhe_div
    | apply erases_uint_add | apply erases_uint_mul | apply erases_uint_div
    | apply erases_call
    | apply erases_bind; [|intro] ].

Ltac growth :=
  repeat first
    [ apply silent_extends; apply silent_lift
    | apply silent_extends; apply silent_ret
    | apply extends_uint_add | apply extends_uint_mul | apply extends_uint_div
    | apply extends_call
    | apply extends_bind; [|intro] ].

(** *** The confidential contract *)

Lemma logged_checkLiquidation_erases trader positionId :
  erases (ConfidentialPerpDEXLogged.checkLiquidation trader positionId)
         (ConfidentialPerpDEX.checkLiquidation trader positionId).
Proof.
  unfold ConfidentialPerpDEXLogged.checkLiquidation, ConfidentialPerpDEX.checkLiquidation,
    ConfidentialPerpDEXLogged.calculatePnL.
  erasure.
Qed.

Lemma logged_liquidate_erases e trader positionId :
  erases (ConfidentialPerpDEXLogged.liquidate e trader positionId)
         (ConfidentialPerpDEX.liquidate e trader positionId).
Proof.
  unfold ConfidentialPerpDEXLogged.liquidate, ConfidentialPerpDEX.liquidate. erasure.
Qed.

Lemma logged_liquidate_silent e trader positionId :
  silent (ConfidentialPerpDEXLogged.liquidate e trader positionId).
Proof.
  unfold ConfidentialPerpDEXLogged.liquidate.
  repeat first [ apply silent_lift | apply silent_tfhe_div | apply silent_bind; [|intro] ].
Qed.

Lemma logged_checkLiquidation_calls trader positionId s :
  ConfidentialPerpDEX.EncryptedPosition.isOpen
    (ConfidentialPerpDEX.positionOf s trader positionId) = true ->
  internalCalls (ConfidentialPerpDEXLogged.checkLiquidation trader positionId) s
  = [CalculatePnL].
Proof.
  intros Hopen. unfold internalCalls, ConfidentialPerpDEXLogged.checkLiquidation,
    ConfidentialPerpDEXLogged.calculatePnL, ConfidentialPerpDEX.calculatePnL,
    call, lift, bind, get, modify, require, ret, ConfidentialPerpDEX.readPosition.
  simpl. rewrite Hopen. simpl. rewrite Hopen. reflexivity.
Qed.

(** *** The plaintext stand-in *)

Lemma mock_logged_checkLiquidation_erases trader positionId :
  erases (ConfidentialPerpDEXMockLogged.checkLiquidation trader positionId)
         (ConfidentialPerpDEXMock.checkLiquidation trader positionId).
Proof.
  unfold ConfidentialPerpDEXMockLogged.checkLiquidation,
    ConfidentialPerpDEXMock.checkLiquidation, ConfidentialPerpDEXMockLogged.calculatePnL.
  erasure.
Qed.

Lemma mock_logged_liquidate_erases e trader positionId :
  erases (ConfidentialPerpDEXMockLogged.liquidate e trader positionId)
         (ConfidentialPerpDEXMock.liquidate e trader positionId).
Proof.
  unfold ConfidentialPerpDEXMockLogged.liquidate, ConfidentialPerpDEXMock.liquidate.
  apply erases_bind; [apply erases_lift | intro].
  apply erases_bind; [apply erases_lift | intro].
  apply erases_bind; [apply erases_call, mock_logged_checkLiquidation_erases | intro].
  erasure.
Qed.

Lemma mock_logged_liquidate_calls e trader positionId s :
  ConfidentialPerpDEXMock.Position.isOpen
    (ConfidentialPerpDEXMock.positionOf s trader positionId) = true ->
  exists rest,
    internalCalls (ConfidentialPerpDEXMockLogged.liquidate e trader positionId) s
    = CheckLiquidation :: rest.
Proof.
  intros Hopen.
  set (k := fun isLiquidatable : bool =>
         lift (require isLiquidatable "Position not liquidatable") ;;
         lift (ConfidentialPerpDEXMock.writePosition trader positionId
                 (ConfidentialPerpDEXMock.Position.with_isOpen false
                    (ConfidentialPerpDEXMock.positionOf s trader positionId))) ;;
         let* pos := lift (ConfidentialPerpDEXMock.readPosition trader positionId) in
         let* liquidationReward :=
           Uint256.div (ConfidentialPerpDEXMock.Position.collateral pos) 10 in
         let* bal := lift (ConfidentialPerpDEXMock.readBalance (msg_sender e)) in
         let* bal' := Uint256.add bal liquidationReward in
         lift (ConfidentialPerpDEXMock.writeBalance (msg_sender e) bal') ;;
         lift (ConfidentialPerpDEXMock.emit (LiquidationTriggered trader positionId))).
  assert (Hk : extends
                 (bind (ConfidentialPerpDEXMockLogged.checkLiquidation trader positionId) k)).
  { unfold k, ConfidentialPerpDEXMockLogged.checkLiquidation,
      ConfidentialPerpDEXMockLogged.calculatePnL. growth. }
  destruct (Hk (s, [CheckLiquidation])) as (r & Hr). exists r.
  unfold internalCalls, ConfidentialPerpDEXMockLogged.liquidate.
  unfold bind at 1. unfold lift at 1. unfold ConfidentialPerpDEXMock.readPosition at 1.
  cbn [fst snd]. unfold bind at 1. unfold lift at 1. cbn [fst snd]. rewrite Hopen.
  exact Hr.
Qed.

End CallLogFacts.

(** * The claims of the specification *)

Import ConfidentialPerpDEX LedgerSpec Ledger.
Import ConfidentialPerpDEXFacts MatchingFacts LedgerFacts.

(** C4.  For an open position [calculatePnL] returns
    [(oraclePrice - entryPrice) * size] when the position is long and
    [(entryPrice - oraclePrice) * size] when it is short, as a 64-bit
    confidential value (the integer itself whenever it fits); the result is
    determined by the oracle price and the stored position alone, and the
    call leaves the ledger as it found it. *)
Theorem C4_calculatePnL_formula (s : State) (trader : address) (positionId : bytes32) :
  let pos := positionOf s trader positionId in
  let price := encryptedOraclePrice s in
  let formula :=
    if EncryptedPosition.isLong pos
    then (price - EncryptedPosition.entryPrice pos) * EncryptedPosition.size pos
    else (EncryptedPosition.entryPrice pos - price) * EncryptedPosition.size pos in
  EncryptedPosition.isOpen pos = true ->
  calculatePnL trader positionId s = Done (formula mod 2 ^ 64) s
  /\ (0 <= formula < 2 ^ 64 -> calculatePnL trader positionId s = Done formula s)
  /\ (forall s2 : State,
         encryptedOraclePrice s2 = price ->
         positionOf s2 trader positionId = pos ->
         calculatePnL trader positionId s2 = Done (formula mod 2 ^ 64) s2)
  /\ finalState (calculatePnL trader positionId s) = s.
Proof.
  intros pos price formula Hopen.
  assert (Hrun : calculatePnL trader positionId s = Done (formula mod 2 ^ 64) s)
    by (apply calculatePnL_open; exact Hopen).
  split; [exact Hrun|]. split; [|split].
  - intros Hfit. rewrite Hrun. f_equal. now apply Z.mod_small.
  - intros s2 Hprice Hpos. rewrite calculatePnL_open by (rewrite Hpos; exact Hopen).
    unfold pnlFormula. rewrite Hprice, Hpos. reflexivity.
  - apply calculatePnL_view.
Qed.

Lemma C4_calculatePnL_formula_witness :
  calculatePnL Demo.alice Demo.alicePosition Demo.repriced = Done 200 Demo.repriced.
Proof.
  pose proof (proj1 (C4_calculatePnL_formula Demo.repriced Demo.alice Demo.alicePosition
                       eq_refl)) as H.
  vm_compute in H |- *. exact H.
Defined.



(** C6.  [openPosition] with size [s], plaintext leverage [L > 0] and oracle
    price [p] computes [positionValue = s * p] and
    [requiredCollateral = positionValue / L], debits the caller's balance by
    exactly [requiredCollateral], stores an open position whose entry price is
    the oracle price at that time and whose collateral is
    [requiredCollateral], and returns its id.  With balance 1000, size 10,
    leverage 5 and oracle price 100 the collateral is 200 and the balance
    left is 800, on the confidential contract and on the plaintext stand-in
    alike. *)
Theorem C6_openPosition_locks_collateral
  (asEuint64 : bytes -> TFHE.euint64)
  (keccak256 : address * Z * TFHE.euint64 -> bytes32)
  (mockKeccak256 : address * Z * Z -> bytes32)
  (e : Env) (encSize : bytes) (leverage : Z) (isLong : bool)
  (encStopLoss encTakeProfit : bytes) (s : State) :
  let caller := msg_sender e in
  let size := asEuint64 encSize in
  let price := encryptedOraclePrice s in
  let positionValue := TFHE.mul size price in
  let requiredCollateral := positionValue / leverage in
  let positionId := keccak256 (caller, block_timestamp e, size) in
  0 < leverage ->
  exists s' : State,
    openPosition asEuint64 keccak256 e encSize leverage isLong encStopLoss encTakeProfit s
      = Done positionId s'
    /\ balanceOf s' caller = TFHE.sub (balanceOf s caller) requiredCollateral
    /\ (requiredCollateral <= balanceOf s caller < 2 ^ 64 ->
        balanceOf s' caller = balanceOf s caller - requiredCollateral)
    /\ (forall a, a <> caller -> balanceOf s' a = balanceOf s a)
    /\ positionOf s' caller positionId
       = EncryptedPosition.mk size price requiredCollateral leverage isLong
           (block_timestamp e) true (asEuint64 encStopLoss) (asEuint64 encTakeProfit)
    /\ getUserPositions caller s'
       = Done (default [] (userPositionIds s !! caller) ++ [positionId]) s'
    /\ events s' = events s ++ [PositionOpened caller positionId isLong]
    /\ (size = 10 -> leverage = 5 -> price = 100 -> balanceOf s caller = 1000 ->
        requiredCollateral = 200
        /\ balanceOf s' caller = 800
        /\ EncryptedPosition.collateral (positionOf s' caller positionId) = 200)
    /\ (forall (sm : ConfidentialPerpDEXMock.State) (encSizeM : bytes),
          ConfidentialPerpDEXMock._mockDecrypt encSizeM = 10 ->
          ConfidentialPerpDEXMock.oraclePrice sm = 100 ->
          ConfidentialPerpDEXMock.balanceOf sm caller = 1000 ->
          exists sm',
            ConfidentialPerpDEXMock.openPosition mockKeccak256 e encSizeM 5 isLong sm
              = Done (mockKeccak256 (caller, block_timestamp e, 10)) sm'
            /\ ConfidentialPerpDEXMock.balanceOf sm' caller = 800
            /\ ConfidentialPerpDEXMock.positionOf sm' caller
                 (mockKeccak256 (caller, block_timestamp e, 10))
               = ConfidentialPerpDEXMock.Position.mk 10 100 200 5 isLong
                   (block_timestamp e) true).
Proof.
  cbv zeta. intros Hlev.
  set (caller := msg_sender e). set (size := asEuint64 encSize).
  set (rc := TFHE.mul size (encryptedOraclePrice s) / leverage).
  set (positionId := keccak256 (caller, block_timestamp e, size)).
  assert (Hdebit : forall s0 : State,
            balanceOf (set_encryptedBalances
                         (fun m => <[caller := TFHE.sub (balanceOf s caller) rc]> m) s0) caller
            = TFHE.sub (balanceOf s caller) rc) by (intros; apply balanceOf_written).
  eexists. split; [apply openPosition_ok; lia|].
  change (balanceOf (set_events ?f (set_userPositionIds ?g (set_positions ?h ?x))))
    with (balanceOf x).
  change (positionOf (set_events ?f (set_userPositionIds ?g ?x))) with (positionOf x).
  fold caller size rc positionId.
  split; [apply Hdebit|].
  split.
  { intros Hcover. rewrite Hdebit. unfold TFHE.sub. apply TFHEFacts.wrap_small.
    assert (0 <= rc).
    { apply Z.div_pos; [|exact Hlev]. apply TFHEFacts.wrap_range. }
    change TFHE.modulus with (2 ^ 64). lia. }
  split; [intros a Ha; now apply balanceOf_written_other|].
  split; [apply positionOf_written|].
  split.
  { unfold getUserPositions. run. now rewrite lookup_insert_eq. }
  split; [reflexivity|].
  split.
  - intros Hsize Hl Hprice Hbal.
    assert (Hrc : rc = 200) by (subst rc; rewrite Hsize, Hl, Hprice; reflexivity).
    split; [exact Hrc|]. rewrite Hdebit, positionOf_written, Hrc, Hbal. split; reflexivity.
  - intros sm encSizeM Hsize Hprice Hbal.
    now apply MockScenarioFacts.mock_scenarioA.
Qed.

Lemma C6_openPosition_locks_collateral_witness :
  (exists s',
     openPosition Demo.decode Demo.idOf (Demo.at_ Demo.alice 1003) (Demo.encode 10) 5 true
       (Demo.encode 0) (Demo.encode 0) Demo.funded = Done Demo.alicePosition s'
     /\ balanceOf s' Demo.alice = 800
     /\ EncryptedPosition.collateral (positionOf s' Demo.alice Demo.alicePosition) = 200)
  /\ (exists sm',
        ConfidentialPerpDEXMock.openPosition Demo.idOf (Demo.at_ Demo.alice 1003) (Demo.encode 10)
          5 true Demo.mockFunded = Done Demo.alicePosition sm'
        /\ ConfidentialPerpDEXMock.balanceOf sm' Demo.alice = 800).
Proof.
  destruct (C6_openPosition_locks_collateral Demo.decode Demo.idOf Demo.idOf
              (Demo.at_ Demo.alice 1003) (Demo.encode 10) 5 true (Demo.encode 0) (Demo.encode 0)
              Demo.funded) as (s' & Hopen & _ & _ & _ & _ & _ & _ & Hscenario & Hmock).
  - lia.
  - split.
    + exists s'. split; [exact Hopen|].
      destruct Hscenario as (_ & Hbal & Hcoll); try (vm_compute; reflexivity).
      split; assumption.
    + destruct (Hmock Demo.mockFunded (Demo.encode 10)) as (sm' & Hrun & Hbal & _);
        try (vm_compute; reflexivity).
      exists sm'. split; assumption.
Defined.

(** C7.  [closePosition] on a position that is not open fails with the
    "Position not open" error (the specification's InvalidStateError) before
    anything is written, so the ledger is unchanged; in particular the second
    of two [closePosition] calls on the same id fails.  This holds for the
    confidential contract and for the plaintext stand-in. *)
Theorem C7_closePosition_requires_open
  (e : Env) (positionId : bytes32) (s : State) (sm : ConfidentialPerpDEXMock.State) :
  (closedIn s (msg_sender e) positionId ->
     closePosition e positionId s = Reverted "Position not open" s
     /\ failsWith InvalidStateError (closePosition e positionId s)
     /\ transact (closePosition e positionId) s = s)
  /\ (EncryptedPosition.isOpen (positionOf s (msg_sender e) positionId) = true ->
      exists s', closePosition e positionId s = Done tt s'
                 /\ closePosition e positionId s' = Reverted "Position not open" s'
                 /\ transact (closePosition e positionId) s' = s')
  /\ (ConfidentialPerpDEXMock.Position.isOpen
        (ConfidentialPerpDEXMock.positionOf sm (msg_sender e) positionId) = false ->
      ConfidentialPerpDEXMock.closePosition e positionId sm = Reverted "Position not open" sm
      /\ failsWith InvalidStateError (ConfidentialPerpDEXMock.closePosition e positionId sm)
      /\ transact (ConfidentialPerpDEXMock.closePosition e positionId) sm = sm)
  /\ (forall sm',
        ConfidentialPerpDEXMock.closePosition e positionId sm = Done tt sm' ->
        ConfidentialPerpDEXMock.closePosition e positionId sm' = Reverted "Position not open" sm'
        /\ transact (ConfidentialPerpDEXMock.closePosition e positionId) sm' = sm').
Proof.
  split; [|split; [|split]].
  - intros Hc. pose proof (closePosition_closed e positionId s Hc) as Hr.
    split; [exact Hr|]. split.
    + exists "Position not open", s. split; [exact Hr | reflexivity].
    + unfold transact. now rewrite Hr.
  - intros Ho. eexists. split; [now apply closePosition_open|].
    assert (Hc : closedIn (creditedAndClosed (msg_sender e) positionId
                             (TFHE.add (EncryptedPosition.collateral
                                          (positionOf s (msg_sender e) positionId))
                                       (TFHE.wrap (pnlFormula (encryptedOraclePrice s)
                                          (positionOf s (msg_sender e) positionId))))
                             (PositionClosed (msg_sender e) positionId) s)
                          (msg_sender e) positionId).
    { unfold closedIn, creditedAndClosed.
      change (positionOf (set_events ?f ?x)) with (positionOf x).
      now rewrite positionOf_written. }
    pose proof (closePosition_closed e positionId _ Hc) as Hr.
    split; [exact Hr|]. unfold transact. now rewrite Hr.
  - intros Hc.
    pose proof (ConfidentialPerpDEXMockFacts.mock_closePosition_closed e positionId sm Hc) as Hr.
    split; [exact Hr|]. split.
    + exists "Position not open", sm. split; [exact Hr | reflexivity].
    + unfold transact. now rewrite Hr.
  - intros sm' Hdone.
    pose proof (MockScenarioFacts.mock_closePosition_closes e positionId sm) as Hc.
    rewrite Hdone in Hc.
    pose proof (ConfidentialPerpDEXMockFacts.mock_closePosition_closed e positionId sm' Hc) as Hr.
    split; [exact Hr|]. unfold transact. now rewrite Hr.
Qed.

Lemma C7_closePosition_requires_open_witness :
  (exists s', closePosition (Demo.at_ Demo.alice 1005) Demo.alicePosition Demo.repriced = Done tt s'
              /\ closePosition (Demo.at_ Demo.alice 1005) Demo.alicePosition s'
                 = Reverted "Position not open" s')
  /\ closePosition (Demo.at_ Demo.bob 1005) Demo.alicePosition Demo.repriced
     = Reverted "Position not open" Demo.repriced
  /\ ConfidentialPerpDEXMock.closePosition (Demo.at_ Demo.bob 1005) Demo.alicePosition
       Demo.mockRepriced
     = Reverted "Position not open" Demo.mockRepriced
  /\ (exists sm',
        ConfidentialPerpDEXMock.closePosition (Demo.at_ Demo.alice 1005) Demo.alicePosition
          Demo.mockRepriced = Done tt sm'
        /\ ConfidentialPerpDEXMock.closePosition (Demo.at_ Demo.alice 1005) Demo.alicePosition sm'
           = Reverted "Position not open" sm').
Proof.
  split; [|split; [|split]].
  - destruct (C7_closePosition_requires_open (Demo.at_ Demo.alice 1005) Demo.alicePosition
                Demo.repriced Demo.mockRepriced) as (_ & Hsecond & _).
    destruct Hsecond as (s' & Hfirst & Hagain & _).
    + vm_compute. reflexivity.
    + exists s'. split; assumption.
  - destruct (C7_closePosition_requires_open (Demo.at_ Demo.bob 1005) Demo.alicePosition
                Demo.repriced Demo.mockRepriced) as (Hclosed & _).
    destruct Hclosed as (Hr & _); [vm_compute; reflexivity | exact Hr].
  - destruct (C7_closePosition_requires_open (Demo.at_ Demo.bob 1005) Demo.alicePosition
                Demo.repriced Demo.mockRepriced) as (_ & _ & Hclosed & _).
    destruct Hclosed as (Hr & _); [vm_compute; reflexivity | exact Hr].
  - destruct (C7_closePosition_requires_open (Demo.at_ Demo.alice 1005) Demo.alicePosition
                Demo.repriced Demo.mockRepriced) as (_ & _ & _ & Hsecond).
    eexists. split; [vm_compute; reflexivity|].
    apply Hsecond. vm_compute. reflexivity.
Defined.

(** C8, as stated, fails.  Alice closes her position and, in the same
    block, opens a position of the same size: [openPosition] derives the same
    id again and stores an open position under it, so a [closePosition] on
    the id that was closed succeeds a second time. *)
Lemma C8_counterexample_reopened_id_closes_again :
  closedIn DemoReopen.closed Demo.alice Demo.alicePosition
  /\ EncryptedPosition.isOpen
       (positionOf (execute Demo.decode Demo.idOf [DemoReopen.reopen] DemoReopen.closed)
          Demo.alice Demo.alicePosition) = true
  /\ succeeds (closePosition (Demo.at_ Demo.alice 1003) Demo.alicePosition
                 (execute Demo.decode Demo.idOf [DemoReopen.reopen] DemoReopen.closed)) = true
  /\ ~ ClaimSpec.terminalFrom Demo.decode Demo.idOf DemoReopen.closed Demo.alice
         Demo.alicePosition.
Proof.
  do 3 (split; [vm_compute; reflexivity|]).
  intros Hterminal.
  specialize (Hterminal [DemoReopen.reopen]
                (Demo.at_ Demo.alice 1003, ClosePosition Demo.alicePosition) eq_refl).
  vm_compute in Hterminal. discriminate.
Qed.

(** C8, amended.  Position terminality.  In every state in which the position has
    [isOpen = false], [closePosition] by its owner, [liquidate] and
    [executeStopLossTakeProfit] by anyone all fail with "Position not open"
    (InvalidStateError); the position stays closed along every later trace of
    transactions that does not run [openPosition] to the same derived id; and
    of two [liquidate] calls on an open position the first succeeds and the
    second fails. *)
Theorem C8_position_terminality
  (asEuint64 : bytes -> TFHE.euint64)
  (keccak256 : address * Z * TFHE.euint64 -> bytes32)
  (s : State) (trader : address) (positionId : bytes32) :
  (closedIn s trader positionId ->
     (forall e, msg_sender e = trader ->
        closePosition e positionId s = Reverted "Position not open" s)
     /\ (forall e, liquidate e trader positionId s = Reverted "Position not open" s)
     /\ (forall e, executeStopLossTakeProfit e trader positionId s
                   = Reverted "Position not open" s)
     /\ classify "Position not open" = InvalidStateError
     /\ (forall txs,
           Forall (fun tx => reopensPosition asEuint64 keccak256 trader positionId tx = false) txs ->
           closedIn (execute asEuint64 keccak256 txs s) trader positionId))
  /\ (EncryptedPosition.isOpen (positionOf s trader positionId) = true ->
      forall e1 e2, exists s1,
        liquidate e1 trader positionId s = Done tt s1
        /\ liquidate e2 trader positionId s1 = Reverted "Position not open" s1
        /\ failsWith InvalidStateError (liquidate e2 trader positionId s1)).
Proof.
  split.
  - intros Hc. split; [|split; [|split; [|split]]].
    + intros e He. subst trader. now apply closePosition_closed.
    + intros e. now apply liquidate_closed.
    + intros e. now apply executeStopLossTakeProfit_closed.
    + reflexivity.
    + intros txs Hall. now apply execute_keeps_closed.
  - intros Ho e1 e2. eexists. split; [now apply liquidate_open|].
    assert (Hc : closedIn (liquidated (msg_sender e1) trader positionId s) trader positionId).
    { unfold closedIn, liquidated.
      change (positionOf (set_events ?f (set_encryptedBalances ?g ?x))) with (positionOf x).
      now rewrite positionOf_written. }
    pose proof (liquidate_closed e2 trader positionId _ Hc) as Hr.
    split; [exact Hr|]. eexists "Position not open", _. split; [exact Hr | reflexivity].
Qed.

Lemma C8_position_terminality_witness :
  exists s1,
    liquidate (Demo.at_ Demo.bob 1005) Demo.alice Demo.alicePosition Demo.repriced = Done tt s1
    /\ liquidate (Demo.at_ Demo.deployer 1005) Demo.alice Demo.alicePosition s1
       = Reverted "Position not open" s1
    /\ closePosition (Demo.at_ Demo.alice 1006) Demo.alicePosition s1
       = Reverted "Position not open" s1.
Proof.
  destruct (C8_position_terminality Demo.decode Demo.idOf Demo.repriced Demo.alice
              Demo.alicePosition) as (_ & Htwo).
  destruct (Htwo eq_refl (Demo.at_ Demo.bob 1005) (Demo.at_ Demo.deployer 1005))
    as (s1 & Hfirst & Hsecond & _).
  exists s1. split; [exact Hfirst|]. split; [exact Hsecond|].
  destruct (C8_position_terminality Demo.decode Demo.idOf s1 Demo.alice Demo.alicePosition)
    as (Hclosed & _).
  destruct Hclosed as (Hclose & _).
  - inversion Hfirst. vm_compute. reflexivity.
  - now apply Hclose.
Defined.

(** C10.  [executeStopLossTakeProfit] can be called by anyone on any open
    position: it evaluates the two trigger booleans and then, whatever their
    values, closes the position and credits [collateral + calculatePnL] to
    the trader.  No other balance moves, so a caller other than the trader
    receives nothing.  Replacing the bracket prices of the position by any
    others changes the booleans but not the balances, the closed flag or the
    events that result. *)
Theorem C10_executeStopLossTakeProfit_unconditional
  (e : Env) (trader : address) (positionId : bytes32) (s : State) :
  let pos := positionOf s trader positionId in
  EncryptedPosition.isOpen pos = true ->
  exists (slTriggered tpTriggered : TFHE.ebool) (pnl : TFHE.euint64) (s' : State),
    checkStopLossTakeProfit trader positionId s = Done (slTriggered, tpTriggered) s
    /\ calculatePnL trader positionId s = Done pnl s
    /\ executeStopLossTakeProfit e trader positionId s = Done tt s'
    /\ positionOf s' trader positionId = EncryptedPosition.with_isOpen false pos
    /\ balanceOf s' trader
       = TFHE.add (balanceOf s trader) (TFHE.add (EncryptedPosition.collateral pos) pnl)
    /\ (forall a, a <> trader -> balanceOf s' a = balanceOf s a)
    /\ events s' = events s ++ [PositionClosed trader positionId]
    /\ (forall stopLoss takeProfit : TFHE.euint64,
          let s2 := withBrackets trader positionId stopLoss takeProfit s in
          let price := encryptedOraclePrice s in
          exists s2' : State,
            checkStopLossTakeProfit trader positionId s2
              = Done (if EncryptedPosition.isLong pos
                      then (price <? stopLoss, takeProfit <? price)
                      else (stopLoss <? price, price <? takeProfit)) s2
            /\ executeStopLossTakeProfit e trader positionId s2 = Done tt s2'
            /\ encryptedBalances s2' = encryptedBalances s'
            /\ closedIn s2' trader positionId
            /\ events s2' = events s').
Proof.
  cbv zeta. intros Hopen.
  destruct (checkStopLossTakeProfit_open s trader positionId Hopen) as (sl & tp & Hchk).
  exists sl, tp. eexists. eexists.
  split; [exact Hchk|].
  split; [now apply calculatePnL_open|].
  split; [now apply executeStopLossTakeProfit_open|].
  unfold creditedAndClosed.
  split; [apply positionOf_written|].
  split; [apply balanceOf_written|].
  split; [intros a Ha; now apply balanceOf_written_other|].
  split; [reflexivity|].
  intros stopLoss takeProfit.
  assert (Hpos2 : positionOf (withBrackets trader positionId stopLoss takeProfit s) trader positionId
                  = EncryptedPosition.with_brackets stopLoss takeProfit
                      (positionOf s trader positionId))
    by apply positionOf_written.
  assert (Hopen2 : EncryptedPosition.isOpen
                     (positionOf (withBrackets trader positionId stopLoss takeProfit s)
                        trader positionId) = true)
    by (rewrite Hpos2; exact Hopen).
  eexists. split; [|split; [now apply executeStopLossTakeProfit_open|]].
  - unfold checkStopLossTakeProfit. run. rewrite Hopen2. run. rewrite Hpos2. simpl.
    now destruct (EncryptedPosition.isLong (positionOf s trader positionId)).
  - rewrite Hpos2. unfold creditedAndClosed, closedIn.
    split; [reflexivity|]. split; [|reflexivity].
    change (positionOf (set_events ?f ?x)) with (positionOf x).
    now rewrite positionOf_written.
Qed.

Lemma C10_executeStopLossTakeProfit_unconditional_witness :
  exists s',
    executeStopLossTakeProfit (Demo.at_ Demo.bob 1005) Demo.alice Demo.alicePosition Demo.repriced
      = Done tt s'
    /\ balanceOf s' Demo.alice = 1200
    /\ balanceOf s' Demo.bob = 0.
Proof.
  destruct (C10_executeStopLossTakeProfit_unconditional (Demo.at_ Demo.bob 1005) Demo.alice
              Demo.alicePosition Demo.repriced eq_refl)
    as (sl & tp & pnl & s' & _ & Hpnl & Hrun & _ & Hbal & Hother & _).
  exists s'. split; [exact Hrun|]. split.
  - rewrite Hbal. vm_compute in Hpnl. inversion Hpnl. vm_compute. reflexivity.
  - rewrite Hother by discriminate. vm_compute. reflexivity.
Defined.

(** C3, as stated, fails.  Alice's position is open and healthy at price 120
    ([checkLiquidation] answers false).  On the confidential contract Bob's
    [liquidate] closes it and pays him 20, and no call to [checkLiquidation]
    is made on the way; on the plaintext stand-in, which does make that
    call, Bob's [liquidate] is refused and the position stays open. *)
Lemma C3_counterexample_liquidate_skips_checkLiquidation :
  EncryptedPosition.isOpen (positionOf Demo.repriced Demo.alice Demo.alicePosition) = true
  /\ checkLiquidation Demo.alice Demo.alicePosition Demo.repriced = Done false Demo.repriced
  /\ succeeds (liquidate (Demo.at_ Demo.bob 1005) Demo.alice Demo.alicePosition Demo.repriced)
     = true
  /\ CallLog.internalCalls
       (ConfidentialPerpDEXLogged.liquidate (Demo.at_ Demo.bob 1005) Demo.alice
          Demo.alicePosition) Demo.repriced = []
  /\ ~ ClaimSpec.liquidatesAsSpecified (Demo.at_ Demo.bob 1005) Demo.alice Demo.alicePosition
         Demo.repriced
  /\ ConfidentialPerpDEXMock.Position.isOpen
       (ConfidentialPerpDEXMock.positionOf Demo.mockRepriced Demo.alice Demo.alicePosition)
     = true
  /\ ConfidentialPerpDEXMock.liquidate (Demo.at_ Demo.bob 1005) Demo.alice Demo.alicePosition
       Demo.mockRepriced = Reverted "Position not liquidatable" Demo.mockRepriced
  /\ ~ ClaimSpec.mockLiquidatesAsSpecified (Demo.at_ Demo.bob 1005) Demo.alice
         Demo.alicePosition Demo.mockRepriced.
Proof.
  do 4 (split; [vm_compute; reflexivity|]).
  split.
  { intros (Hcall & _). vm_compute in Hcall. now apply elem_of_nil in Hcall. }
  do 2 (split; [vm_compute; reflexivity|]).
  intros (_ & s' & Hrun & _). vm_compute in Hrun. discriminate.
Qed.

(** C3, amended.  [liquidate] on the confidential contract has no ownership
    restriction and no health test: for every caller and every open position
    it closes the position and credits the caller one tenth of the
    position's collateral, emitting [LiquidationTriggered]; it makes no call
    to another contract function, [checkLiquidation] included, and its effect
    is the same at every oracle price.  The plaintext stand-in's [liquidate]
    does call [checkLiquidation] first and refuses when the answer is
    false. *)
Theorem C3_liquidate_skips_checkLiquidation
  (e : Env) (trader : address) (positionId : bytes32)
  (s : State) (sm : ConfidentialPerpDEXMock.State) :
  let caller := msg_sender e in
  let pos := positionOf s trader positionId in
  EncryptedPosition.isOpen pos = true ->
  (exists s' : State,
     liquidate e trader positionId s = Done tt s'
     /\ positionOf s' trader positionId = EncryptedPosition.with_isOpen false pos
     /\ balanceOf s' caller
        = TFHE.add (balanceOf s caller) (EncryptedPosition.collateral pos / 10)
     /\ (forall a, a <> caller -> balanceOf s' a = balanceOf s a)
     /\ events s' = events s ++ [LiquidationTriggered trader positionId]
     /\ (forall price : TFHE.euint64,
           liquidate e trader positionId (set_encryptedOraclePrice price s)
           = Done tt (set_encryptedOraclePrice price s')))
  /\ CallLog.erases (ConfidentialPerpDEXLogged.liquidate e trader positionId)
       (liquidate e trader positionId)
  /\ CallLog.internalCalls (ConfidentialPerpDEXLogged.liquidate e trader positionId) s = []
  /\ CallLog.erases (ConfidentialPerpDEXLogged.checkLiquidation trader positionId)
       (checkLiquidation trader positionId)
  /\ CallLog.internalCalls (ConfidentialPerpDEXLogged.checkLiquidation trader positionId) s
     = [CallLog.CalculatePnL]
  /\ CallLog.erases (ConfidentialPerpDEXMockLogged.liquidate e trader positionId)
       (ConfidentialPerpDEXMock.liquidate e trader positionId)
  /\ (ConfidentialPerpDEXMock.Position.isOpen
        (ConfidentialPerpDEXMock.positionOf sm trader positionId) = true ->
      (exists rest,
         CallLog.internalCalls (ConfidentialPerpDEXMockLogged.liquidate e trader positionId) sm
         = CallLog.CheckLiquidation :: rest)
      /\ (ConfidentialPerpDEXMock.checkLiquidation trader positionId sm = Done false sm ->
          ConfidentialPerpDEXMock.liquidate e trader positionId sm
          = Reverted "Position not liquidatable" sm)).
Proof.
  cbv zeta. intros Hopen. split.
  { eexists. split; [now apply liquidate_open|]. unfold liquidated. split.
    { change (positionOf (set_events ?f (set_encryptedBalances ?g ?x))) with (positionOf x).
      apply positionOf_written. }
    change (balanceOf (set_events ?f ?x)) with (balanceOf x).
    split; [apply balanceOf_written|].
    split; [intros a Ha; now rewrite balanceOf_written_other by auto|].
    split; [reflexivity|].
    intros price. rewrite liquidate_open by exact Hopen. reflexivity. }
  split; [apply CallLogFacts.logged_liquidate_erases|].
  split.
  { unfold CallLog.internalCalls.
    now rewrite (CallLogFacts.logged_liquidate_silent e trader positionId (s, [])). }
  split; [apply CallLogFacts.logged_checkLiquidation_erases|].
  split; [now apply CallLogFacts.logged_checkLiquidation_calls|].
  split; [apply CallLogFacts.mock_logged_liquidate_erases|].
  intros Hmopen. split; [now apply CallLogFacts.mock_logged_liquidate_calls|].
  intros Hchk. now apply ConfidentialPerpDEXMockFacts.mock_liquidate_healthy.
Qed.

Lemma C3_liquidate_skips_checkLiquidation_witness :
  exists s',
    liquidate (Demo.at_ Demo.bob 1005) Demo.alice Demo.alicePosition Demo.repriced = Done tt s'
    /\ balanceOf s' Demo.bob = 20
    /\ EncryptedPosition.isOpen (positionOf s' Demo.alice Demo.alicePosition) = false.
Proof.
  destruct (C3_liquidate_skips_checkLiquidation (Demo.at_ Demo.bob 1005) Demo.alice
              Demo.alicePosition Demo.repriced Demo.mockRepriced eq_refl)
    as ((s' & Hrun & Hpos & Hbal & _) & _).
  exists s'. split; [exact Hrun|]. split.
  - etransitivity; [exact Hbal|]. vm_compute. reflexivity.
  - rewrite Hpos. reflexivity.
Defined.

(** C2.  Every [placeOrder] appends the new order and runs the matching pass,
    which scans the book in index order; on the first unfilled order of the
    opposite side it marks that order and the new one as filled, without
    regard to the price comparison (the fill flags are the same for every
    price of the new order) and without looking further for a better price.
    Placing a buy order and then a sell order on an empty book leaves both
    filled and the book size at 2, on the confidential contract and, for the
    prices 50 and 40, on the plaintext stand-in. *)
Theorem C2_placeOrder_fills_first_counterpart
  (asEuint64 : bytes -> TFHE.euint64)
  (e : Env) (encPrice encSize : bytes) (isLong : bool) (s : State) :
  let ob := orderBook s in
  let newOrder := EncryptedOrder.mk (asEuint64 encPrice) (asEuint64 encSize)
                    (msg_sender e) isLong false (block_timestamp e) in
  exists s' : State,
    placeOrder asEuint64 e encPrice encSize isLong s = Done (length ob) s'
    /\ orderBook s' = matchedBook ob newOrder
    /\ getOrderBookSize s' = Done (S (length ob)) s'
    /\ match firstCounterpart isLong ob 0 with
       | Some j =>
           exists o,
             ob !! j = Some o
             /\ EncryptedOrder.isLong o = negb isLong
             /\ EncryptedOrder.isFilled o = false
             /\ (forall k o', (k < j)%nat -> ob !! k = Some o' ->
                   EncryptedOrder.isLong o' = isLong \/ EncryptedOrder.isFilled o' = true)
             /\ orderBook s' !! j = Some (EncryptedOrder.with_isFilled true o)
             /\ orderBook s' !! length ob = Some (EncryptedOrder.with_isFilled true newOrder)
             /\ (forall k, k <> j -> (k < length ob)%nat -> orderBook s' !! k = ob !! k)
       | None =>
           (forall o, o ∈ ob ->
              EncryptedOrder.isLong o = isLong \/ EncryptedOrder.isFilled o = true)
           /\ orderBook s' = ob ++ [newOrder]
       end
    /\ (forall encPrice' : bytes,
          exists s'' : State,
            placeOrder asEuint64 e encPrice' encSize isLong s = Done (length ob) s''
            /\ EncryptedOrder.isFilled <$> orderBook s''
               = EncryptedOrder.isFilled <$> orderBook s')
    /\ (ob = [] -> isLong = true ->
        forall (e2 : Env) (encPrice2 encSize2 : bytes),
        exists s2 : State,
          placeOrder asEuint64 e2 encPrice2 encSize2 false s' = Done 1%nat s2
          /\ EncryptedOrder.isFilled <$> orderBook s2 = [true; true]
          /\ getOrderBookSize s2 = Done 2%nat s2)
    /\ (forall (sm : ConfidentialPerpDEXMock.State) (e2 : Env) (encPrice2 encSize2 : bytes),
          ConfidentialPerpDEXMock.orderBook sm = [] ->
          ConfidentialPerpDEXMock._mockDecrypt encPrice = 50 ->
          ConfidentialPerpDEXMock._mockDecrypt encPrice2 = 40 ->
          exists sm1 sm2,
            ConfidentialPerpDEXMock.placeOrder e encPrice encSize true sm = Done 0%nat sm1
            /\ ConfidentialPerpDEXMock.placeOrder e2 encPrice2 encSize2 false sm1 = Done 1%nat sm2
            /\ ConfidentialPerpDEXMock.Order.isFilled <$> ConfidentialPerpDEXMock.orderBook sm2
               = [true; true]
            /\ ConfidentialPerpDEXMock.getOrderBookSize sm2 = Done 2%nat sm2).
Proof.
  cbv zeta.
  set (ob := orderBook s).
  set (newOrder := EncryptedOrder.mk (asEuint64 encPrice) (asEuint64 encSize)
                     (msg_sender e) isLong false (block_timestamp e)).
  eexists. split; [apply placeOrder_ok|].
  change (orderBook (set_events ?f (set_orderBook ?g ?x))) with (g (orderBook x)).
  cbv beta. fold ob newOrder.
  split; [reflexivity|].
  split.
  { unfold getOrderBookSize. run. fold ob newOrder. do 2 f_equal.
    unfold matchedBook. destruct (firstCounterpart _ ob 0);
      rewrite length_app, ?length_alter; simpl; lia. }
  split.
  { unfold matchedBook. simpl EncryptedOrder.isLong.
    destruct (firstCounterpart isLong ob 0) as [j|] eqn:Hfirst.
    - pose proof (firstCounterpart_bounds _ _ _ _ Hfirst) as Hj.
      destruct (firstCounterpart_found _ _ _ _ Hfirst) as (o & Hlook & Hcp & Hbefore).
      rewrite Nat.sub_0_r in Hlook, Hbefore.
      destruct (ClaimFacts.isCounterpart_true _ _ Hcp) as [Hside Hunfilled].
      exists o. split; [exact Hlook|]. split; [exact Hside|]. split; [exact Hunfilled|].
      split.
      { intros k o' Hk Hko. apply ClaimFacts.isCounterpart_false. eauto. }
      split.
      { rewrite lookup_app_l by (rewrite length_alter; lia).
        rewrite list_lookup_alter_eq. now rewrite Hlook. }
      split.
      { rewrite lookup_app_r by (rewrite length_alter; lia).
        rewrite length_alter, Nat.sub_diag. reflexivity. }
      intros k Hkj Hk. rewrite lookup_app_l by (rewrite length_alter; lia).
      now rewrite list_lookup_alter_ne by auto.
    - split; [|reflexivity].
      intros o Ho. apply ClaimFacts.isCounterpart_false.
      eapply firstCounterpart_none; eauto. }
  split.
  { intros encPrice'. eexists. split; [apply placeOrder_ok|].
    change (orderBook (set_events ?f (set_orderBook ?g ?x))) with (g (orderBook x)).
    cbv beta. fold ob. now apply ClaimFacts.matchedBook_flags. }
  split.
  { intros Hob Hlong e2 encPrice2 encSize2. subst isLong. unfold newOrder. rewrite Hob.
    eexists. split; [rewrite placeOrder_ok; reflexivity|].
    split; reflexivity. }
  intros sm e2 encPrice2 encSize2 Hob Hp1 Hp2.
  now apply MockScenarioFacts.mock_scenarioC.
Qed.

Lemma C2_placeOrder_fills_first_counterpart_witness :
  (exists s1 s2,
     placeOrder Demo.decode (Demo.at_ Demo.alice 1003) (Demo.encode 50) (Demo.encode 5) true
       Demo.funded = Done 0%nat s1
     /\ placeOrder Demo.decode (Demo.at_ Demo.bob 1004) (Demo.encode 40) (Demo.encode 5) false s1
        = Done 1%nat s2
     /\ EncryptedOrder.isFilled <$> orderBook s2 = [true; true]
     /\ getOrderBookSize s2 = Done 2%nat s2)
  /\ (exists sm1 sm2,
        ConfidentialPerpDEXMock.placeOrder (Demo.at_ Demo.alice 1003) (Demo.encode 50)
          (Demo.encode 5) true Demo.mockFunded = Done 0%nat sm1
        /\ ConfidentialPerpDEXMock.placeOrder (Demo.at_ Demo.bob 1004) (Demo.encode 40)
             (Demo.encode 5) false sm1 = Done 1%nat sm2
        /\ ConfidentialPerpDEXMock.getOrderBookSize sm2 = Done 2%nat sm2).
Proof.
  destruct (C2_placeOrder_fills_first_counterpart Demo.decode (Demo.at_ Demo.alice 1003)
              (Demo.encode 50) (Demo.encode 5) true Demo.funded)
    as (s1 & Hfirst & _ & _ & _ & _ & Hscenario & Hmock).
  split.
  - destruct (Hscenario eq_refl eq_refl (Demo.at_ Demo.bob 1004) (Demo.encode 40) (Demo.encode 5))
      as (s2 & Hsecond & Hflags & Hsize).
    exists s1, s2. repeat split; assumption.
  - destruct (Hmock Demo.mockFunded (Demo.at_ Demo.bob 1004) (Demo.encode 40) (Demo.encode 5))
      as (sm1 & sm2 & H1 & H2 & _ & Hsize); try (vm_compute; reflexivity).
    exists sm1, sm2. repeat split; assumption.
Defined.




(** C9, as stated, fails on the error raised.  Bob calls
    [updateStopLossTakeProfit] with the id of Alice's open position: the call
    fails with "Position not open", the error of a closed or missing
    position, and not with an authorization error. *)
Lemma C9_counterexample_non_owner_gets_invalid_state :
  EncryptedPosition.isOpen (positionOf Demo.opened Demo.alice Demo.alicePosition) = true
  /\ updateStopLossTakeProfit Demo.decode (Demo.at_ Demo.bob 1005) Demo.alicePosition
       (Demo.encode 90) (Demo.encode 150) Demo.opened
     = Reverted "Position not open" Demo.opened
  /\ classify "Position not open" = InvalidStateError
  /\ ~ failsWith UnauthorizedError
         (updateStopLossTakeProfit Demo.decode (Demo.at_ Demo.bob 1005) Demo.alicePosition
            (Demo.encode 90) (Demo.encode 150) Demo.opened).
Proof.
  do 3 (split; [vm_compute; reflexivity|]).
  intros (reason & s' & Hrun & Hclass).
  vm_compute in Hrun. inversion Hrun; subst reason. vm_compute in Hclass. discriminate.
Qed.

(** C9, amended.  [updateStopLossTakeProfit] addresses only the caller's own
    positions.  A call naming an id under which the caller has no open
    position, which is the case of a caller who is not the owner, fails with
    "Position not open" (InvalidStateError) and writes nothing; whatever the
    outcome, no position other than the caller's own under that id changes;
    and a call by the owner on an open position overwrites exactly the
    stop-loss and take-profit fields and emits [StopLossTakeProfitUpdated]. *)
Theorem C9_updateStopLossTakeProfit_own_position_only
  (asEuint64 : bytes -> TFHE.euint64)
  (e : Env) (positionId : bytes32) (encStopLoss encTakeProfit : bytes) (s : State) :
  let caller := msg_sender e in
  let pos := positionOf s caller positionId in
  let call := updateStopLossTakeProfit asEuint64 e positionId encStopLoss encTakeProfit in
  (EncryptedPosition.isOpen pos = false ->
     call s = Reverted "Position not open" s
     /\ failsWith InvalidStateError (call s)
     /\ transact call s = s)
  /\ (forall trader p, (trader, p) <> (caller, positionId) ->
        positionOf (transact call s) trader p = positionOf s trader p)
  /\ (EncryptedPosition.isOpen pos = true ->
      exists s',
        call s = Done tt s'
        /\ positionOf s' caller positionId
           = EncryptedPosition.with_brackets (asEuint64 encStopLoss) (asEuint64 encTakeProfit) pos
        /\ EncryptedPosition.stopLoss (positionOf s' caller positionId) = asEuint64 encStopLoss
        /\ EncryptedPosition.takeProfit (positionOf s' caller positionId) = asEuint64 encTakeProfit
        /\ EncryptedPosition.isOpen (positionOf s' caller positionId) = true
        /\ encryptedBalances s' = encryptedBalances s
        /\ events s' = events s ++ [StopLossTakeProfitUpdated caller positionId]).
Proof.
  cbv zeta. split; [|split].
  - intros Hc.
    pose proof (updateStopLossTakeProfit_closed asEuint64 e positionId encStopLoss
                  encTakeProfit s Hc) as Hr.
    split; [exact Hr|]. split.
    + eexists "Position not open", _. split; [exact Hr | reflexivity].
    + unfold transact. now rewrite Hr.
  - intros trader p Hne. unfold transact.
    destruct (EncryptedPosition.isOpen (positionOf s (msg_sender e) positionId)) eqn:Ho.
    + rewrite updateStopLossTakeProfit_open by assumption.
      change (positionOf (set_events ?f ?x)) with (positionOf x).
      now apply positionOf_written_other.
    + now rewrite updateStopLossTakeProfit_closed.
  - intros Ho. eexists. split; [now apply updateStopLossTakeProfit_open|].
    change (positionOf (set_events ?f ?x)) with (positionOf x).
    rewrite positionOf_written. repeat split. exact Ho.
Qed.

Lemma C9_updateStopLossTakeProfit_own_position_only_witness :
  (updateStopLossTakeProfit Demo.decode (Demo.at_ Demo.bob 1005) Demo.alicePosition
     (Demo.encode 90) (Demo.encode 150) Demo.opened = Reverted "Position not open" Demo.opened)
  /\ (exists s',
        updateStopLossTakeProfit Demo.decode (Demo.at_ Demo.alice 1005) Demo.alicePosition
          (Demo.encode 90) (Demo.encode 150) Demo.opened = Done tt s'
        /\ EncryptedPosition.stopLoss (positionOf s' Demo.alice Demo.alicePosition) = 90
        /\ EncryptedPosition.takeProfit (positionOf s' Demo.alice Demo.alicePosition) = 150).
Proof.
  split.
  - destruct (C9_updateStopLossTakeProfit_own_position_only Demo.decode (Demo.at_ Demo.bob 1005)
                Demo.alicePosition (Demo.encode 90) (Demo.encode 150) Demo.opened)
      as (Hclosed & _).
    destruct Hclosed as (Hr & _); [vm_compute; reflexivity | exact Hr].
  - destruct (C9_updateStopLossTakeProfit_own_position_only Demo.decode (Demo.at_ Demo.alice 1005)
                Demo.alicePosition (Demo.encode 90) (Demo.encode 150) Demo.opened)
      as (_ & _ & Hopen).
    destruct Hopen as (s' & Hrun & _ & Hsl & Htp & _); [vm_compute; reflexivity|].
    exists s'. split; [exact Hrun|].
    split; (etransitivity; [eassumption|]; vm_compute; reflexivity).
Defined.

(** * Further properties of the code *)

(** ** The stand-in's byte decoding *)

Module DecodeFacts.
Import ConfidentialPerpDEXMock MockSpec.

Lemma from_be_app acc l1 l2 : from_be acc (l1 ++ l2) = from_be (from_be acc l1) l2.
Proof. revert acc. induction l1 as [|b l1 IH]; intros acc; simpl; [reflexivity | apply IH]. Qed.

Lemma from_be_zeros n acc : from_be acc (replicate n 0) = acc * 256 ^ Z.of_nat n.
Proof.
  revert acc. induction n as [|n IH]; intros acc.
  - simpl. lia.
  - cbn [replicate from_be]. rewrite IH, Nat2Z.inj_succ, Z.pow_succ_r by lia. lia.
Qed.

Lemma length_to_be n v : length (to_be n v) = n.
Proof.
  revert v. induction n as [|n IH]; intros v; simpl; [reflexivity|].
  rewrite length_app, IH. simpl. lia.
Qed.

Lemma to_be_octets n v : octets (to_be n v).
Proof.
  revert v. induction n as [|n IH]; intros v; simpl; [constructor|].
  apply Forall_app. split; [apply IH|]. repeat constructor; apply Z.mod_pos_bound; lia.
Qed.

Lemma from_be_to_be n v : from_be 0 (to_be n v) = v mod 256 ^ Z.of_nat n.
Proof.
  revert v. induction n as [|n IH]; intros v.
  - simpl. now rewrite Z.mod_1_r.
  - cbn [to_be]. rewrite from_be_app, IH. cbn [from_be].
    rewrite Nat2Z.inj_succ, Z.pow_succ_r by lia.
    rewrite (Z.rem_mul_r v 256 (256 ^ Z.of_nat n)) by lia. lia.
Qed.

Lemma from_be_bound data : forall acc,
  octets data -> 0 <= acc ->
  acc * 256 ^ Z.of_nat (length data) <= from_be acc data
    < (acc + 1) * 256 ^ Z.of_nat (length data).
Proof.
  induction data as [|b data IH]; intros acc Hoct Hacc.
  - simpl. lia.
  - inversion Hoct as [|? ? Hb Hrest]; subst.
    cbn [from_be length]. rewrite Nat2Z.inj_succ, Z.pow_succ_r by lia.
    specialize (IH (acc * 256 + b) Hrest ltac:(lia)).
    assert (0 < 256 ^ Z.of_nat (length data)) by (apply Z.pow_pos_nonneg; lia).
    nia.
Qed.

Lemma mockDecrypt_short data :
  (length data < 32)%nat -> _mockDecrypt data = from_be 0 data.
Proof.
  intros Hlen. unfold _mockDecrypt.
  destruct data as [|b data]; [reflexivity|].
  destruct (Nat.eqb_spec (length (b :: data)) 0); [discriminate|].
  destruct (Nat.ltb_spec (length (b :: data)) 32); [|lia].
  now rewrite from_be_app, from_be_zeros.
Qed.

Lemma mockDecrypt_long data :
  (32 <= length data)%nat -> _mockDecrypt data = from_be 0 (take 32 data).
Proof.
  intros Hlen. unfold _mockDecrypt.
  destruct (Nat.eqb_spec (length data) 0); [lia|].
  destruct (Nat.ltb_spec (length data) 32); [lia|]. reflexivity.
Qed.

End DecodeFacts.

(** X1.  Decoding inverts encoding: [_mockDecrypt] returns [v] on the 32
    bytes that [mockEncrypt] produces for any [v] below 2^256, and also on
    any shorter big-endian encoding of [v] (such as the 8 bytes the web
    client sends). *)
Theorem X1_mockDecrypt_inverts_encoding (n : nat) (v : Z) :
  (n <= 32)%nat ->
  0 <= v < 256 ^ Z.of_nat n ->
  ConfidentialPerpDEXMock._mockDecrypt (ConfidentialPerpDEXMock.to_be n v) = v
  /\ (n = 32%nat ->
      ConfidentialPerpDEXMock._mockDecrypt (ConfidentialPerpDEXMock.mockEncrypt v) = v).
Proof.
  intros Hn Hv.
  assert (Hround : ConfidentialPerpDEXMock._mockDecrypt (ConfidentialPerpDEXMock.to_be n v) = v).
  { destruct (Nat.eq_dec n 32%nat) as [->|Hne].
    - rewrite DecodeFacts.mockDecrypt_long by (rewrite DecodeFacts.length_to_be; lia).
      rewrite take_ge by (rewrite DecodeFacts.length_to_be; lia).
      rewrite DecodeFacts.from_be_to_be. now apply Z.mod_small.
    - rewrite DecodeFacts.mockDecrypt_short by (rewrite DecodeFacts.length_to_be; lia).
      rewrite DecodeFacts.from_be_to_be. now apply Z.mod_small. }
  split; [exact Hround|]. intros ->. exact Hround.
Qed.

Lemma X1_mockDecrypt_inverts_encoding_witness :
  ConfidentialPerpDEXMock._mockDecrypt (ConfidentialPerpDEXMock.mockEncrypt 5000000) = 5000000
  /\ ConfidentialPerpDEXMock._mockDecrypt (ConfidentialPerpDEXMock.to_be 8 5000000) = 5000000.
Proof.
  split.
  - refine (proj2 (X1_mockDecrypt_inverts_encoding 32 5000000 _ _) eq_refl);
      [lia | split; [lia | reflexivity]].
  - refine (proj1 (X1_mockDecrypt_inverts_encoding 8 5000000 _ _));
      [lia | split; [lia | reflexivity]].
Defined.

(** X2.  [_mockDecrypt] reads at most 32 bytes and never leaves the range of
    [uint256]: the empty string decodes to 0, leading zero bytes do not change
    the value of a short string, whatever follows the 32nd byte is ignored,
    and on octets the result is below 2^256. *)
Theorem X2_mockDecrypt_padding_truncation_range (data extra : bytes) :
  ConfidentialPerpDEXMock._mockDecrypt [] = 0
  /\ ((length data < 31)%nat ->
      ConfidentialPerpDEXMock._mockDecrypt (0 :: data) = ConfidentialPerpDEXMock._mockDecrypt data)
  /\ ((32 <= length data)%nat ->
      ConfidentialPerpDEXMock._mockDecrypt (data ++ extra)
      = ConfidentialPerpDEXMock._mockDecrypt data)
  /\ (MockSpec.octets data ->
      0 <= ConfidentialPerpDEXMock._mockDecrypt data < 2 ^ 256).
Proof.
  split; [reflexivity|]. split; [|split].
  - intros Hlen.
    rewrite !DecodeFacts.mockDecrypt_short by (simpl; lia). reflexivity.
  - intros Hlen.
    rewrite !DecodeFacts.mockDecrypt_long by (rewrite ?length_app; lia).
    now rewrite take_app_le by lia.
  - intros Hoct.
    destruct (Nat.lt_ge_cases (length data) 32%nat) as [Hshort|Hlong].
    + rewrite DecodeFacts.mockDecrypt_short by assumption.
      pose proof (DecodeFacts.from_be_bound data 0 Hoct ltac:(lia)) as Hb.
      assert (256 ^ Z.of_nat (length data) <= 256 ^ 32)
        by (apply Z.pow_le_mono_r; lia).
      change (2 ^ 256) with (256 ^ 32). lia.
    + rewrite DecodeFacts.mockDecrypt_long by assumption.
      assert (Hoct' : MockSpec.octets (take 32 data)) by (apply Forall_take; exact Hoct).
      pose proof (DecodeFacts.from_be_bound (take 32 data) 0 Hoct' ltac:(lia)) as Hb.
      rewrite length_take, Nat.min_l in Hb by lia.
      change (2 ^ 256) with (256 ^ 32). change (Z.of_nat 32) with 32 in Hb. lia.
Qed.

Lemma X2_mockDecrypt_padding_truncation_range_witness :
  ConfidentialPerpDEXMock._mockDecrypt (0 :: [1; 2]) = ConfidentialPerpDEXMock._mockDecrypt [1; 2]
  /\ ConfidentialPerpDEXMock._mockDecrypt (ConfidentialPerpDEXMock.mockEncrypt 7 ++ [9; 9]) = 7
  /\ 0 <= ConfidentialPerpDEXMock._mockDecrypt [255; 255] < 2 ^ 256.
Proof.
  split; [|split].
  - destruct (X2_mockDecrypt_padding_truncation_range [1; 2] []) as (_ & Hpad & _).
    apply Hpad. simpl. lia.
  - destruct (X2_mockDecrypt_padding_truncation_range (ConfidentialPerpDEXMock.mockEncrypt 7)
                [9; 9]) as (_ & _ & Htrunc & _).
    etransitivity; [apply Htrunc; vm_compute; lia | vm_compute; reflexivity].
  - destruct (X2_mockDecrypt_padding_truncation_range [255; 255] []) as (_ & _ & _ & Hrange).
    apply Hrange. repeat constructor; lia.
Defined.

(** ** One transaction of the confidential ledger, case by case *)

Module StepFacts.
Import ConfidentialPerpDEX LedgerSpec Ledger BookSpec StepSpec.
Import ConfidentialPerpDEXFacts MatchingFacts LedgerFacts.

Section Facts.
Variable asEuint64 : bytes -> TFHE.euint64.
Variable keccak256 : address * Z * TFHE.euint64 -> bytes32.

Lemma deposit_ok e encryptedAmount s :
  deposit asEuint64 e encryptedAmount s =
    Done tt
      (set_events (fun l => l ++ [BalanceDeposited (msg_sender e) 0])
         (set_encryptedBalances
            (fun m => <[msg_sender e :=
                          match encryptedBalances s !! msg_sender e with
                          | Some currentBalance =>
                              TFHE.add currentBalance (asEuint64 encryptedAmount)
                          | None => asEuint64 encryptedAmount
                          end]> m) s)).
Proof. unfold deposit. run. now destruct (encryptedBalances s !! msg_sender e). Qed.

Lemma openPosition_zero_leverage e sz long sl tp s :
  openPosition asEuint64 keccak256 e sz 0 long sl tp s = Reverted PanicDivisionByZero s.
Proof. unfold openPosition. now run. Qed.

Lemma updateOraclePrice_admin e encNewPrice s :
  msg_sender e = admin s ->
  updateOraclePrice asEuint64 e encNewPrice s =
    Done tt (set_events (fun l => l ++ [PriceUpdated (block_timestamp e)])
               (set_encryptedOraclePrice (asEuint64 encNewPrice) s)).
Proof.
  intros Ha. unfold updateOraclePrice, onlyAdmin. run.
  now rewrite bool_decide_eq_true_2 by assumption.
Qed.

Lemma updateOraclePrice_other e encNewPrice s :
  msg_sender e <> admin s ->
  updateOraclePrice asEuint64 e encNewPrice s = Reverted "Only admin" s.
Proof.
  intros Ha. unfold updateOraclePrice, onlyAdmin. run.
  now rewrite bool_decide_eq_false_2 by assumption.
Qed.

Lemma step_stepped e c s :
  Stepped asEuint64 keccak256 e s c (step asEuint64 keccak256 (e, c) s).
Proof.
  unfold Ledger.step, transact. cbn [fst snd].
  destruct c as [a|sz lev long sl tp|p|p sl tp|t p|t p|pr sz long|pr]; cbn [Ledger.dispatch].
  - rewrite deposit_ok. constructor.
  - unfold bind. destruct (Z.eq_dec lev 0) as [->|Hl].
    + rewrite openPosition_zero_leverage. constructor.
    + rewrite openPosition_ok by assumption. cbv zeta. now constructor.
  - destruct (EncryptedPosition.isOpen (positionOf s (msg_sender e) p)) eqn:Ho.
    + rewrite closePosition_open by assumption. now constructor.
    + rewrite closePosition_closed by assumption. constructor.
  - destruct (EncryptedPosition.isOpen (positionOf s (msg_sender e) p)) eqn:Ho.
    + rewrite updateStopLossTakeProfit_open by assumption. now constructor.
    + rewrite updateStopLossTakeProfit_closed by assumption. constructor.
  - destruct (EncryptedPosition.isOpen (positionOf s t p)) eqn:Ho.
    + rewrite executeStopLossTakeProfit_open by assumption. now constructor.
    + rewrite executeStopLossTakeProfit_closed by assumption. constructor.
  - destruct (EncryptedPosition.isOpen (positionOf s t p)) eqn:Ho.
    + rewrite liquidate_open by assumption. now constructor.
    + rewrite liquidate_closed by assumption. constructor.
  - unfold bind. rewrite placeOrder_ok. constructor.
  - destruct (decide (msg_sender e = admin s)) as [Ha|Ha].
    + rewrite updateOraclePrice_admin by assumption. now constructor.
    + rewrite updateOraclePrice_other by assumption. constructor.
Qed.

End Facts.
End StepFacts.

(** ** What a trace of transactions can and cannot change *)

Module TraceFacts.
Import ConfidentialPerpDEX LedgerSpec Ledger BookSpec StepSpec.
Import ConfidentialPerpDEXFacts MatchingFacts LedgerFacts StepFacts.

Section Facts.
Variable asEuint64 : bytes -> TFHE.euint64.
Variable keccak256 : address * Z * TFHE.euint64 -> bytes32.

Abbreviation step := (Ledger.step asEuint64 keccak256).
Abbreviation execute := (Ledger.execute asEuint64 keccak256).

Ltac by_cases e c s :=
  let H := fresh "Hstep" in
  let s' := fresh "s'" in
  let E := fresh "Es'" in
  pose proof (step_stepped asEuint64 keccak256 e c s) as H;
  remember (Ledger.step asEuint64 keccak256 (e, c) s) as s' eqn:E; clear E;
  destruct H.

Lemma execute_cons tx txs s : execute (tx :: txs) s = execute txs (step tx s).
Proof. reflexivity. Qed.

Lemma step_config tx s :
  admin (step tx s) = admin s
  /\ liquidationThreshold (step tx s) = liquidationThreshold s
  /\ fundingRate (step tx s) = fundingRate s.
Proof. destruct tx as [e c]. by_cases e c s; repeat split. Qed.

Lemma step_price tx s :
  setsPriceAs (admin s) tx = false ->
  encryptedOraclePrice (step tx s) = encryptedOraclePrice s.
Proof.
  destruct tx as [e c]. intros Hno. by_cases e c s; try reflexivity.
  unfold setsPriceAs in Hno. simpl in Hno.
  rewrite bool_decide_eq_true_2 in Hno by assumption. discriminate.
Qed.

Lemma step_balance a tx s :
  concernsBalance a tx = false -> balanceOf (step tx s) a = balanceOf s a.
Proof.
  destruct tx as [e c]. unfold concernsBalance. cbn [fst snd]. intros Hno.
  apply orb_false_elim in Hno as [Hsender Htarget].
  apply bool_decide_eq_false_1 in Hsender.
  by_cases e c s; try reflexivity.
  - change (balanceOf (set_events ?f ?x)) with (balanceOf x).
    now rewrite balanceOf_written_other.
  - change (balanceOf (set_events ?f (set_userPositionIds ?g (set_positions ?h ?x))))
      with (balanceOf x).
    now rewrite balanceOf_written_other.
  - unfold creditedAndClosed.
    change (balanceOf (set_events ?f (set_positions ?g ?x))) with (balanceOf x).
    now rewrite balanceOf_written_other.
  - apply bool_decide_eq_false_1 in Htarget. unfold creditedAndClosed.
    change (balanceOf (set_events ?f (set_positions ?g ?x))) with (balanceOf x).
    now rewrite balanceOf_written_other.
  - unfold liquidated.
    change (balanceOf (set_events ?f ?x)) with (balanceOf x).
    now rewrite balanceOf_written_other.
Qed.

Lemma step_userPositionIds u tx s :
  default [] (userPositionIds s !! u) `prefix_of` default [] (userPositionIds (step tx s) !! u).
Proof.
  destruct tx as [e c]. by_cases e c s; try reflexivity.
  simpl. destruct (decide (msg_sender e = u)) as [->|Hne].
  - rewrite lookup_insert_eq. simpl. now apply prefix_app_r.
  - now rewrite lookup_insert_ne.
Qed.

Lemma step_orderBook_other tx s :
  isPlaceOrder tx = false -> orderBook (step tx s) = orderBook s.
Proof. destruct tx as [e c]. intros Hno. by_cases e c s; try reflexivity. discriminate. Qed.

Lemma step_orderBook_place e pr sz long s :
  orderBook (step (e, PlaceOrder pr sz long) s)
  = matchedBook (orderBook s)
      (EncryptedOrder.mk (asEuint64 pr) (asEuint64 sz) (msg_sender e) long false
         (block_timestamp e)).
Proof.
  unfold Ledger.step, transact. cbn [fst snd Ledger.dispatch]. unfold bind.
  now rewrite placeOrder_ok.
Qed.

Lemma sameOrderLater_refl o : sameOrderLater o o.
Proof. repeat split; auto. Qed.

Lemma continuesBook_refl ob : continuesBook ob ob.
Proof. split; [lia|]. intros i o Ho. exists o. split; [exact Ho | apply sameOrderLater_refl]. Qed.

Lemma continuesBook_trans ob1 ob2 ob3 :
  continuesBook ob1 ob2 -> continuesBook ob2 ob3 -> continuesBook ob1 ob3.
Proof.
  intros [Hl1 H1] [Hl2 H2]. split; [lia|]. intros i o Ho.
  destruct (H1 i o Ho) as (o2 & Ho2 & S12). destruct (H2 i o2 Ho2) as (o3 & Ho3 & S23).
  exists o3. split; [exact Ho3|].
  destruct S12 as (? & ? & ? & ? & ? & F12). destruct S23 as (? & ? & ? & ? & ? & F23).
  repeat split; try congruence. auto.
Qed.

Lemma matchedBook_continues ob newOrder : continuesBook ob (matchedBook ob newOrder).
Proof.
  unfold matchedBook. destruct (firstCounterpart _ ob 0) as [j|] eqn:Hf.
  - split; [rewrite length_app, length_alter; lia|].
    intros i o Ho. pose proof (lookup_lt_Some _ _ _ Ho) as Hi.
    rewrite lookup_app_l by (rewrite length_alter; lia).
    destruct (decide (i = j)) as [->|Hne].
    + rewrite list_lookup_alter_eq, Ho. simpl. eexists. split; [reflexivity|].
      repeat split; auto.
    + rewrite list_lookup_alter_ne by auto. exists o. split; [exact Ho|].
      apply sameOrderLater_refl.
  - split; [rewrite length_app; lia|].
    intros i o Ho. exists o. split; [|apply sameOrderLater_refl].
    now apply lookup_app_l_Some.
Qed.

Lemma step_continuesBook tx s : continuesBook (orderBook s) (orderBook (step tx s)).
Proof.
  destruct tx as [e c]. destruct (isPlaceOrder (e, c)) eqn:Hp.
  - destruct c; try discriminate. rewrite step_orderBook_place. apply matchedBook_continues.
  - rewrite step_orderBook_other by assumption. apply continuesBook_refl.
Qed.

Lemma matchedBook_length ob newOrder : length (matchedBook ob newOrder) = S (length ob).
Proof.
  unfold matchedBook. destruct (firstCounterpart _ ob 0);
    rewrite length_app, ?length_alter; simpl; lia.
Qed.

Lemma filledOn_app side ob1 ob2 :
  filledOn side (ob1 ++ ob2) = (filledOn side ob1 + filledOn side ob2)%nat.
Proof. induction ob1 as [|o ob1 IH]; simpl; [reflexivity|]. rewrite IH. lia. Qed.

Lemma filledOn_alter isLong side ob : forall i j,
  firstCounterpart isLong ob i = Some j ->
  filledOn side (alter (EncryptedOrder.with_isFilled true) (j - i)%nat ob)
  = (filledOn side ob + (if Bool.eqb (negb isLong) side then 1 else 0))%nat.
Proof.
  induction ob as [|o ob IH]; intros i j Hf; simpl in Hf; [discriminate|].
  destruct (isCounterpart isLong o) eqn:Hc.
  - inversion Hf; subst. rewrite Nat.sub_diag.
    change (alter (EncryptedOrder.with_isFilled true) 0%nat (o :: ob))
      with (EncryptedOrder.with_isFilled true o :: ob).
    cbn [filledOn EncryptedOrder.with_isFilled EncryptedOrder.isLong EncryptedOrder.isFilled].
    destruct (ClaimFacts.isCounterpart_true _ _ Hc) as [Hside Hun].
    rewrite Hside, Hun, andb_true_r, andb_false_r. destruct (Bool.eqb (negb isLong) side); lia.
  - pose proof (firstCounterpart_bounds _ _ _ _ Hf) as Hb.
    replace (j - i)%nat with (S (j - S i)) by lia.
    change (alter (EncryptedOrder.with_isFilled true) (S (j - S i)) (o :: ob))
      with (o :: alter (EncryptedOrder.with_isFilled true) (j - S i)%nat ob).
    cbn [filledOn]. rewrite (IH (S i) j Hf). lia.
Qed.

Lemma matchedBook_balanced ob newOrder :
  EncryptedOrder.isFilled newOrder = false ->
  filledOn true ob = filledOn false ob ->
  filledOn true (matchedBook ob newOrder) = filledOn false (matchedBook ob newOrder).
Proof.
  intros Hnew Hbal. unfold matchedBook.
  destruct (firstCounterpart _ ob 0) as [j|] eqn:Hf; rewrite !filledOn_app.
  - pose proof (filledOn_alter _ true ob 0 j Hf) as Ht.
    pose proof (filledOn_alter _ false ob 0 j Hf) as Hfa.
    rewrite Nat.sub_0_r in Ht, Hfa. rewrite Ht, Hfa. simpl.
    destruct (EncryptedOrder.isLong newOrder); simpl; lia.
  - simpl. rewrite Hnew, !andb_false_r. lia.
Qed.

Lemma step_positions_terms tx s trader positionId :
  reopensPosition asEuint64 keccak256 trader positionId tx = false ->
  sameTerms (positionOf s trader positionId) (positionOf (step tx s) trader positionId)
  /\ (updatesBrackets trader positionId tx = false ->
      EncryptedPosition.stopLoss (positionOf (step tx s) trader positionId)
      = EncryptedPosition.stopLoss (positionOf s trader positionId)
      /\ EncryptedPosition.takeProfit (positionOf (step tx s) trader positionId)
         = EncryptedPosition.takeProfit (positionOf s trader positionId))
  /\ (EncryptedPosition.isOpen (positionOf (step tx s) trader positionId) = true ->
      EncryptedPosition.isOpen (positionOf s trader positionId) = true).
Proof.
  destruct tx as [e c]. intros Hre.
  assert (Hwrite : forall t p q (s0 : State),
             positionOf s0 = positionOf s ->
             sameTerms (positionOf s t p) q ->
             ((t, p) = (trader, positionId) ->
              (updatesBrackets trader positionId (e, c) = false ->
               EncryptedPosition.stopLoss q = EncryptedPosition.stopLoss (positionOf s t p)
               /\ EncryptedPosition.takeProfit q
                  = EncryptedPosition.takeProfit (positionOf s t p))
              /\ (EncryptedPosition.isOpen q = true ->
                  EncryptedPosition.isOpen (positionOf s t p) = true)) ->
             let s1 := set_positions (fun m => <[(t, p) := q]> m) s0 in
             sameTerms (positionOf s trader positionId) (positionOf s1 trader positionId)
             /\ (updatesBrackets trader positionId (e, c) = false ->
                 EncryptedPosition.stopLoss (positionOf s1 trader positionId)
                 = EncryptedPosition.stopLoss (positionOf s trader positionId)
                 /\ EncryptedPosition.takeProfit (positionOf s1 trader positionId)
                    = EncryptedPosition.takeProfit (positionOf s trader positionId))
             /\ (EncryptedPosition.isOpen (positionOf s1 trader positionId) = true ->
                 EncryptedPosition.isOpen (positionOf s trader positionId) = true)).
  { intros t p q s0 Hs0 Hterms Hsame s1. subst s1.
    destruct (decide ((t, p) = (trader, positionId))) as [Heq|Hne].
    - destruct (Hsame Heq) as [Hbr Hopen]. inversion Heq; subst.
      rewrite positionOf_written. auto.
    - rewrite positionOf_written_other by auto. rewrite Hs0.
      repeat split; auto. }
  by_cases e c s.
  - repeat split; auto.
  - change (positionOf (set_events ?f (set_userPositionIds ?g ?x))) with (positionOf x).
    rewrite positionOf_written_other; [repeat split; auto|].
    intros Heq. inversion Heq as [[Ht Hp]].
    unfold reopensPosition in Hre. cbn [fst snd] in Hre.
    rewrite !bool_decide_eq_true_2 in Hre by auto. discriminate.
  - unfold creditedAndClosed.
    change (positionOf (set_events ?f ?x)) with (positionOf x).
    apply Hwrite; [reflexivity | repeat split |].
    intros _. split; [auto | discriminate].
  - change (positionOf (set_events ?f ?x)) with (positionOf x).
    apply Hwrite; [reflexivity | repeat split |].
    intros Heq. inversion Heq; subst. split; [|auto].
    unfold updatesBrackets. cbn [fst snd].
    rewrite !bool_decide_eq_true_2 by reflexivity. discriminate.
  - unfold creditedAndClosed.
    change (positionOf (set_events ?f ?x)) with (positionOf x).
    apply Hwrite; [reflexivity | repeat split |].
    intros _. split; [auto | discriminate].
  - unfold liquidated.
    change (positionOf (set_events ?f (set_encryptedBalances ?g ?x))) with (positionOf x).
    apply Hwrite; [reflexivity | repeat split |].
    intros _. split; [auto | discriminate].
  - repeat split; auto.
  - repeat split; auto.
  - repeat split; auto.
Qed.

Lemma execute_orderBook txs : forall s,
  length (orderBook (execute txs s))
  = (length (orderBook s) + length (filter isPlaceOrder txs))%nat
  /\ continuesBook (orderBook s) (orderBook (execute txs s)).
Proof.
  induction txs as [|tx txs IH]; intros s.
  - simpl. rewrite Nat.add_0_r. split; [reflexivity | apply continuesBook_refl].
  - rewrite execute_cons. destruct (IH (step tx s)) as (Hlen & Hcont).
    assert (Hfirst : length (orderBook (step tx s))
                     = (length (orderBook s) + (if isPlaceOrder tx then 1 else 0))%nat).
    { destruct tx as [e c]. destruct (isPlaceOrder (e, c)) eqn:Hp.
      - destruct c; try discriminate. rewrite step_orderBook_place, matchedBook_length. lia.
      - rewrite step_orderBook_other by assumption. lia. }
    split.
    + rewrite Hlen, Hfirst. rewrite filter_cons.
      destruct (decide (isPlaceOrder tx)) as [Hd|Hd];
        destruct (isPlaceOrder tx); simpl in *; try lia; try (exfalso; auto); congruence.
    + eapply continuesBook_trans; [apply step_continuesBook | exact Hcont].
Qed.

Lemma execute_fills_paired txs : forall s,
  filledOn true (orderBook s) = filledOn false (orderBook s) ->
  filledOn true (orderBook (execute txs s)) = filledOn false (orderBook (execute txs s)).
Proof.
  induction txs as [|tx txs IH]; intros s Hbal; [exact Hbal|].
  rewrite execute_cons. apply IH.
  destruct tx as [e c]. destruct (isPlaceOrder (e, c)) eqn:Hp.
  - destruct c; try discriminate. rewrite step_orderBook_place.
    now apply matchedBook_balanced.
  - now rewrite step_orderBook_other by assumption.
Qed.

Lemma execute_config txs : forall s,
  admin (execute txs s) = admin s
  /\ liquidationThreshold (execute txs s) = liquidationThreshold s
  /\ fundingRate (execute txs s) = fundingRate s
  /\ (Forall (fun tx => setsPriceAs (admin s) tx = false) txs ->
      encryptedOraclePrice (execute txs s) = encryptedOraclePrice s).
Proof.
  induction txs as [|tx txs IH]; intros s; [repeat split|].
  rewrite execute_cons.
  destruct (IH (step tx s)) as (Ha & Ht & Hf & Hp).
  destruct (step_config tx s) as (Ha1 & Ht1 & Hf1).
  split; [congruence|]. split; [congruence|]. split; [congruence|].
  intros Hall. inversion Hall; subst. rewrite Hp.
  - now apply step_price.
  - now rewrite Ha1.
Qed.

End Facts.
End TraceFacts.

(** ** Transactions whose ciphertexts the library may refuse *)

Module CiphertextFacts.
Import ConfidentialPerpDEX LedgerSpec Ledger BookSpec StepSpec Ciphertext.
Import ConfidentialPerpDEXFacts MatchingFacts LedgerFacts StepFacts TraceFacts.

Section Facts.
Variable verify : bytes -> option string.
Variable asEuint64 : bytes -> TFHE.euint64.
Variable keccak256 : address * Z * TFHE.euint64 -> bytes32.

Lemma decode_accepted data s : verify data = None -> decode verify data s = Done tt s.
Proof. intros H. unfold decode. now rewrite H. Qed.

Lemma decode_refused data reason s :
  verify data = Some reason -> decode verify data s = Reverted reason s.
Proof. intros H. unfold decode. now rewrite H. Qed.

Lemma deposit_accepted e encryptedAmount s :
  verify encryptedAmount = None ->
  Ciphertext.deposit verify asEuint64 e encryptedAmount s
  = ConfidentialPerpDEX.deposit asEuint64 e encryptedAmount s.
Proof. intros H. unfold Ciphertext.deposit, bind. now rewrite decode_accepted. Qed.

Lemma deposit_refused e encryptedAmount reason s :
  verify encryptedAmount = Some reason ->
  Ciphertext.deposit verify asEuint64 e encryptedAmount s = Reverted reason s.
Proof.
  intros H. unfold Ciphertext.deposit, bind. now rewrite (decode_refused _ _ _ H).
Qed.

(** A refused transaction leaves the ledger as it was; an accepted one is
    the transaction on the decoded values. *)
Lemma stepChecked_spec tx s :
  stepChecked verify asEuint64 keccak256 tx s
  = if accepted verify (snd tx) then Ledger.step asEuint64 keccak256 tx s else s.
Proof.
  destruct tx as [e c]. unfold stepChecked, Ledger.step, accepted. cbn [fst snd].
  destruct c as [a|sz lev long sl tp|p|p sl tp|t p|t p|pr sz long|pr];
    cbn [submit inputs forallb Ledger.dispatch]; try reflexivity.
  - unfold Ciphertext.deposit, decode, transact, bind.
    destruct (verify a); reflexivity.
  - unfold Ciphertext.openPosition, decode, transact, bind.
    destruct (verify sz); [reflexivity|].
    destruct (verify sl); [reflexivity|].
    destruct (verify tp); reflexivity.
  - unfold Ciphertext.updateStopLossTakeProfit, transact.
    unfold bind at 1. unfold readPosition at 1.
    destruct (EncryptedPosition.isOpen (positionOf s (msg_sender e) p)) eqn:Hopen.
    + unfold bind, require, ret, decode.
      destruct (verify sl); [reflexivity|].
      destruct (verify tp); reflexivity.
    + rewrite updateStopLossTakeProfit_closed by exact Hopen.
      unfold bind, require, revert. now destruct (_ && _).
  - unfold Ciphertext.placeOrder, decode, transact, bind.
    destruct (verify pr); [reflexivity|].
    destruct (verify sz); reflexivity.
  - unfold Ciphertext.updateOraclePrice, transact.
    destruct (decide (msg_sender e = admin s)) as [Ha|Ha].
    + unfold bind at 1. unfold onlyAdmin at 1, bind at 1, get at 1.
      rewrite bool_decide_eq_true_2 by exact Ha. unfold require at 1, ret at 1.
      unfold bind, decode. destruct (verify pr); reflexivity.
    + rewrite updateOraclePrice_other by exact Ha.
      unfold bind at 1. unfold onlyAdmin at 1, bind at 1, get at 1.
      rewrite bool_decide_eq_false_2 by exact Ha. unfold require, revert.
      now destruct (_ && _).
Qed.

Lemma executeChecked_cons tx txs s :
  executeChecked verify asEuint64 keccak256 (tx :: txs) s
  = executeChecked verify asEuint64 keccak256 txs
      (stepChecked verify asEuint64 keccak256 tx s).
Proof. reflexivity. Qed.

(** With a library that accepts everything the checked run is the run
    on decoded values. *)
Lemma executeChecked_all_accepted txs : forall s,
  (forall data, verify data = None) ->
  executeChecked verify asEuint64 keccak256 txs s
  = Ledger.execute asEuint64 keccak256 txs s.
Proof.
  induction txs as [|tx txs IH]; intros s Hall; [reflexivity|].
  rewrite executeChecked_cons, execute_cons, stepChecked_spec.
  assert (Hacc : accepted verify (snd tx) = true).
  { unfold accepted. apply forallb_forall. intros data _. now rewrite Hall. }
  rewrite Hacc. now apply IH.
Qed.

Lemma stepChecked_orderBook tx s :
  length (orderBook (stepChecked verify asEuint64 keccak256 tx s))
  = (length (orderBook s) + (if placesOrder verify tx then 1 else 0))%nat
  /\ continuesBook (orderBook s) (orderBook (stepChecked verify asEuint64 keccak256 tx s))
  /\ (filledOn true (orderBook s) = filledOn false (orderBook s) ->
      filledOn true (orderBook (stepChecked verify asEuint64 keccak256 tx s))
      = filledOn false (orderBook (stepChecked verify asEuint64 keccak256 tx s))).
Proof.
  rewrite stepChecked_spec. unfold placesOrder.
  destruct (accepted verify (snd tx)).
  - rewrite andb_true_r. split; [|split].
    + destruct tx as [e c]. destruct (isPlaceOrder (e, c)) eqn:Hp.
      * destruct c; try discriminate.
        rewrite step_orderBook_place, matchedBook_length. lia.
      * rewrite step_orderBook_other by assumption. lia.
    + apply step_continuesBook.
    + intros Hbal. destruct tx as [e c]. destruct (isPlaceOrder (e, c)) eqn:Hp.
      * destruct c; try discriminate. rewrite step_orderBook_place.
        now apply matchedBook_balanced.
      * now rewrite step_orderBook_other by assumption.
  - rewrite andb_false_r. split; [lia|]. split; [apply continuesBook_refl | auto].
Qed.

Lemma executeChecked_orderBook txs : forall s,
  length (orderBook (executeChecked verify asEuint64 keccak256 txs s))
  = (length (orderBook s) + length (filter (placesOrder verify) txs))%nat
  /\ continuesBook (orderBook s)
       (orderBook (executeChecked verify asEuint64 keccak256 txs s))
  /\ (filledOn true (orderBook s) = filledOn false (orderBook s) ->
      filledOn true (orderBook (executeChecked verify asEuint64 keccak256 txs s))
      = filledOn false (orderBook (executeChecked verify asEuint64 keccak256 txs s))).
Proof.
  induction txs as [|tx txs IH]; intros s.
  - simpl. rewrite Nat.add_0_r. split; [reflexivity|].
    split; [apply continuesBook_refl | auto].
  - rewrite executeChecked_cons.
    destruct (stepChecked_orderBook tx s) as (Hlen1 & Hcont1 & Hpair1).
    destruct (IH (stepChecked verify asEuint64 keccak256 tx s)) as (Hlen & Hcont & Hpair).
    split; [|split].
    + rewrite Hlen, Hlen1, filter_cons.
      destruct (decide (placesOrder verify tx)) as [Hd|Hd];
        destruct (placesOrder verify tx); simpl in *; try lia; try (exfalso; auto); congruence.
    + eapply continuesBook_trans; eassumption.
    + auto.
Qed.

Lemma executeChecked_config txs : forall s,
  admin (executeChecked verify asEuint64 keccak256 txs s) = admin s
  /\ liquidationThreshold (executeChecked verify asEuint64 keccak256 txs s)
     = liquidationThreshold s
  /\ fundingRate (executeChecked verify asEuint64 keccak256 txs s) = fundingRate s
  /\ (Forall (fun tx => setsPriceAs (admin s) tx = false) txs ->
      encryptedOraclePrice (executeChecked verify asEuint64 keccak256 txs s)
      = encryptedOraclePrice s).
Proof.
  induction txs as [|tx txs IH]; intros s; [repeat split|].
  rewrite executeChecked_cons.
  destruct (IH (stepChecked verify asEuint64 keccak256 tx s)) as (Ha & Ht & Hf & Hp).
  assert (Hstep : admin (stepChecked verify asEuint64 keccak256 tx s) = admin s
                  /\ liquidationThreshold (stepChecked verify asEuint64 keccak256 tx s)
                     = liquidationThreshold s
                  /\ fundingRate (stepChecked verify asEuint64 keccak256 tx s)
                     = fundingRate s
                  /\ (setsPriceAs (admin s) tx = false ->
                      encryptedOraclePrice (stepChecked verify asEuint64 keccak256 tx s)
                      = encryptedOraclePrice s)).
  { rewrite stepChecked_spec. destruct (accepted verify (snd tx)); [|repeat split].
    destruct (step_config asEuint64 keccak256 tx s) as (Ha1 & Ht1 & Hf1).
    repeat split; auto. intros Hno. now apply step_price. }
  destruct Hstep as (Ha1 & Ht1 & Hf1 & Hp1).
  split; [congruence|]. split; [congruence|]. split; [congruence|].
  intros Hall. inversion Hall; subst. rewrite Hp.
  - now apply Hp1.
  - now rewrite Ha1.
Qed.

End Facts.
End CiphertextFacts.

Import BookSpec StepSpec StepFacts TraceFacts.

(** X3.  Only the admin can move the oracle price, on both contracts: from
    any other sender [updateOraclePrice] reverts with "Only admin" before
    anything is written; from the admin it stores the decoded price and emits
    [PriceUpdated], and leaves balances, positions, the order book and the
    admin as they were. *)
Theorem X3_updateOraclePrice_admin_only
  (asEuint64 : bytes -> TFHE.euint64) (e : Env) (encNewPrice : bytes)
  (s : State) (sm : ConfidentialPerpDEXMock.State) :
  (msg_sender e <> admin s ->
     updateOraclePrice asEuint64 e encNewPrice s = Reverted "Only admin" s
     /\ failsWith UnauthorizedError (updateOraclePrice asEuint64 e encNewPrice s))
  /\ (msg_sender e = admin s ->
      exists s',
        updateOraclePrice asEuint64 e encNewPrice s = Done tt s'
        /\ encryptedOraclePrice s' = asEuint64 encNewPrice
        /\ encryptedBalances s' = encryptedBalances s
        /\ positions s' = positions s
        /\ orderBook s' = orderBook s
        /\ admin s' = admin s
        /\ events s' = events s ++ [PriceUpdated (block_timestamp e)])
  /\ (msg_sender e <> ConfidentialPerpDEXMock.admin sm ->
      ConfidentialPerpDEXMock.updateOraclePrice e encNewPrice sm = Reverted "Only admin" sm)
  /\ (msg_sender e = ConfidentialPerpDEXMock.admin sm ->
      exists sm',
        ConfidentialPerpDEXMock.updateOraclePrice e encNewPrice sm = Done tt sm'
        /\ ConfidentialPerpDEXMock.oraclePrice sm'
           = ConfidentialPerpDEXMock._mockDecrypt encNewPrice
        /\ ConfidentialPerpDEXMock.balances sm' = ConfidentialPerpDEXMock.balances sm
        /\ ConfidentialPerpDEXMock.positions sm' = ConfidentialPerpDEXMock.positions sm
        /\ ConfidentialPerpDEXMock.orderBook sm' = ConfidentialPerpDEXMock.orderBook sm
        /\ ConfidentialPerpDEXMock.admin sm' = ConfidentialPerpDEXMock.admin sm
        /\ ConfidentialPerpDEXMock.events sm'
           = ConfidentialPerpDEXMock.events sm ++ [PriceUpdated (block_timestamp e)]).
Proof.
  split; [|split; [|split]].
  - intros Hne. pose proof (updateOraclePrice_other asEuint64 e encNewPrice s Hne) as Hr.
    split; [exact Hr|]. eexists "Only admin", _. split; [exact Hr | reflexivity].
  - intros Ha. eexists. split; [now apply updateOraclePrice_admin|]. repeat split.
  - intros Hne. unfold ConfidentialPerpDEXMock.updateOraclePrice, ConfidentialPerpDEXMock.onlyAdmin.
    ConfidentialPerpDEXMockFacts.mock_run. now rewrite bool_decide_eq_false_2 by assumption.
  - intros Ha. unfold ConfidentialPerpDEXMock.updateOraclePrice, ConfidentialPerpDEXMock.onlyAdmin.
    ConfidentialPerpDEXMockFacts.mock_run. rewrite bool_decide_eq_true_2 by assumption.
    eexists. split; [reflexivity|]. repeat split.
Qed.

Lemma X3_updateOraclePrice_admin_only_witness :
  updateOraclePrice Demo.decode (Demo.at_ Demo.alice 1004) (Demo.encode 1) Demo.opened
    = Reverted "Only admin" Demo.opened
  /\ (exists s',
        updateOraclePrice Demo.decode (Demo.at_ Demo.deployer 1004) (Demo.encode 120) Demo.opened
          = Done tt s'
        /\ encryptedOraclePrice s' = 120)
  /\ ConfidentialPerpDEXMock.updateOraclePrice (Demo.at_ Demo.alice 1004) (Demo.encode 1)
       Demo.mockOpened = Reverted "Only admin" Demo.mockOpened
  /\ (exists sm',
        ConfidentialPerpDEXMock.updateOraclePrice (Demo.at_ Demo.deployer 1004) (Demo.encode 120)
          Demo.mockOpened = Done tt sm'
        /\ ConfidentialPerpDEXMock.oraclePrice sm' = 120).
Proof.
  destruct (X3_updateOraclePrice_admin_only Demo.decode (Demo.at_ Demo.alice 1004) (Demo.encode 1)
              Demo.opened Demo.mockOpened) as (Hother & _ & Hmother & _).
  destruct (X3_updateOraclePrice_admin_only Demo.decode (Demo.at_ Demo.deployer 1004)
              (Demo.encode 120) Demo.opened Demo.mockOpened) as (_ & Hadmin & _ & Hmadmin).
  split; [|split; [|split]].
  - apply Hother. vm_compute. discriminate.
  - destruct Hadmin as (s' & Hrun & Hprice & _); [vm_compute; reflexivity|].
    exists s'. split; [exact Hrun|]. rewrite Hprice. vm_compute. reflexivity.
  - apply Hmother. vm_compute. discriminate.
  - destruct Hmadmin as (sm' & Hrun & Hprice & _); [vm_compute; reflexivity|].
    exists sm'. split; [exact Hrun|]. rewrite Hprice. vm_compute. reflexivity.
Defined.

(** X4.  A deposit on the confidential contract fails only when the library
    refuses the ciphertext, with the library's reason and nothing written.
    An accepted deposit touches only the sender's balance: the first deposit
    of an account stores the amount, a later one adds it modulo 2^64;
    positions, order book and oracle price are left alone, and the event
    carries 0 whatever the amount.  Two accepted deposits by one sender give
    the same balance in either order. *)
Theorem X4_deposit_adds_to_sender_only
  (verify : bytes -> option string)
  (asEuint64 : bytes -> TFHE.euint64) (e : Env) (amount1 amount2 : bytes) (s : State) :
  let sender := msg_sender e in
  (forall reason, verify amount1 = Some reason ->
     Ciphertext.deposit verify asEuint64 e amount1 s = Reverted reason s)
  /\ (verify amount1 = None ->
      exists s1 : State,
        Ciphertext.deposit verify asEuint64 e amount1 s = Done tt s1
        /\ balanceOf s1 sender
           = match encryptedBalances s !! sender with
             | Some currentBalance => TFHE.add currentBalance (asEuint64 amount1)
             | None => asEuint64 amount1
             end
        /\ (forall a, a <> sender -> balanceOf s1 a = balanceOf s a)
        /\ positions s1 = positions s
        /\ orderBook s1 = orderBook s
        /\ encryptedOraclePrice s1 = encryptedOraclePrice s
        /\ events s1 = events s ++ [BalanceDeposited sender 0]
        /\ (verify amount2 = None ->
            exists s12 s2 s21 : State,
              Ciphertext.deposit verify asEuint64 e amount2 s1 = Done tt s12
              /\ Ciphertext.deposit verify asEuint64 e amount2 s = Done tt s2
              /\ Ciphertext.deposit verify asEuint64 e amount1 s2 = Done tt s21
              /\ balanceOf s12 sender = balanceOf s21 sender)).
Proof.
  cbv zeta. split.
  { intros reason Hno. now apply CiphertextFacts.deposit_refused. }
  intros Hok1. eexists.
  split; [rewrite CiphertextFacts.deposit_accepted by exact Hok1; apply deposit_ok|].
  split; [apply balanceOf_written|].
  split; [intros a Ha; now apply balanceOf_written_other|].
  do 4 (split; [reflexivity|]).
  intros Hok2. do 3 eexists.
  split; [rewrite CiphertextFacts.deposit_accepted by exact Hok2; apply deposit_ok|].
  split; [rewrite CiphertextFacts.deposit_accepted by exact Hok2; apply deposit_ok|].
  split; [rewrite CiphertextFacts.deposit_accepted by exact Hok1; apply deposit_ok|].
  change (balanceOf (set_events ?f ?x)) with (balanceOf x).
  rewrite !balanceOf_written. cbn [encryptedBalances set_events set_encryptedBalances].
  rewrite !lookup_insert_eq.
  destruct (encryptedBalances s !! msg_sender e) as [b|].
  - unfold TFHE.add, TFHE.wrap. rewrite !Z.add_mod_idemp_l by discriminate. f_equal. lia.
  - unfold TFHE.add. f_equal. lia.
Qed.

Lemma X4_deposit_adds_to_sender_only_witness :
  Ciphertext.deposit Ciphertext.wordsOnly Demo.decode (Demo.at_ Demo.alice 1005) [1; 2; 3]
    Demo.funded = Reverted "invalid ciphertext" Demo.funded
  /\ exists s1,
       Ciphertext.deposit Ciphertext.wordsOnly Demo.decode (Demo.at_ Demo.alice 1005)
         (Demo.encode 5) Demo.funded = Done tt s1
       /\ balanceOf s1 Demo.alice = 1005.
Proof.
  split.
  - destruct (X4_deposit_adds_to_sender_only Ciphertext.wordsOnly Demo.decode
                (Demo.at_ Demo.alice 1005) [1; 2; 3] [] Demo.funded) as (Hrefused & _).
    apply Hrefused. reflexivity.
  - destruct (X4_deposit_adds_to_sender_only Ciphertext.wordsOnly Demo.decode
                (Demo.at_ Demo.alice 1005) (Demo.encode 5) [] Demo.funded) as (_ & Hok).
    destruct Hok as (s1 & Hrun & Hbal & _); [reflexivity|].
    exists s1. split; [exact Hrun|]. etransitivity; [exact Hbal | vm_compute; reflexivity].
Defined.

(** X5.  A deposit on the stand-in adds the decoded amount exactly, or, when
    the sum would not fit [uint256], reverts with the overflow panic and
    leaves the ledger as it was; the balance never wraps. *)
Theorem X5_mock_deposit_exact_or_reverts
  (e : Env) (encryptedAmount : bytes) (sm : ConfidentialPerpDEXMock.State) :
  let sender := msg_sender e in
  let amount := ConfidentialPerpDEXMock._mockDecrypt encryptedAmount in
  let balance := ConfidentialPerpDEXMock.balanceOf sm sender in
  (balance + amount < 2 ^ 256 ->
     exists sm',
       ConfidentialPerpDEXMock.deposit e encryptedAmount sm = Done tt sm'
       /\ ConfidentialPerpDEXMock.balanceOf sm' sender = balance + amount
       /\ (forall a, a <> sender ->
             ConfidentialPerpDEXMock.balanceOf sm' a = ConfidentialPerpDEXMock.balanceOf sm a)
       /\ ConfidentialPerpDEXMock.events sm'
          = ConfidentialPerpDEXMock.events sm ++ [BalanceDeposited sender 0])
  /\ (2 ^ 256 <= balance + amount ->
      ConfidentialPerpDEXMock.deposit e encryptedAmount sm = Reverted PanicOverflow sm).
Proof.
  cbv zeta. split.
  - intros Hfit. unfold ConfidentialPerpDEXMock.deposit.
    ConfidentialPerpDEXMockFacts.mock_run. unfold Uint256.modulus.
    destruct (Z.ltb_spec (ConfidentialPerpDEXMock.balanceOf sm (msg_sender e)
                          + ConfidentialPerpDEXMock._mockDecrypt encryptedAmount) (2 ^ 256));
      [|lia].
    eexists. split; [reflexivity|]. split; [|split].
    + unfold ConfidentialPerpDEXMock.balanceOf. simpl. now rewrite lookup_insert_eq.
    + intros a Ha. unfold ConfidentialPerpDEXMock.balanceOf. simpl.
      now rewrite lookup_insert_ne by auto.
    + reflexivity.
  - intros Hover. unfold ConfidentialPerpDEXMock.deposit.
    ConfidentialPerpDEXMockFacts.mock_run. unfold Uint256.modulus.
    destruct (Z.ltb_spec (ConfidentialPerpDEXMock.balanceOf sm (msg_sender e)
                          + ConfidentialPerpDEXMock._mockDecrypt encryptedAmount) (2 ^ 256));
      [lia | reflexivity].
Qed.

Lemma X5_mock_deposit_exact_or_reverts_witness :
  (exists sm',
     ConfidentialPerpDEXMock.deposit (Demo.at_ Demo.alice 1005) (Demo.encode 5) Demo.mockFunded
       = Done tt sm'
     /\ ConfidentialPerpDEXMock.balanceOf sm' Demo.alice = 1005)
  /\ ConfidentialPerpDEXMock.deposit (Demo.at_ Demo.alice 1005) (Demo.encode (2 ^ 256 - 1))
       Demo.mockFunded = Reverted PanicOverflow Demo.mockFunded.
Proof.
  split.
  - destruct (X5_mock_deposit_exact_or_reverts (Demo.at_ Demo.alice 1005) (Demo.encode 5)
                Demo.mockFunded) as (Hfit & _).
    destruct Hfit as (sm' & Hrun & Hbal & _); [vm_compute; reflexivity|].
    exists sm'. split; [exact Hrun|]. etransitivity; [exact Hbal|]. vm_compute. reflexivity.
  - destruct (X5_mock_deposit_exact_or_reverts (Demo.at_ Demo.alice 1005)
                (Demo.encode (2 ^ 256 - 1)) Demo.mockFunded) as (_ & Hover).
    apply Hover. vm_compute. discriminate.
Defined.

(** X6.  The order book is append-only along every trace of transactions,
    refused ones included: its length grows by exactly one per [placeOrder]
    whose ciphertexts the library accepts, and by nothing else; every order
    keeps its index, price, size, trader, side and timestamp; and an order
    that is filled is never reopened. *)
Theorem X6_orderBook_append_only
  (verify : bytes -> option string)
  (asEuint64 : bytes -> TFHE.euint64)
  (keccak256 : address * Z * TFHE.euint64 -> bytes32)
  (txs : list (Env * Call)) (s : State) :
  let s' := Ciphertext.executeChecked verify asEuint64 keccak256 txs s in
  continuesBook (orderBook s) (orderBook s')
  /\ length (orderBook s')
     = (length (orderBook s) + length (filter (Ciphertext.placesOrder verify) txs))%nat
  /\ getOrderBookSize s'
     = Done (length (orderBook s) + length (filter (Ciphertext.placesOrder verify) txs))%nat s'
  /\ (length (filter (Ciphertext.placesOrder verify) txs) <= length (filter isPlaceOrder txs))%nat.
Proof.
  cbv zeta.
  destruct (CiphertextFacts.executeChecked_orderBook verify asEuint64 keccak256 txs s)
    as (Hlen & Hcont & _).
  split; [exact Hcont|]. split; [exact Hlen|]. split.
  - unfold getOrderBookSize, bind, get, ret. now rewrite Hlen.
  - clear. induction txs as [|tx txs IH]; [reflexivity|].
    rewrite !filter_cons. unfold Ciphertext.placesOrder at 1.
    destruct (decide (isPlaceOrder tx)) as [Hp|Hp];
      destruct (decide (isPlaceOrder tx && Ciphertext.accepted verify (snd tx))) as [Hq|Hq];
      simpl; try lia.
    exfalso. apply Hp. destruct (isPlaceOrder tx); [exact I | exact Hq].
Qed.

(** X7.  Fills come in opposite pairs: along every trace that starts from a
    book with as many filled buys as filled sells (the empty book at
    deployment, for one), the book always holds as many filled buys as
    filled sells. *)
Theorem X7_fills_are_paired
  (asEuint64 : bytes -> TFHE.euint64)
  (keccak256 : address * Z * TFHE.euint64 -> bytes32)
  (txs : list (Env * Call)) (s : State) :
  filledOn true (orderBook s) = filledOn false (orderBook s) ->
  filledOn true (orderBook (Ledger.execute asEuint64 keccak256 txs s))
  = filledOn false (orderBook (Ledger.execute asEuint64 keccak256 txs s)).
Proof. apply execute_fills_paired. Qed.

Lemma X7_fills_are_paired_witness :
  filledOn true (orderBook (Ledger.execute Demo.decode Demo.idOf
     [(Demo.at_ Demo.alice 1005, PlaceOrder (Demo.encode 50) (Demo.encode 5) true);
      (Demo.at_ Demo.bob 1006, PlaceOrder (Demo.encode 60) (Demo.encode 5) true);
      (Demo.at_ Demo.bob 1007, PlaceOrder (Demo.encode 40) (Demo.encode 5) false)]
     Demo.funded))
  = filledOn false (orderBook (Ledger.execute Demo.decode Demo.idOf
     [(Demo.at_ Demo.alice 1005, PlaceOrder (Demo.encode 50) (Demo.encode 5) true);
      (Demo.at_ Demo.bob 1006, PlaceOrder (Demo.encode 60) (Demo.encode 5) true);
      (Demo.at_ Demo.bob 1007, PlaceOrder (Demo.encode 40) (Demo.encode 5) false)]
     Demo.funded)).
Proof. apply X7_fills_are_paired. reflexivity. Defined.

(** X8.  The list returned by [getUserPositions] only grows: along every
    trace the earlier list of an account is a prefix of the later one, so
    closing or liquidating a position never removes its id. *)
Theorem X8_userPositions_only_grow
  (asEuint64 : bytes -> TFHE.euint64)
  (keccak256 : address * Z * TFHE.euint64 -> bytes32)
  (txs : list (Env * Call)) (s : State) (user : address) :
  exists before after : list bytes32,
    getUserPositions user s = Done before s
    /\ getUserPositions user (Ledger.execute asEuint64 keccak256 txs s)
       = Done after (Ledger.execute asEuint64 keccak256 txs s)
    /\ before `prefix_of` after.
Proof.
  do 2 eexists. split; [reflexivity|]. split; [reflexivity|].
  revert s. induction txs as [|tx txs IH]; intros s; [reflexivity|].
  rewrite execute_cons. etransitivity; [apply (step_userPositionIds asEuint64 keccak256)|]. apply IH.
Qed.

(** X9.  Nobody can move another account's balance, with one exception: the
    balance of [a] is the same after any trace in which no transaction is
    sent by [a] and none is a bracket execution on a position of [a]. *)
Theorem X9_balance_moves_only_for_owner
  (asEuint64 : bytes -> TFHE.euint64)
  (keccak256 : address * Z * TFHE.euint64 -> bytes32)
  (txs : list (Env * Call)) (s : State) (a : address) :
  Forall (fun tx => concernsBalance a tx = false) txs ->
  balanceOf (Ledger.execute asEuint64 keccak256 txs s) a = balanceOf s a.
Proof.
  revert s. induction txs as [|tx txs IH]; intros s Hall; [reflexivity|].
  inversion Hall; subst. rewrite execute_cons, IH by assumption.
  now apply step_balance.
Qed.

Lemma X9_balance_moves_only_for_owner_witness :
  balanceOf (Ledger.execute Demo.decode Demo.idOf
               [(Demo.at_ Demo.bob 1005, Deposit (Demo.encode 7));
                (Demo.at_ Demo.bob 1006, Liquidate Demo.alice Demo.alicePosition);
                (Demo.at_ Demo.deployer 1007, UpdateOraclePrice (Demo.encode 1))]
               Demo.repriced) Demo.alice
  = balanceOf Demo.repriced Demo.alice.
Proof. apply X9_balance_moves_only_for_owner. repeat constructor. Defined.

(** X10.  The configuration is fixed at deployment: no trace changes the
    admin, the liquidation threshold or the funding rate, and the oracle
    price is the same after any trace in which the admin sends no
    [updateOraclePrice]. *)
Theorem X10_configuration_is_fixed
  (asEuint64 : bytes -> TFHE.euint64)
  (keccak256 : address * Z * TFHE.euint64 -> bytes32)
  (txs : list (Env * Call)) (s : State) :
  let s' := Ledger.execute asEuint64 keccak256 txs s in
  admin s' = admin s
  /\ liquidationThreshold s' = liquidationThreshold s
  /\ fundingRate s' = fundingRate s
  /\ (Forall (fun tx => setsPriceAs (admin s) tx = false) txs ->
      encryptedOraclePrice s' = encryptedOraclePrice s).
Proof. cbv zeta. apply execute_config. Qed.

Lemma X10_configuration_is_fixed_witness :
  encryptedOraclePrice (Ledger.execute Demo.decode Demo.idOf
     [(Demo.at_ Demo.alice 1005, UpdateOraclePrice (Demo.encode 1));
      (Demo.at_ Demo.bob 1006, Liquidate Demo.alice Demo.alicePosition)]
     Demo.repriced) = 120.
Proof.
  destruct (X10_configuration_is_fixed Demo.decode Demo.idOf
     [(Demo.at_ Demo.alice 1005, UpdateOraclePrice (Demo.encode 1));
      (Demo.at_ Demo.bob 1006, Liquidate Demo.alice Demo.alicePosition)]
     Demo.repriced) as (_ & _ & _ & Hprice).
  rewrite Hprice; [vm_compute; reflexivity | repeat constructor].
Defined.

(** X11.  The terms of a position are fixed when it is opened: along every
    trace that does not run [openPosition] to the same derived id, its size,
    entry price, collateral, leverage, side and timestamp never change; its
    brackets change only through the owner's own [updateStopLossTakeProfit];
    and it is never reopened. *)
Theorem X11_position_terms_are_fixed
  (asEuint64 : bytes -> TFHE.euint64)
  (keccak256 : address * Z * TFHE.euint64 -> bytes32)
  (txs : list (Env * Call)) (s : State) (trader : address) (positionId : bytes32) :
  let s' := Ledger.execute asEuint64 keccak256 txs s in
  Forall (fun tx => reopensPosition asEuint64 keccak256 trader positionId tx = false) txs ->
  sameTerms (positionOf s trader positionId) (positionOf s' trader positionId)
  /\ (Forall (fun tx => updatesBrackets trader positionId tx = false) txs ->
      EncryptedPosition.stopLoss (positionOf s' trader positionId)
      = EncryptedPosition.stopLoss (positionOf s trader positionId)
      /\ EncryptedPosition.takeProfit (positionOf s' trader positionId)
         = EncryptedPosition.takeProfit (positionOf s trader positionId))
  /\ (EncryptedPosition.isOpen (positionOf s' trader positionId) = true ->
      EncryptedPosition.isOpen (positionOf s trader positionId) = true).
Proof.
  cbv zeta. revert s. induction txs as [|tx txs IH]; intros s Hall.
  - repeat split; auto.
  - inversion Hall; subst. rewrite execute_cons.
    destruct (IH (Ledger.step asEuint64 keccak256 tx s)) as (Hterms & Hbr & Hopen); [assumption|].
    destruct (step_positions_terms asEuint64 keccak256 tx s trader positionId)
      as (Hterms1 & Hbr1 & Hopen1); [assumption|].
    split; [|split].
    + destruct Hterms as (? & ? & ? & ? & ? & ?). destruct Hterms1 as (? & ? & ? & ? & ? & ?).
      repeat split; congruence.
    + intros Hnoupd. inversion Hnoupd; subst.
      destruct (Hbr ltac:(assumption)) as [Hsl Htp]. destruct (Hbr1 ltac:(assumption)) as [Hsl1 Htp1].
      split; congruence.
    + auto.
Qed.

Lemma X11_position_terms_are_fixed_witness :
  EncryptedPosition.collateral
    (positionOf (Ledger.execute Demo.decode Demo.idOf
                   [(Demo.at_ Demo.deployer 1005, UpdateOraclePrice (Demo.encode 1));
                    (Demo.at_ Demo.bob 1006, Liquidate Demo.alice Demo.alicePosition)]
                   Demo.repriced) Demo.alice Demo.alicePosition) = 200.
Proof.
  destruct (X11_position_terms_are_fixed Demo.decode Demo.idOf
     [(Demo.at_ Demo.deployer 1005, UpdateOraclePrice (Demo.encode 1));
      (Demo.at_ Demo.bob 1006, Liquidate Demo.alice Demo.alicePosition)]
     Demo.repriced Demo.alice Demo.alicePosition) as ((_ & _ & Hcoll & _) & _).
  - repeat constructor.
  - rewrite Hcoll. vm_compute. reflexivity.
Defined.

(** ** The plaintext stand-in, entry point by entry point *)

Module MockLedgerFacts.
Import ConfidentialPerpDEXMock MockSpec ConfidentialPerpDEXMockFacts.

Lemma fits64_modulus : 2 ^ 64 = 18446744073709551616.
Proof. reflexivity. Qed.

Lemma uint256_modulus : Uint256.modulus = 18446744073709551616 * 18446744073709551616
                                          * (18446744073709551616 * 18446744073709551616).
Proof. reflexivity. Qed.

Lemma mock_pnlFormula_range oracle pos :
  fits64 oracle -> fits64 (Position.entryPrice pos) -> fits64 (Position.size pos) ->
  0 <= pnlFormula oracle pos < 18446744073709551616 * 18446744073709551616.
Proof.
  unfold fits64, pnlFormula. rewrite fits64_modulus. intros Ho He Hs.
  destruct (Position.isLong pos); nia.
Qed.

Lemma mock_firstMatch_bounds newOrder post i j :
  firstMatch newOrder post i = Some j -> (i <= j < i + length post)%nat.
Proof.
  revert i. induction post as [|o post IH]; intros i H; simpl in *; [discriminate|].
  destruct (isMatch newOrder o).
  - inversion H. lia.
  - apply IH in H. lia.
Qed.

Lemma mock_firstMatch_found newOrder post i j :
  firstMatch newOrder post i = Some j ->
  exists o, post !! (j - i)%nat = Some o /\ isMatch newOrder o = true /\
    forall k o', (k < j - i)%nat -> post !! k = Some o' -> isMatch newOrder o' = false.
Proof.
  revert i. induction post as [|o post IH]; intros i H; simpl in *; [discriminate|].
  destruct (isMatch newOrder o) eqn:Hc.
  - inversion H; subst. rewrite Nat.sub_diag. exists o. repeat split; auto. intros; lia.
  - pose proof (mock_firstMatch_bounds _ _ _ _ H) as Hb.
    destruct (IH _ H) as (o' & Hl & Hc' & Hbefore).
    replace (j - i)%nat with (S (j - S i)) by lia.
    exists o'. repeat split; auto.
    intros [|k] o'' Hk Hlk; simpl in Hlk.
    + now inversion Hlk; subst.
    + apply (Hbefore k); auto. lia.
Qed.

Lemma mock_firstMatch_none newOrder post i :
  firstMatch newOrder post i = None ->
  forall o, o ∈ post -> isMatch newOrder o = false.
Proof.
  revert i. induction post as [|o post IH]; intros i H o' Hin; simpl in *.
  - now apply elem_of_nil in Hin.
  - destruct (isMatch newOrder o) eqn:Hc; [discriminate|].
    apply elem_of_cons in Hin as [->|Hin]; eauto.
Qed.

(** The loop, started at index [length pre] over the book
    [pre ++ post ++ [newOrder]], where nothing in [pre] was matched. *)
Lemma mock_matchLoop_scan post : forall pre newOrder s,
  orderBook s = pre ++ post ++ [newOrder] ->
  Order.isFilled newOrder = false ->
  matchLoop (length post + 1) (length pre) (length (pre ++ post)) s =
    Done tt
      match firstMatch newOrder post (length pre) with
      | Some j =>
          set_events (fun l => l ++ [OrderMatched (Z.of_nat (length (pre ++ post))) (Z.of_nat j)])
            (set_orderBook (fun _ => alter (Order.with_isFilled true) j (pre ++ post)
                                       ++ [Order.with_isFilled true newOrder]) s)
      | None => s
      end.
Proof.
  induction post as [|o post IH]; intros pre newOrder s Hob Hnf.
  - simpl. rewrite app_nil_r. rewrite bool_decide_eq_true_2 by reflexivity. reflexivity.
  - cbn [length Nat.add matchLoop firstMatch].
    rewrite bool_decide_eq_false_2 by (rewrite length_app; simpl; lia).
    unfold bind at 1, get at 1.
    assert (Hi : orderBook s !! length pre = Some o).
    { rewrite Hob. rewrite lookup_app_r by lia. now rewrite Nat.sub_diag. }
    assert (Hn : orderBook s !! length (pre ++ o :: post) = Some newOrder).
    { rewrite Hob, app_assoc. rewrite lookup_app_r by lia. now rewrite Nat.sub_diag. }
    rewrite Hi, Hn.
    assert (Hnext : matchLoop (length post + 1) (S (length pre)) (length (pre ++ o :: post)) s =
      Done tt match firstMatch newOrder post (S (length pre)) with
      | Some j =>
          set_events (fun l => l ++ [OrderMatched (Z.of_nat (length (pre ++ o :: post))) (Z.of_nat j)])
            (set_orderBook (fun _ => alter (Order.with_isFilled true) j (pre ++ o :: post)
                                       ++ [Order.with_isFilled true newOrder]) s)
      | None => s
      end).
    { pose proof (IH (pre ++ [o]) newOrder s) as IH'.
      replace (length (pre ++ [o])) with (S (length pre)) in IH'
        by (rewrite length_app; simpl; lia).
      rewrite <- !(app_assoc pre [o]) in IH'. simpl app in IH'.
      apply IH'; auto. }
    unfold isMatch, canMatch.
    destruct (Bool.eqb (Order.isLong o) (Order.isLong newOrder)) eqn:Hside;
      simpl; [exact Hnext|].
    rewrite Hnf, orb_false_r.
    destruct (Order.isFilled o) eqn:Hfo; simpl; [exact Hnext|].
    destruct (if Order.isLong newOrder
              then Order.price o <=? Order.price newOrder
              else Order.price newOrder <=? Order.price o) eqn:Hcross; [|exact Hnext].
    mock_run. unfold set_events, set_orderBook. simpl. f_equal. f_equal.
    rewrite Hob.
    rewrite (app_assoc pre (o :: post) [newOrder]).
    rewrite insert_app_r_alt by lia. rewrite Nat.sub_diag. simpl.
    rewrite insert_app_l by (rewrite length_app; simpl; lia).
    f_equal. symmetry. apply MatchingFacts.alter_as_insert.
    rewrite lookup_app_r by lia. now rewrite Nat.sub_diag.
Qed.

Lemma mock_placeOrder_ok e encPrice encSize isLong s :
  let newOrder := Order.mk (_mockDecrypt encPrice) (_mockDecrypt encSize)
                    (msg_sender e) isLong false (block_timestamp e) in
  let ob := orderBook s in
  placeOrder e encPrice encSize isLong s =
    Done (length ob)
      (set_events (fun l => l ++ [OrderPlaced (msg_sender e) (Z.of_nat (length ob)) isLong]
                              ++ matchEvents ob newOrder)
         (set_orderBook (fun _ => matchedBook ob newOrder) s)).
Proof.
  intros newOrder ob. unfold placeOrder, _matchOrders. mock_run.
  fold ob. fold newOrder.
  assert (Hlen : (length (ob ++ [newOrder]) - 1)%nat = length ob)
    by (rewrite length_app; simpl; lia).
  rewrite Hlen.
  rewrite lookup_app_r, Nat.sub_diag by lia.
  change ([newOrder] !! 0%nat) with (Some newOrder). cbv iota.
  rewrite length_app. change (length [newOrder]) with 1%nat.
  pose proof (mock_matchLoop_scan ob [] newOrder
    (set_events (fun l => l ++ [OrderPlaced (msg_sender e) (Z.of_nat (length ob)) isLong])
       (set_orderBook (fun ob0 => ob0 ++ [newOrder]) s))) as Hscan.
  simpl in Hscan. fold ob in Hscan. rewrite Hscan by reflexivity.
  unfold matchedBook, matchEvents. simpl.
  destruct (firstMatch newOrder ob 0); simpl.
  - unfold set_events, set_orderBook. simpl. now rewrite <- app_assoc.
  - reflexivity.
Qed.

Section Facts.
Variable keccak256 : address * Z * Z -> bytes32.

Lemma mock_calculatePnL_formula trader positionId s :
  let pos := positionOf s trader positionId in
  Position.isOpen pos = true ->
  pnlFormula (oraclePrice s) pos < Uint256.modulus ->
  calculatePnL trader positionId s = Done (pnlFormula (oraclePrice s) pos) s.
Proof.
  intros pos Hopen Hb. unfold calculatePnL. mock_run. fold pos. rewrite Hopen. mock_run.
  unfold pnlFormula in *. destruct (Position.isLong pos).
  - destruct (Z.ltb_spec (Position.entryPrice pos) (oraclePrice s)) as [Hlt|Hge]; mock_run.
    + destruct (Z.leb_spec (Position.entryPrice pos) (oraclePrice s)); [|lia]. mock_run.
      rewrite Z.max_r in Hb |- * by lia.
      destruct (Z.ltb_spec ((oraclePrice s - Position.entryPrice pos) * Position.size pos)
                  Uint256.modulus); [reflexivity|lia].
    + rewrite Z.max_l by lia. reflexivity.
  - destruct (Z.ltb_spec (oraclePrice s) (Position.entryPrice pos)) as [Hlt|Hge]; mock_run.
    + destruct (Z.leb_spec (oraclePrice s) (Position.entryPrice pos)); [|lia]. mock_run.
      rewrite Z.max_r in Hb |- * by lia.
      destruct (Z.ltb_spec ((Position.entryPrice pos - oraclePrice s) * Position.size pos)
                  Uint256.modulus); [reflexivity|lia].
    + rewrite Z.max_l by lia. reflexivity.
Qed.

Lemma mock_checkLiquidation_formula trader positionId s :
  let pos := positionOf s trader positionId in
  Position.isOpen pos = true ->
  fits64 (Position.size pos) -> fits64 (Position.entryPrice pos) ->
  0 <= Position.collateral pos < 2 ^ 128 ->
  fits64 (oraclePrice s) -> fits64 (liquidationThreshold s) ->
  checkLiquidation trader positionId s = Done (underwater s pos) s.
Proof.
  intros pos Hopen Hs He Hc Ho Ht.
  pose proof (mock_pnlFormula_range _ _ Ho He Hs) as Hpnl.
  unfold fits64 in *. rewrite fits64_modulus in *.
  change (2 ^ 128) with (18446744073709551616 * 18446744073709551616) in Hc.
  unfold checkLiquidation.
  unfold bind at 1. unfold readPosition at 1. fold pos. rewrite Hopen.
  unfold bind at 1. unfold require at 1, ret at 1.
  unfold bind at 1. unfold get at 1.
  unfold bind at 1. unfold Uint256.mul at 1. rewrite uint256_modulus.
  destruct (Z.ltb_spec (Position.size pos * oraclePrice s)
              (18446744073709551616 * 18446744073709551616
               * (18446744073709551616 * 18446744073709551616))); [|nia].
  unfold ret at 1. unfold bind at 1.
  rewrite mock_calculatePnL_formula by (try assumption; rewrite uint256_modulus; fold pos; nia).
  fold pos.
  unfold bind at 1. unfold Uint256.add at 1. rewrite uint256_modulus.
  destruct (Z.ltb_spec (Position.collateral pos + pnlFormula (oraclePrice s) pos)
              (18446744073709551616 * 18446744073709551616
               * (18446744073709551616 * 18446744073709551616))); [|nia].
  unfold ret at 1. unfold bind at 1. unfold Uint256.mul at 1. rewrite uint256_modulus.
  destruct (Z.ltb_spec ((Position.collateral pos + pnlFormula (oraclePrice s) pos) * 10000)
              (18446744073709551616 * 18446744073709551616
               * (18446744073709551616 * 18446744073709551616))); [|nia].
  unfold ret at 1. unfold bind at 1. unfold Uint256.mul at 1. rewrite uint256_modulus.
  destruct (Z.ltb_spec (Position.size pos * oraclePrice s * liquidationThreshold s)
              (18446744073709551616 * 18446744073709551616
               * (18446744073709551616 * 18446744073709551616))); [|nia].
  reflexivity.
Qed.

Lemma mock_liquidate_gate e trader positionId s :
  let pos := positionOf s trader positionId in
  Position.isOpen pos = true ->
  fits64 (Position.size pos) -> fits64 (Position.entryPrice pos) ->
  0 <= Position.collateral pos < 2 ^ 128 ->
  fits64 (oraclePrice s) -> fits64 (liquidationThreshold s) ->
  balanceOf s (msg_sender e) + Position.collateral pos / 10 < Uint256.modulus ->
  liquidate e trader positionId s =
    if underwater s pos then Done tt (liquidated (msg_sender e) trader positionId s)
    else Reverted "Position not liquidatable" s.
Proof.
  intros pos Hopen Hs He Hc Ho Ht Hbal.
  pose proof (mock_checkLiquidation_formula trader positionId s Hopen Hs He Hc Ho Ht) as Hchk.
  fold pos in Hchk.
  unfold liquidate.
  unfold bind at 1. unfold readPosition at 1. fold pos. rewrite Hopen.
  unfold bind at 1. unfold require at 1, ret at 1.
  unfold bind at 1. rewrite Hchk.
  destruct (underwater s pos); [|reflexivity].
  mock_run. rewrite mock_positionOf_written. mock_run.
  assert (Hsame : balanceOf (set_positions (fun m => <[(trader, positionId) :=
                     Position.with_isOpen false pos]> m) s) (msg_sender e)
                  = balanceOf s (msg_sender e)) by reflexivity.
  rewrite Hsame.
  destruct (Z.ltb_spec (balanceOf s (msg_sender e) + Position.collateral pos / 10)
              Uint256.modulus); [|lia].
  reflexivity.
Qed.

Lemma mock_openPosition_ok e encSize leverage isLong s :
  let size := _mockDecrypt encSize in
  size * oraclePrice s < Uint256.modulus ->
  leverage <> 0 ->
  size * oraclePrice s / leverage <= balanceOf s (msg_sender e) ->
  openPosition keccak256 e encSize leverage isLong s =
    Done (keccak256 (msg_sender e, block_timestamp e, size))
      (opened e (keccak256 (msg_sender e, block_timestamp e, size)) size leverage isLong s).
Proof.
  intros size Hov Hl Hbal. unfold openPosition. mock_run. fold size.
  destruct (Z.ltb_spec (size * oraclePrice s) Uint256.modulus); [|lia]. mock_run.
  destruct (Z.eqb_spec leverage 0); [easy|]. mock_run.
  destruct (Z.leb_spec (size * oraclePrice s / leverage) (balanceOf s (msg_sender e))); [|lia].
  mock_run.
  destruct (Z.leb_spec (size * oraclePrice s / leverage) (balanceOf s (msg_sender e))); [|lia].
  reflexivity.
Qed.

Lemma mock_openPosition_zero_leverage e encSize isLong s :
  _mockDecrypt encSize * oraclePrice s < Uint256.modulus ->
  openPosition keccak256 e encSize 0 isLong s = Reverted "Panic(0x12)" s.
Proof.
  intros Hov. unfold openPosition. mock_run.
  destruct (Z.ltb_spec (_mockDecrypt encSize * oraclePrice s) Uint256.modulus); [|lia].
  reflexivity.
Qed.

Lemma mock_openPosition_overflow e encSize leverage isLong s :
  Uint256.modulus <= _mockDecrypt encSize * oraclePrice s ->
  openPosition keccak256 e encSize leverage isLong s = Reverted "Panic(0x11)" s.
Proof.
  intros Hov. unfold openPosition. mock_run.
  destruct (Z.ltb_spec (_mockDecrypt encSize * oraclePrice s) Uint256.modulus); [lia|].
  reflexivity.
Qed.

Lemma mock_closePosition_open e positionId s :
  let pos := positionOf s (msg_sender e) positionId in
  Position.isOpen pos = true ->
  balanceOf s (msg_sender e) + (Position.collateral pos + pnlFormula (oraclePrice s) pos)
  < Uint256.modulus ->
  0 <= balanceOf s (msg_sender e) -> 0 <= Position.collateral pos ->
  0 <= Position.size pos ->
  closePosition e positionId s =
    Done tt (creditedAndClosed (msg_sender e) positionId
               (Position.collateral pos + pnlFormula (oraclePrice s) pos) s).
Proof.
  intros pos Hopen Hb Hbal Hc Hsz.
  assert (Hpnl : 0 <= pnlFormula (oraclePrice s) pos).
  { unfold pnlFormula. destruct (Position.isLong pos); nia. }
  unfold closePosition.
  unfold bind at 1. unfold readPosition at 1. fold pos. rewrite Hopen.
  unfold bind at 1. unfold require at 1, ret at 1.
  unfold bind at 1. rewrite mock_calculatePnL_formula by (try assumption; fold pos; lia).
  fold pos. mock_run.
  destruct (Z.ltb_spec (Position.collateral pos + pnlFormula (oraclePrice s) pos)
              Uint256.modulus); [|lia]. mock_run.
  destruct (Z.ltb_spec (balanceOf s (msg_sender e)
                        + (Position.collateral pos + pnlFormula (oraclePrice s) pos))
              Uint256.modulus); [|lia].
  reflexivity.
Qed.

End Facts.
End MockLedgerFacts.

(** X12.  [openPosition] on the confidential contract has no balance check:
    with a nonzero leverage it goes through whatever the balance, and when
    the required collateral exceeds the balance the subtraction wraps, so
    the account ends with [balance - collateral + 2^64], more than it had. *)
Theorem X12_openPosition_has_no_balance_check
  (asEuint64 : bytes -> TFHE.euint64)
  (keccak256 : address * Z * TFHE.euint64 -> bytes32)
  (e : Env) (encSize : bytes) (leverage : Z) (isLong : bool)
  (encStopLoss encTakeProfit : bytes) (s : State) :
  let requiredCollateral :=
    TFHE.mul (asEuint64 encSize) (encryptedOraclePrice s) / leverage in
  0 < leverage ->
  0 <= balanceOf s (msg_sender e) < requiredCollateral ->
  exists positionId s',
    openPosition asEuint64 keccak256 e encSize leverage isLong encStopLoss encTakeProfit s
      = Done positionId s'
    /\ EncryptedPosition.isOpen (positionOf s' (msg_sender e) positionId) = true
    /\ EncryptedPosition.collateral (positionOf s' (msg_sender e) positionId)
       = requiredCollateral
    /\ balanceOf s' (msg_sender e)
       = balanceOf s (msg_sender e) - requiredCollateral + TFHE.modulus
    /\ balanceOf s (msg_sender e) < balanceOf s' (msg_sender e).
Proof.
  intros rc Hlev Hbal.
  assert (Hrc : rc < TFHE.modulus).
  { subst rc. unfold TFHE.mul.
    pose proof (TFHEFacts.wrap_range (asEuint64 encSize * encryptedOraclePrice s)) as Hw.
    apply Z.le_lt_trans with (TFHE.wrap (asEuint64 encSize * encryptedOraclePrice s)); [|lia].
    apply Z.div_le_upper_bound; [lia|]. nia. }
  assert (Hnew : TFHE.sub (balanceOf s (msg_sender e)) rc
                 = balanceOf s (msg_sender e) - rc + TFHE.modulus).
  { unfold TFHE.sub, TFHE.wrap. symmetry.
    apply Z.mod_unique with (q := -1); [left|]; lia. }
  do 2 eexists. split; [apply openPosition_ok; lia|]. cbv zeta. fold rc.
  split; [|split; [|split]].
  - unfold positionOf. simpl. now rewrite lookup_insert_eq.
  - unfold positionOf. simpl. now rewrite lookup_insert_eq.
  - unfold balanceOf at 1. simpl. rewrite lookup_insert_eq. simpl. exact Hnew.
  - unfold balanceOf at 2. simpl. rewrite lookup_insert_eq. simpl. rewrite Hnew. lia.
Qed.

Lemma X12_openPosition_has_no_balance_check_witness :
  exists positionId s',
    openPosition Demo.decode Demo.idOf (Demo.at_ Demo.bob 1003) (Demo.encode 10) 5 true
      (Demo.encode 0) (Demo.encode 0) Demo.funded = Done positionId s'
    /\ balanceOf s' Demo.bob = 18446744073709551416.
Proof.
  destruct (X12_openPosition_has_no_balance_check Demo.decode Demo.idOf (Demo.at_ Demo.bob 1003)
              (Demo.encode 10) 5 true (Demo.encode 0) (Demo.encode 0) Demo.funded)
    as (positionId & s' & Hrun & _ & _ & Hbal & _).
  - lia.
  - vm_compute. split; [discriminate | reflexivity].
  - exists positionId, s'. split; [exact Hrun|].
    etransitivity; [exact Hbal | vm_compute; reflexivity].
Defined.

(** X13.  What [checkStopLossTakeProfit] reports on an open position, and
    what a zero bracket does: the function compares the oracle price with the
    stored brackets and nothing else, so a zero bracket switches off only the
    stop loss of a long and the take profit of a short; a long with take
    profit 0, and a short with stop loss 0, are reported as triggered at
    every positive price. *)
Theorem X13_checkStopLossTakeProfit_zero_bracket
  (trader : address) (positionId : bytes32) (s : State) :
  let pos := positionOf s trader positionId in
  let price := encryptedOraclePrice s in
  EncryptedPosition.isOpen pos = true ->
  0 < price ->
  checkStopLossTakeProfit trader positionId s
  = Done (if EncryptedPosition.isLong pos
          then (price <? EncryptedPosition.stopLoss pos, EncryptedPosition.takeProfit pos <? price)
          else (EncryptedPosition.stopLoss pos <? price, price <? EncryptedPosition.takeProfit pos))
         s
  /\ (EncryptedPosition.isLong pos = true -> EncryptedPosition.takeProfit pos = 0 ->
      exists sl, checkStopLossTakeProfit trader positionId s = Done (sl, true) s)
  /\ (EncryptedPosition.isLong pos = false -> EncryptedPosition.stopLoss pos = 0 ->
      exists tp, checkStopLossTakeProfit trader positionId s = Done (true, tp) s)
  /\ (EncryptedPosition.isLong pos = true -> EncryptedPosition.stopLoss pos = 0 ->
      exists tp, checkStopLossTakeProfit trader positionId s = Done (false, tp) s)
  /\ (EncryptedPosition.isLong pos = false -> EncryptedPosition.takeProfit pos = 0 ->
      exists sl, checkStopLossTakeProfit trader positionId s = Done (sl, false) s).
Proof.
  intros pos price Hopen Hprice.
  assert (Hrun : checkStopLossTakeProfit trader positionId s
                 = Done (if EncryptedPosition.isLong pos
                         then (price <? EncryptedPosition.stopLoss pos,
                               EncryptedPosition.takeProfit pos <? price)
                         else (EncryptedPosition.stopLoss pos <? price,
                               price <? EncryptedPosition.takeProfit pos)) s).
  { unfold checkStopLossTakeProfit. run. fold pos. rewrite Hopen. run.
    unfold TFHE.lt, TFHE.gt. fold price. now destruct (EncryptedPosition.isLong pos). }
  split; [exact Hrun|]. rewrite Hrun.
  split; [|split; [|split]]; intros -> ->; eexists; f_equal; f_equal.
  - apply Z.ltb_lt. exact Hprice.
  - apply Z.ltb_lt. exact Hprice.
  - apply Z.ltb_ge. lia.
  - apply Z.ltb_ge. lia.
Qed.

Lemma X13_checkStopLossTakeProfit_zero_bracket_witness :
  checkStopLossTakeProfit Demo.alice Demo.alicePosition Demo.opened
  = Done (false, true) Demo.opened.
Proof.
  destruct (X13_checkStopLossTakeProfit_zero_bracket Demo.alice Demo.alicePosition Demo.opened)
    as (Hrun & _); [vm_compute; reflexivity | vm_compute; reflexivity |].
  rewrite Hrun. vm_compute. reflexivity.
Defined.

(** X14.  A position id that is unknown or already closed is refused
    everywhere: the three views [calculatePnL], [checkLiquidation] and
    [checkStopLossTakeProfit], and [liquidate] and
    [executeStopLossTakeProfit] from any caller, all fail with "Position not
    open", an invalid-state error, and write nothing; so do the views of the
    plaintext contract. *)
Theorem X14_unknown_or_closed_position_refused
  (e : Env) (trader : address) (positionId : bytes32)
  (s : State) (sm : ConfidentialPerpDEXMock.State) :
  (positions s !! (trader, positionId) = None
   \/ EncryptedPosition.isOpen (positionOf s trader positionId) = false ->
   calculatePnL trader positionId s = Reverted "Position not open" s
   /\ checkLiquidation trader positionId s = Reverted "Position not open" s
   /\ checkStopLossTakeProfit trader positionId s = Reverted "Position not open" s
   /\ liquidate e trader positionId s = Reverted "Position not open" s
   /\ executeStopLossTakeProfit e trader positionId s = Reverted "Position not open" s
   /\ failsWith InvalidStateError (liquidate e trader positionId s))
  /\ (ConfidentialPerpDEXMock.positions sm !! (trader, positionId) = None
      \/ ConfidentialPerpDEXMock.Position.isOpen
           (ConfidentialPerpDEXMock.positionOf sm trader positionId) = false ->
      ConfidentialPerpDEXMock.calculatePnL trader positionId sm = Reverted "Position not open" sm
      /\ ConfidentialPerpDEXMock.checkLiquidation trader positionId sm
         = Reverted "Position not open" sm
      /\ ConfidentialPerpDEXMock.liquidate e trader positionId sm
         = Reverted "Position not open" sm).
Proof.
  split.
  - intros H.
    assert (Hc : EncryptedPosition.isOpen (positionOf s trader positionId) = false).
    { destruct H as [H|H]; [|exact H]. unfold positionOf. now rewrite H. }
    split; [now apply calculatePnL_closed|].
    split; [unfold checkLiquidation; run; now rewrite Hc|].
    split; [unfold checkStopLossTakeProfit; run; now rewrite Hc|].
    split; [now apply liquidate_closed|].
    split; [now apply executeStopLossTakeProfit_closed|].
    eexists "Position not open", _. split; [now apply liquidate_closed | reflexivity].
  - intros H.
    assert (Hc : ConfidentialPerpDEXMock.Position.isOpen
                   (ConfidentialPerpDEXMock.positionOf sm trader positionId) = false).
    { destruct H as [H|H]; [|exact H]. unfold ConfidentialPerpDEXMock.positionOf. now rewrite H. }
    split; [now apply ConfidentialPerpDEXMockFacts.mock_calculatePnL_closed|].
    split.
    + unfold ConfidentialPerpDEXMock.checkLiquidation. ConfidentialPerpDEXMockFacts.mock_run.
      now rewrite Hc.
    + unfold ConfidentialPerpDEXMock.liquidate. ConfidentialPerpDEXMockFacts.mock_run.
      now rewrite Hc.
Qed.

Lemma X14_unknown_or_closed_position_refused_witness :
  checkLiquidation Demo.bob Demo.alicePosition Demo.opened
    = Reverted "Position not open" Demo.opened
  /\ ConfidentialPerpDEXMock.checkLiquidation Demo.bob Demo.alicePosition Demo.mockOpened
     = Reverted "Position not open" Demo.mockOpened.
Proof.
  destruct (X14_unknown_or_closed_position_refused (Demo.at_ Demo.bob 1005) Demo.bob
              Demo.alicePosition Demo.opened Demo.mockOpened) as (Hfhe & Hmock).
  split.
  - apply Hfhe. left. vm_compute. reflexivity.
  - apply Hmock. left. vm_compute. reflexivity.
Defined.

(** X15.  Opening and closing nets out to the profit or loss alone: when a
    trader opens a position, the admin then sets a new oracle price and the
    trader closes, the collateral that was locked comes back in full
    whatever the leverage, and the trader's balance ends at the starting
    balance plus (new price - entry price) * size for a long, (entry price -
    new price) * size for a short, modulo 2^64; the position is closed. *)
Theorem X15_open_then_close_nets_pnl
  (asEuint64 : bytes -> TFHE.euint64)
  (keccak256 : address * Z * TFHE.euint64 -> bytes32)
  (e eAdmin eClose : Env) (encSize : bytes) (leverage : Z) (isLong : bool)
  (encStopLoss encTakeProfit encNewPrice : bytes) (s : State) :
  let size := asEuint64 encSize in
  let positionId := keccak256 (msg_sender e, block_timestamp e, size) in
  let s' := Ledger.execute asEuint64 keccak256
              [(e, OpenPosition encSize leverage isLong encStopLoss encTakeProfit);
               (eAdmin, UpdateOraclePrice encNewPrice);
               (eClose, ClosePosition positionId)] s in
  leverage <> 0 ->
  msg_sender eAdmin = admin s ->
  msg_sender eClose = msg_sender e ->
  balanceOf s' (msg_sender e)
  = TFHE.wrap (balanceOf s (msg_sender e)
               + (if isLong
                  then (asEuint64 encNewPrice - encryptedOraclePrice s) * size
                  else (encryptedOraclePrice s - asEuint64 encNewPrice) * size))
  /\ closedIn s' (msg_sender e) positionId.
Proof.
  intros size positionId s' Hlev Hadmin Hclose.
  set (rc := TFHE.mul size (encryptedOraclePrice s) / leverage).
  set (opened := EncryptedPosition.mk size (encryptedOraclePrice s) rc leverage isLong
                   (block_timestamp e) true (asEuint64 encStopLoss) (asEuint64 encTakeProfit)).
  assert (Hrun : exists s2,
             s' = creditedAndClosed (msg_sender e) positionId
                    (TFHE.add rc (TFHE.wrap (pnlFormula (asEuint64 encNewPrice) opened)))
                    (PositionClosed (msg_sender e) positionId) s2
             /\ balanceOf s2 (msg_sender e) = TFHE.sub (balanceOf s (msg_sender e)) rc).
  { subst s'. unfold Ledger.execute. cbn [fold_left].
    unfold Ledger.step at 3. cbn [fst snd Ledger.dispatch].
    unfold transact at 1. unfold bind at 1.
    rewrite openPosition_ok by assumption. cbv zeta. fold size. fold positionId. fold rc.
    fold opened. unfold ret at 1.
    set (s1 := set_events _ _).
    unfold Ledger.step at 2. cbn [fst snd Ledger.dispatch]. unfold transact at 1.
    rewrite updateOraclePrice_admin by exact Hadmin.
    set (s2 := set_events _ _).
    unfold Ledger.step. cbn [fst snd Ledger.dispatch]. unfold transact.
    assert (Hpos : positionOf s2 (msg_sender eClose) positionId = opened).
    { rewrite Hclose. unfold positionOf. simpl. now rewrite lookup_insert_eq. }
    rewrite closePosition_open by (rewrite Hpos; reflexivity).
    rewrite Hpos, Hclose. exists s2. split; [reflexivity|].
    unfold balanceOf at 1. simpl. now rewrite lookup_insert_eq. }
  destruct Hrun as (s2 & -> & Hbal). split.
  - unfold creditedAndClosed, balanceOf at 1. simpl. rewrite lookup_insert_eq. simpl.
    rewrite Hbal. unfold pnlFormula. simpl.
    unfold TFHE.add, TFHE.sub, TFHE.wrap.
    rewrite (Zplus_mod_idemp_r _ rc), Zplus_mod_idemp_r, Zplus_mod_idemp_l.
    f_equal. destruct isLong; ring.
  - unfold closedIn, creditedAndClosed, positionOf. simpl. now rewrite lookup_insert_eq.
Qed.

Lemma X15_open_then_close_nets_pnl_witness :
  balanceOf (Ledger.execute Demo.decode Demo.idOf
               [(Demo.at_ Demo.alice 1003,
                 OpenPosition (Demo.encode 10) 5 true (Demo.encode 0) (Demo.encode 0));
                (Demo.at_ Demo.deployer 1004, UpdateOraclePrice (Demo.encode 120));
                (Demo.at_ Demo.alice 1005, ClosePosition Demo.alicePosition)]
               Demo.funded) Demo.alice = 1200.
Proof.
  destruct (X15_open_then_close_nets_pnl Demo.decode Demo.idOf (Demo.at_ Demo.alice 1003)
              (Demo.at_ Demo.deployer 1004) (Demo.at_ Demo.alice 1005) (Demo.encode 10) 5 true
              (Demo.encode 0) (Demo.encode 0) (Demo.encode 120) Demo.funded) as (Hbal & _).
  - discriminate.
  - vm_compute. reflexivity.
  - reflexivity.
  - etransitivity; [exact Hbal|]. vm_compute. reflexivity.
Defined.

(** X23.  [checkLiquidation] on the confidential contract works modulo
    2^64.  As long as the loss does not exceed the collateral and the scaled
    values fit 64 bits, it answers the integer test (collateral + pnl) *
    10000 < size * price * threshold, with pnl signed; when the loss exceeds
    the collateral the net value wraps around, and a position that deep
    under water is reported as not liquidatable. *)
Theorem X23_checkLiquidation_modulo_2_64
  (trader : address) (positionId : bytes32) (s : State) :
  let pos := positionOf s trader positionId in
  let net := EncryptedPosition.collateral pos + pnlFormula (encryptedOraclePrice s) pos in
  let value := EncryptedPosition.size pos * encryptedOraclePrice s in
  EncryptedPosition.isOpen pos = true ->
  0 <= value < TFHE.modulus ->
  0 <= value * liquidationThreshold s < TFHE.modulus ->
  (0 <= net -> net * 10000 < TFHE.modulus ->
   checkLiquidation trader positionId s
   = Done (net * 10000 <? value * liquidationThreshold s) s)
  /\ (net < 0 -> value * liquidationThreshold s <= TFHE.modulus + net * 10000 ->
      checkLiquidation trader positionId s = Done false s).
Proof.
  intros pos net value Hopen Hval Hthr.
  assert (Hrun : checkLiquidation trader positionId s
                 = Done (TFHE.wrap (net * 10000) <? value * liquidationThreshold s) s).
  { unfold checkLiquidation.
    unfold bind at 1. unfold readPosition at 1. fold pos. rewrite Hopen.
    unfold bind at 1. unfold require at 1, ret at 1.
    unfold bind at 1. unfold get at 1.
    unfold bind at 1. rewrite (calculatePnL_open s trader positionId Hopen). fold pos.
    unfold ret. f_equal. unfold TFHE.lt. f_equal.
    - rewrite TFHEFacts.add_wrap_r. fold net. unfold TFHE.mul, TFHE.asEuint64, TFHE.wrap.
      rewrite Zmult_mod_idemp_l, Zmult_mod_idemp_r. reflexivity.
    - unfold TFHE.mul. fold value. rewrite (TFHEFacts.wrap_small value) by exact Hval.
      now apply TFHEFacts.wrap_small. }
  rewrite Hrun. split.
  - intros Hnet Hfit. rewrite TFHEFacts.wrap_small by lia. reflexivity.
  - intros Hneg Hdeep. f_equal. apply Z.ltb_ge.
    assert (Hw : TFHE.wrap (net * 10000) = net * 10000 + TFHE.modulus).
    { unfold TFHE.wrap. symmetry. apply Z.mod_unique with (q := -1); [left|]; lia. }
    rewrite Hw. lia.
Qed.

Lemma X23_checkLiquidation_modulo_2_64_witness :
  checkLiquidation Demo.alice Demo.alicePosition Demo.repriced = Done false Demo.repriced
  /\ checkLiquidation Demo.alice Demo.alicePosition
       (transact (updateOraclePrice Demo.decode (Demo.at_ Demo.deployer 1004) (Demo.encode 70))
          Demo.opened)
     = Done false
         (transact (updateOraclePrice Demo.decode (Demo.at_ Demo.deployer 1004) (Demo.encode 70))
            Demo.opened).
Proof.
  split.
  - destruct (X23_checkLiquidation_modulo_2_64 Demo.alice Demo.alicePosition Demo.repriced)
      as (Hfit & _); [vm_compute; reflexivity | vm_compute; split; [discriminate | reflexivity] ..|].
    etransitivity; [apply Hfit; vm_compute; [discriminate | reflexivity]|].
    vm_compute. reflexivity.
  - destruct (X23_checkLiquidation_modulo_2_64 Demo.alice Demo.alicePosition
                (transact (updateOraclePrice Demo.decode (Demo.at_ Demo.deployer 1004)
                             (Demo.encode 70)) Demo.opened))
      as (_ & Hdeep); [vm_compute; reflexivity | vm_compute; split; [discriminate | reflexivity] ..|].
    apply Hdeep; vm_compute; [reflexivity | discriminate].
Defined.

(** X24.  Every ledger reachable from deployment: whatever transactions
    follow the constructor, refused ones included, the deployer is still the
    admin, the liquidation threshold is still 500 and the funding rate 10,
    the order book holds one order per [placeOrder] whose ciphertexts the
    library accepted, filled buys and filled sells are equal in number, and
    the oracle price is still the initial 5000000 unless the deployer has
    sent an [updateOraclePrice]. *)
Theorem X24_reachable_from_deployment
  (verify : bytes -> option string)
  (asEuint64 : bytes -> TFHE.euint64)
  (keccak256 : address * Z * TFHE.euint64 -> bytes32)
  (deploy : Env) (txs : list (Env * Call)) :
  let s := Ciphertext.executeChecked verify asEuint64 keccak256 txs (constructor deploy) in
  admin s = msg_sender deploy
  /\ liquidationThreshold s = 500
  /\ fundingRate s = 10
  /\ length (orderBook s) = length (filter (Ciphertext.placesOrder verify) txs)
  /\ filledOn true (orderBook s) = filledOn false (orderBook s)
  /\ (Forall (fun tx => setsPriceAs (msg_sender deploy) tx = false) txs ->
      encryptedOraclePrice s = 5000000)
  /\ ((forall data, verify data = None) ->
      s = Ledger.execute asEuint64 keccak256 txs (constructor deploy)).
Proof.
  cbv zeta.
  destruct (CiphertextFacts.executeChecked_config verify asEuint64 keccak256 txs
              (constructor deploy)) as (Ha & Ht & Hf & Hp).
  destruct (CiphertextFacts.executeChecked_orderBook verify asEuint64 keccak256 txs
              (constructor deploy)) as (Hlen & _ & Hpair).
  split; [exact Ha|]. split; [exact Ht|]. split; [exact Hf|]. split; [exact Hlen|].
  split; [now apply Hpair|].
  split; [intros Hall; now rewrite Hp|].
  apply CiphertextFacts.executeChecked_all_accepted.
Qed.

Lemma X24_reachable_from_deployment_witness :
  encryptedOraclePrice
    (Ciphertext.executeChecked Ciphertext.wordsOnly Demo.decode Demo.idOf
       [(Demo.at_ Demo.alice 1001, UpdateOraclePrice (Demo.encode 1));
        (Demo.at_ Demo.alice 1002, Deposit (Demo.encode 1000));
        (Demo.at_ Demo.bob 1003, PlaceOrder [7] (Demo.encode 5) true)]
       (constructor (Demo.at_ Demo.deployer 1000))) = 5000000
  /\ length (orderBook
               (Ciphertext.executeChecked Ciphertext.wordsOnly Demo.decode Demo.idOf
                  [(Demo.at_ Demo.alice 1001, UpdateOraclePrice (Demo.encode 1));
                   (Demo.at_ Demo.alice 1002, Deposit (Demo.encode 1000));
                   (Demo.at_ Demo.bob 1003, PlaceOrder [7] (Demo.encode 5) true)]
                  (constructor (Demo.at_ Demo.deployer 1000)))) = 0%nat.
Proof.
  destruct (X24_reachable_from_deployment Ciphertext.wordsOnly Demo.decode Demo.idOf
     (Demo.at_ Demo.deployer 1000)
     [(Demo.at_ Demo.alice 1001, UpdateOraclePrice (Demo.encode 1));
      (Demo.at_ Demo.alice 1002, Deposit (Demo.encode 1000));
      (Demo.at_ Demo.bob 1003, PlaceOrder [7] (Demo.encode 5) true)])
    as (_ & _ & _ & Hlen & _ & Hprice & _).
  split.
  - apply Hprice. repeat constructor.
  - etransitivity; [exact Hlen | vm_compute; reflexivity].
Defined.

Import ConfidentialPerpDEXMock MockSpec.

Ltac by_evaluation :=
  vm_compute; first [reflexivity | discriminate | split; [discriminate | reflexivity]].

(** X16.  Matching on the plaintext contract: [placeOrder] never fails; it
    appends the order and fills it against the first resting order, in book
    order, that is on the other side, unfilled, and whose price crosses (a
    buy at or above the resting ask, a sell at or below the resting bid);
    both are marked filled and one [OrderMatched] is emitted.  When no
    resting order qualifies the book only grows by the open order. *)
Theorem X16_mock_placeOrder_fills_first_crossing_order
  (e : Env) (encPrice encSize : bytes) (isLong : bool) (s : State) :
  let newOrder := Order.mk (_mockDecrypt encPrice) (_mockDecrypt encSize)
                    (msg_sender e) isLong false (block_timestamp e) in
  let ob := orderBook s in
  placeOrder e encPrice encSize isLong s =
    Done (length ob)
      (set_events (fun l => l ++ [OrderPlaced (msg_sender e) (Z.of_nat (length ob)) isLong]
                              ++ matchEvents ob newOrder)
         (set_orderBook (fun _ => matchedBook ob newOrder) s))
  /\ (forall j, firstMatch newOrder ob 0 = Some j ->
      exists o, ob !! j = Some o
                /\ Order.isLong o = negb isLong
                /\ Order.isFilled o = false
                /\ (if isLong then Order.price o <= _mockDecrypt encPrice
                    else _mockDecrypt encPrice <= Order.price o)
                /\ forall k o', (k < j)%nat -> ob !! k = Some o' -> isMatch newOrder o' = false)
  /\ (firstMatch newOrder ob 0 = None ->
      matchedBook ob newOrder = ob ++ [newOrder]
      /\ forall o, o ∈ ob -> isMatch newOrder o = false).
Proof.
  intros newOrder ob. split; [apply MockLedgerFacts.mock_placeOrder_ok|]. split.
  - intros j Hj. destruct (MockLedgerFacts.mock_firstMatch_found _ _ _ _ Hj) as (o & Ho & Hm & Hfirst).
    rewrite Nat.sub_0_r in Ho, Hfirst. exists o. split; [exact Ho|].
    unfold isMatch, canMatch in Hm. simpl in Hm.
    apply andb_prop in Hm as [Hm Hcross]. apply andb_prop in Hm as [Hside Hfilled].
    split; [|split; [|split]].
    + destruct (Order.isLong o), isLong; simpl in *; auto; discriminate.
    + now destruct (Order.isFilled o).
    + destruct isLong; now apply Z.leb_le.
    + exact Hfirst.
  - intros Hnone. split.
    + unfold matchedBook. now rewrite Hnone.
    + now apply (MockLedgerFacts.mock_firstMatch_none _ _ _ Hnone).
Qed.

(** X17.  The liquidation gate of the plaintext contract, for 64-bit sizes
    and prices: [checkLiquidation] answers whether (collateral + profit) *
    10000 is below size * price * threshold, where a loss counts as zero
    profit; [liquidate] refuses a position that is not below the threshold
    with "Position not liquidatable" and writes nothing; otherwise it closes
    the position and pays the caller a tenth of the collateral, rounded
    down. *)
Theorem X17_mock_liquidation_gate
  (e : Env) (trader : address) (positionId : bytes32) (s : State) :
  let pos := positionOf s trader positionId in
  Position.isOpen pos = true ->
  fits64 (Position.size pos) -> fits64 (Position.entryPrice pos) ->
  fits64 (Position.collateral pos) ->
  fits64 (oraclePrice s) -> fits64 (liquidationThreshold s) ->
  balanceOf s (msg_sender e) + Position.collateral pos / 10 < Uint256.modulus ->
  checkLiquidation trader positionId s = Done (underwater s pos) s
  /\ (underwater s pos = false ->
      liquidate e trader positionId s = Reverted "Position not liquidatable" s)
  /\ (underwater s pos = true ->
      exists s',
        liquidate e trader positionId s = Done tt s'
        /\ Position.isOpen (positionOf s' trader positionId) = false
        /\ balanceOf s' (msg_sender e)
           = balanceOf s (msg_sender e) + Position.collateral pos / 10
        /\ events s' = events s ++ [LiquidationTriggered trader positionId]).
Proof.
  intros pos Hopen Hs He Hc Ho Ht Hbal.
  assert (Hc' : 0 <= Position.collateral pos < 2 ^ 128).
  { unfold fits64 in Hc. rewrite MockLedgerFacts.fits64_modulus in Hc.
    change (2 ^ 128) with (18446744073709551616 * 18446744073709551616). lia. }
  pose proof (MockLedgerFacts.mock_liquidate_gate e trader positionId s
                Hopen Hs He Hc' Ho Ht Hbal) as Hliq.
  fold pos in Hliq.
  split; [now apply MockLedgerFacts.mock_checkLiquidation_formula|].
  split; intros Hu; rewrite Hu in Hliq; [exact Hliq|].
  eexists. split; [exact Hliq|]. unfold liquidated. fold pos. split; [|split].
  - unfold positionOf. simpl. now rewrite lookup_insert_eq.
  - unfold balanceOf at 1. simpl. now rewrite lookup_insert_eq.
  - reflexivity.
Qed.

Lemma X17_mock_liquidation_gate_witness :
  liquidate (Demo.at_ Demo.bob 1005) Demo.alice Demo.alicePosition Demo.mockOpened
    = Reverted "Position not liquidatable" Demo.mockOpened
  /\ exists s',
       liquidate (Demo.at_ Demo.bob 1005) Demo.alice Demo.alicePosition Demo.mockThin
         = Done tt s'
       /\ balanceOf s' Demo.bob = 4.
Proof.
  split.
  - destruct (X17_mock_liquidation_gate (Demo.at_ Demo.bob 1005) Demo.alice Demo.alicePosition
                Demo.mockOpened) as (_ & Hno & _); [by_evaluation .. |].
    apply Hno. vm_compute. reflexivity.
  - destruct (X17_mock_liquidation_gate (Demo.at_ Demo.bob 1005) Demo.alice Demo.alicePosition
                Demo.mockThin) as (_ & _ & Hgo); [by_evaluation .. |].
    destruct Hgo as (s' & Hrun & _ & Hbal & _); [vm_compute; reflexivity|].
    exists s'. split; [exact Hrun|]. etransitivity; [exact Hbal | vm_compute; reflexivity].
Defined.

(** X18.  On the plaintext contract, with the 5% threshold set at
    deployment, a position opened with leverage above 20 can be liquidated
    at once: right after [openPosition] succeeds, [checkLiquidation] on the
    new position answers true. *)
Theorem X18_mock_high_leverage_liquidatable_at_once
  (keccak256 : address * Z * Z -> bytes32)
  (e : Env) (encSize : bytes) (leverage : Z) (isLong : bool) (s : State) :
  let size := _mockDecrypt encSize in
  20 < leverage ->
  0 < size * oraclePrice s ->
  fits64 size -> fits64 (oraclePrice s) ->
  liquidationThreshold s = 500 ->
  size * oraclePrice s / leverage <= balanceOf s (msg_sender e) ->
  exists positionId s',
    openPosition keccak256 e encSize leverage isLong s = Done positionId s'
    /\ checkLiquidation (msg_sender e) positionId s' = Done true s'.
Proof.
  intros size Hlev Hval Hs Ho Ht Hbal.
  pose proof Hs as Hs'. pose proof Ho as Ho'.
  unfold fits64 in Hs', Ho'. rewrite MockLedgerFacts.fits64_modulus in Hs', Ho'.
  assert (Hq : 0 <= size * oraclePrice s / leverage) by (apply Z.div_pos; lia).
  assert (Hm : leverage * (size * oraclePrice s / leverage) <= size * oraclePrice s)
    by (apply Z.mul_div_le; lia).
  do 2 eexists. split.
  - apply MockLedgerFacts.mock_openPosition_ok; try assumption; try lia.
    rewrite MockLedgerFacts.uint256_modulus. fold size. nia.
  - fold size. set (positionId := keccak256 (msg_sender e, block_timestamp e, size)).
    set (s' := opened e positionId size leverage isLong s).
    assert (Hpos : positionOf s' (msg_sender e) positionId
                   = Position.mk size (oraclePrice s) (size * oraclePrice s / leverage)
                       leverage isLong (block_timestamp e) true).
    { unfold positionOf. simpl. now rewrite lookup_insert_eq. }
    rewrite MockLedgerFacts.mock_checkLiquidation_formula; rewrite ?Hpos; simpl;
      try assumption; try reflexivity.
    + f_equal. unfold underwater, pnlFormula. simpl. rewrite Ht.
      apply Z.ltb_lt. destruct isLong; rewrite Z.sub_diag; simpl; nia.
    + change (2 ^ 128) with (18446744073709551616 * 18446744073709551616). nia.
    + rewrite Ht. unfold fits64. rewrite MockLedgerFacts.fits64_modulus. lia.
Qed.

Lemma X18_mock_high_leverage_liquidatable_at_once_witness :
  exists positionId s',
    openPosition Demo.idOf (Demo.at_ Demo.alice 1003) (Demo.encode 10) 25 false Demo.mockFunded
      = Done positionId s'
    /\ checkLiquidation Demo.alice positionId s' = Done true s'.
Proof.
  apply (X18_mock_high_leverage_liquidatable_at_once Demo.idOf (Demo.at_ Demo.alice 1003)
           (Demo.encode 10) 25 false Demo.mockFunded); by_evaluation.
Defined.

(** X19.  The four outcomes of [openPosition] on the plaintext contract:
    arithmetic overflow of size * price, a zero leverage (division by zero),
    a balance below the required collateral ("Insufficient balance"), each
    before anything is written; otherwise the position is recorded with
    collateral size * price / leverage, rounded down, and exactly that amount
    leaves the sender's balance. *)
Theorem X19_mock_openPosition_outcomes
  (keccak256 : address * Z * Z -> bytes32)
  (e : Env) (encSize : bytes) (leverage : Z) (isLong : bool) (s : State) :
  let size := _mockDecrypt encSize in
  let value := size * oraclePrice s in
  (Uint256.modulus <= value ->
   openPosition keccak256 e encSize leverage isLong s = Reverted "Panic(0x11)" s)
  /\ (value < Uint256.modulus -> leverage = 0 ->
      openPosition keccak256 e encSize leverage isLong s = Reverted "Panic(0x12)" s)
  /\ (value < Uint256.modulus -> leverage <> 0 ->
      balanceOf s (msg_sender e) < value / leverage ->
      openPosition keccak256 e encSize leverage isLong s = Reverted "Insufficient balance" s)
  /\ (value < Uint256.modulus -> leverage <> 0 ->
      value / leverage <= balanceOf s (msg_sender e) ->
      exists s',
        openPosition keccak256 e encSize leverage isLong s
          = Done (keccak256 (msg_sender e, block_timestamp e, size)) s'
        /\ balanceOf s' (msg_sender e) = balanceOf s (msg_sender e) - value / leverage
        /\ positionOf s' (msg_sender e) (keccak256 (msg_sender e, block_timestamp e, size))
           = Position.mk size (oraclePrice s) (value / leverage) leverage isLong
               (block_timestamp e) true
        /\ getUserPositions (msg_sender e) s'
           = Done (default [] (userPositionIds s !! msg_sender e)
                   ++ [keccak256 (msg_sender e, block_timestamp e, size)]) s').
Proof.
  intros size value. split; [|split; [|split]].
  - now apply MockLedgerFacts.mock_openPosition_overflow.
  - intros Hv ->. now apply MockLedgerFacts.mock_openPosition_zero_leverage.
  - intros Hv Hl Hb. now apply ConfidentialPerpDEXMockFacts.mock_openPosition_insufficient.
  - intros Hv Hl Hb. eexists. split; [now apply MockLedgerFacts.mock_openPosition_ok|].
    fold size. unfold opened. split; [|split].
    + unfold balanceOf at 1. simpl. now rewrite lookup_insert_eq.
    + unfold positionOf. simpl. now rewrite lookup_insert_eq.
    + unfold getUserPositions, bind, get, ret. simpl. now rewrite lookup_insert_eq.
Qed.

Lemma X19_mock_openPosition_outcomes_witness :
  openPosition Demo.idOf (Demo.at_ Demo.alice 1003) (Demo.encode 10) 0 true Demo.mockFunded
    = Reverted "Panic(0x12)" Demo.mockFunded
  /\ openPosition Demo.idOf (Demo.at_ Demo.bob 1003) (Demo.encode 10) 5 true Demo.mockFunded
     = Reverted "Insufficient balance" Demo.mockFunded
  /\ exists s',
       openPosition Demo.idOf (Demo.at_ Demo.alice 1003) (Demo.encode 10) 5 true Demo.mockFunded
         = Done Demo.alicePosition s'
       /\ balanceOf s' Demo.alice = 800.
Proof.
  split; [|split].
  - apply (X19_mock_openPosition_outcomes Demo.idOf (Demo.at_ Demo.alice 1003) (Demo.encode 10)
             0 true Demo.mockFunded); vm_compute; reflexivity.
  - apply (X19_mock_openPosition_outcomes Demo.idOf (Demo.at_ Demo.bob 1003) (Demo.encode 10)
             5 true Demo.mockFunded); vm_compute; try reflexivity; discriminate.
  - destruct (X19_mock_openPosition_outcomes Demo.idOf (Demo.at_ Demo.alice 1003)
                (Demo.encode 10) 5 true Demo.mockFunded) as (_ & _ & _ & Hok).
    destruct Hok as (s' & Hrun & Hbal & _);
      [vm_compute; reflexivity | discriminate | vm_compute; discriminate |].
    exists s'. split; [exact Hrun|]. etransitivity; [exact Hbal | vm_compute; reflexivity].
Defined.

(** X20.  Closing on the plaintext contract never charges a loss: the
    owner is credited collateral + max(0, price move in the position's
    favour) * size, so never less than the collateral that was locked, and
    exactly the collateral when the price has not moved in the position's
    favour; the position is closed and [PositionClosed] is emitted. *)
Theorem X20_mock_closePosition_never_charges_a_loss
  (e : Env) (positionId : bytes32) (s : State) :
  let pos := positionOf s (msg_sender e) positionId in
  Position.isOpen pos = true ->
  0 <= balanceOf s (msg_sender e) -> 0 <= Position.collateral pos -> 0 <= Position.size pos ->
  balanceOf s (msg_sender e) + (Position.collateral pos + pnlFormula (oraclePrice s) pos)
  < Uint256.modulus ->
  exists s',
    closePosition e positionId s = Done tt s'
    /\ calculatePnL (msg_sender e) positionId s = Done (pnlFormula (oraclePrice s) pos) s
    /\ balanceOf s' (msg_sender e)
       = balanceOf s (msg_sender e) + Position.collateral pos + pnlFormula (oraclePrice s) pos
    /\ balanceOf s (msg_sender e) + Position.collateral pos <= balanceOf s' (msg_sender e)
    /\ ((if Position.isLong pos then oraclePrice s <= Position.entryPrice pos
         else Position.entryPrice pos <= oraclePrice s) ->
        balanceOf s' (msg_sender e) = balanceOf s (msg_sender e) + Position.collateral pos)
    /\ Position.isOpen (positionOf s' (msg_sender e) positionId) = false
    /\ events s' = events s ++ [PositionClosed (msg_sender e) positionId].
Proof.
  intros pos Hopen Hbal Hc Hsz Hb.
  assert (Hpnl : 0 <= pnlFormula (oraclePrice s) pos).
  { unfold pnlFormula. destruct (Position.isLong pos); nia. }
  set (s' := creditedAndClosed (msg_sender e) positionId
               (Position.collateral pos + pnlFormula (oraclePrice s) pos) s).
  exists s'. split; [now apply MockLedgerFacts.mock_closePosition_open|].
  assert (Hnew : balanceOf s' (msg_sender e)
                 = balanceOf s (msg_sender e) + Position.collateral pos
                   + pnlFormula (oraclePrice s) pos).
  { unfold s', creditedAndClosed, balanceOf at 1. simpl. rewrite lookup_insert_eq. simpl. lia. }
  split; [apply MockLedgerFacts.mock_calculatePnL_formula; [exact Hopen | fold pos; lia]|].
  split; [exact Hnew|]. split; [rewrite Hnew; lia|]. split; [|split].
  - intros Hmove. rewrite Hnew. unfold pnlFormula.
    destruct (Position.isLong pos); rewrite Z.max_l by lia; lia.
  - unfold s', creditedAndClosed, positionOf. simpl. now rewrite lookup_insert_eq.
  - reflexivity.
Qed.

Lemma X20_mock_closePosition_never_charges_a_loss_witness :
  exists s',
    closePosition (Demo.at_ Demo.alice 1005) Demo.alicePosition Demo.mockOpened = Done tt s'
    /\ balanceOf s' Demo.alice = 1000.
Proof.
  destruct (X20_mock_closePosition_never_charges_a_loss (Demo.at_ Demo.alice 1005)
              Demo.alicePosition Demo.mockOpened) as (s' & Hrun & _ & Hbal & _);
    [by_evaluation .. |].
  exists s'. split; [exact Hrun|]. etransitivity; [exact Hbal | vm_compute; reflexivity].
Defined.

(** ** The bots' bookkeeping *)

Module BotFacts.
Import Bots.

Lemma monitoring_app p l l' :
  LiquidationBot.monitoring p (l ++ l')
  = (LiquidationBot.monitoring p l + LiquidationBot.monitoring p l')%nat.
Proof. induction l as [|m l IH]; simpl; [reflexivity|]. rewrite IH. lia. Qed.

Lemma monitoring_removePosition_same p l :
  LiquidationBot.monitoring p (LiquidationBot.removePosition p l)
  = Nat.pred (LiquidationBot.monitoring p l).
Proof.
  induction l as [|m l IH]; simpl; [reflexivity|].
  destruct (String.eqb (LiquidationBot.positionId m) p) eqn:Hm; simpl.
  - reflexivity.
  - now rewrite Hm.
Qed.

Lemma monitoring_removePosition_other p q l :
  String.eqb q p = false ->
  LiquidationBot.monitoring p (LiquidationBot.removePosition q l)
  = LiquidationBot.monitoring p l.
Proof.
  intros Hqp. induction l as [|m l IH]; simpl; [reflexivity|].
  destruct (String.eqb (LiquidationBot.positionId m) q) eqn:Hm; simpl.
  - apply String.eqb_eq in Hm. rewrite Hm, Hqp. reflexivity.
  - now rewrite IH.
Qed.

Lemma length_removePosition p l :
  length (LiquidationBot.removePosition p l)
  = (length l - (if Nat.eqb (LiquidationBot.monitoring p l) 0 then 0 else 1))%nat.
Proof.
  induction l as [|m l IH]; simpl; [reflexivity|].
  destruct (String.eqb (LiquidationBot.positionId m) p) eqn:Hm; simpl.
  - lia.
  - rewrite IH. destruct (Nat.eqb (LiquidationBot.monitoring p l) 0) eqn:Hz; [lia|].
    apply Nat.eqb_neq in Hz. destruct l; simpl in *; lia.
Qed.

Lemma handleEvent_other now name data positions p :
  String.eqb (Bots.positionId data) p = false ->
  TradingBot.handleEvent now name data positions !! p = positions !! p.
Proof.
  intros Hp. apply String.eqb_neq in Hp. unfold TradingBot.handleEvent.
  destruct (String.eqb name "PositionOpened"); [now rewrite lookup_insert_ne|].
  destruct (String.eqb name "PositionClosed"); [now rewrite lookup_delete_ne|].
  destruct (String.eqb name "LiquidationTriggered"); [now rewrite lookup_delete_ne|].
  reflexivity.
Qed.

Lemma replay_agrees p evs : forall positions sofar,
  TradingBot.agrees sofar positions p ->
  TradingBot.agrees (TradingBot.lastWord p evs sofar) (TradingBot.replay evs positions) p.
Proof.
  induction evs as [|[[now name] data] evs IH]; intros positions sofar Hag; [exact Hag|].
  unfold TradingBot.replay. cbn [fold_left TradingBot.lastWord fst snd].
  apply IH.
  destruct (String.eqb (Bots.positionId data) p) eqn:Hp; cbn [andb].
  - apply String.eqb_eq in Hp. unfold TradingBot.handleEvent.
    destruct (String.eqb name "PositionOpened"); simpl.
    + rewrite <- Hp, lookup_insert_eq. eauto.
    + destruct (String.eqb name "PositionClosed"); simpl.
      * rewrite <- Hp. apply lookup_delete_eq.
      * destruct (String.eqb name "LiquidationTriggered"); simpl.
        -- rewrite <- Hp. apply lookup_delete_eq.
        -- exact Hag.
  - destruct sofar as [[|]|]; simpl in *; rewrite ?handleEvent_other by exact Hp; auto.
Qed.

Lemma replay_silent p evs : forall positions sofar,
  TradingBot.lastWord p evs sofar = None ->
  TradingBot.replay evs positions !! p = positions !! p.
Proof.
  assert (Hkeep : forall evs w, TradingBot.lastWord p evs (Some w) <> None).
  { intros evs0. induction evs0 as [|[[now name] data] evs0 IH]; intros w; [discriminate|].
    cbn [TradingBot.lastWord fst snd].
    destruct (String.eqb (Bots.positionId data) p && String.eqb name "PositionOpened");
      [apply IH|].
    destruct (String.eqb (Bots.positionId data) p
              && (String.eqb name "PositionClosed" || String.eqb name "LiquidationTriggered"));
      apply IH. }
  induction evs as [|[[now name] data] evs IH]; intros positions sofar Hnone; [reflexivity|].
  unfold TradingBot.replay. cbn [fold_left TradingBot.lastWord fst snd] in *.
  destruct (String.eqb (Bots.positionId data) p) eqn:Hp; cbn [andb] in Hnone.
  - destruct (String.eqb name "PositionOpened") eqn:Ho; [now apply Hkeep in Hnone|].
    destruct (String.eqb name "PositionClosed" || String.eqb name "LiquidationTriggered")
      eqn:Hend; [now apply Hkeep in Hnone|].
    apply orb_false_elim in Hend as [Hc Hl].
    etransitivity; [apply (IH _ _ Hnone)|].
    unfold TradingBot.handleEvent. now rewrite Ho, Hc, Hl.
  - etransitivity; [apply (IH _ _ Hnone)|]. now apply handleEvent_other.
Qed.

End BotFacts.

(** X21.  The liquidation bot counts openings: each [PositionOpened] adds
    one entry for its id, also when that id is already monitored; each
    [PositionClosed] or [LiquidationTriggered] removes one entry for its id,
    the oldest, if there is one; entries for other ids and every other event
    change nothing.  So after two openings of one id a single close leaves
    the id monitored. *)
Theorem X21_liquidationBot_counts_openings
  (now : Z) (eventName : string) (data : Bots.EventData)
  (monitoredPositions : list Bots.LiquidationBot.Monitored) (p : string) :
  Bots.LiquidationBot.monitoring p
    (Bots.LiquidationBot.handleEvent now eventName data monitoredPositions)
  = (if String.eqb eventName "PositionOpened"
     then if String.eqb (Bots.positionId data) p
          then S (Bots.LiquidationBot.monitoring p monitoredPositions)
          else Bots.LiquidationBot.monitoring p monitoredPositions
     else if String.eqb eventName "PositionClosed" || String.eqb eventName "LiquidationTriggered"
          then if String.eqb (Bots.positionId data) p
               then Nat.pred (Bots.LiquidationBot.monitoring p monitoredPositions)
               else Bots.LiquidationBot.monitoring p monitoredPositions
          else Bots.LiquidationBot.monitoring p monitoredPositions)
  /\ (forall t1 t2 t3 : Z,
        (0 < Bots.LiquidationBot.monitoring (Bots.positionId data)
               (Bots.LiquidationBot.handleEvent t3 "PositionClosed" data
                  (Bots.LiquidationBot.handleEvent t2 "PositionOpened" data
                     (Bots.LiquidationBot.handleEvent t1 "PositionOpened" data
                        monitoredPositions))))%nat)
  /\ length (Bots.LiquidationBot.removePosition p monitoredPositions)
     = (length monitoredPositions
        - (if Nat.eqb (Bots.LiquidationBot.monitoring p monitoredPositions) 0 then 0 else 1))%nat.
Proof.
  split; [|split].
  - unfold Bots.LiquidationBot.handleEvent.
    destruct (String.eqb eventName "PositionOpened").
    + rewrite BotFacts.monitoring_app. simpl.
      destruct (String.eqb (Bots.positionId data) p); lia.
    + destruct (String.eqb eventName "PositionClosed"); simpl.
      * destruct (String.eqb (Bots.positionId data) p) eqn:Hp.
        -- apply String.eqb_eq in Hp. subst p. apply BotFacts.monitoring_removePosition_same.
        -- now apply BotFacts.monitoring_removePosition_other.
      * destruct (String.eqb eventName "LiquidationTriggered"); [|reflexivity].
        destruct (String.eqb (Bots.positionId data) p) eqn:Hp.
        -- apply String.eqb_eq in Hp. subst p. apply BotFacts.monitoring_removePosition_same.
        -- now apply BotFacts.monitoring_removePosition_other.
  - intros t1 t2 t3. unfold Bots.LiquidationBot.handleEvent. simpl.
    rewrite BotFacts.monitoring_removePosition_same, !BotFacts.monitoring_app. simpl.
    rewrite String.eqb_refl. lia.
  - apply BotFacts.length_removePosition.
Qed.

(** X22.  The trading bot's map follows the last event about each id:
    after any sequence of events, an id is tracked exactly when the last
    event that names it is a [PositionOpened], is absent when that last
    event is a [PositionClosed] or [LiquidationTriggered], and is as before
    when no such event names it; order-placed and unknown events change
    nothing. *)
Theorem X22_tradingBot_tracks_last_event
  (evs : list (Z * string * Bots.EventData))
  (positions : gmap string Bots.TradingBot.Tracked) (p : string) :
  match Bots.TradingBot.lastWord p evs None with
  | Some true => is_Some (Bots.TradingBot.replay evs positions !! p)
  | Some false => Bots.TradingBot.replay evs positions !! p = None
  | None => Bots.TradingBot.replay evs positions !! p = positions !! p
  end.
Proof.
  pose proof (BotFacts.replay_agrees p evs positions None I) as Hag.
  pose proof (BotFacts.replay_silent p evs positions None) as Hsilent.
  unfold Bots.TradingBot.agrees in Hag.
  destruct (Bots.TradingBot.lastWord p evs None) as [[|]|]; auto.
Qed.
